(** * File Mover: the rule execution engine of [src/main.ts]

    A shallow embedding of [executeMoveRule], [processFolder] and [moveFile]
    together with a model of the part of the host (the vault, its folder
    handles, [Notice], [console] and [RegExp]) those three methods call.

    - The three methods are computations in a state-and-exception monad over
      a [World]: the file tree and the trace of what the invocation did.
    - The vault is a tree of entries that carry their path and name;
      [getAbstractFileByPath], [createFolder] and [rename] are functions on
      it, and [rename] refuses a destination that exists.
    - A handle names an entry of the tree.  [folder.children] is read from
      the tree each time the loop of [processFolder] comes to it after an
      [await]: the children are those the folder has then.
    - A call of [moveFile] asks the vault for the rename and is not awaited:
      the move is in flight.  The vault settles it, and [moveFile] goes on to
      its report, while the plugin waits at an [await Promise.all].  Which of
      the moves in flight are settled at which [await], and in which order,
      is the host's choice and a parameter; those an [await] waits for are
      settled before it returns.
    - How far the recursion of [processFolder] can go is a parameter too:
      beyond it the call throws.
    - The regular-expression engine is a parameter. *)

From Stdlib Require Import String Ascii List Bool Arith Lia Permutation.
Import ListNotations.
Open Scope string_scope.
Open Scope list_scope.

Set Implicit Arguments.

(** String concatenation, kept apart from list append. *)
Infix "+++" := String.append (right associativity, at level 60).

(** ** Strings and paths *)

Definition slash : ascii := ascii_of_nat 47.

(** The double quote character, used by two of the notices. *)
Definition dquote : string := String (ascii_of_nat 34) EmptyString.

Fixpoint noSlash (s : string) : bool :=
  match s with
  | EmptyString => true
  | String c r => negb (Ascii.eqb c slash) && noSlash r
  end.

(** [splitPath s] cuts [s] at its last slash: the folder part (absent when
    [s] has no slash) and the base name. *)
Fixpoint splitPath (s : string) : option string * string :=
  match s with
  | EmptyString => (None, EmptyString)
  | String c r =>
      match splitPath r with
      | (Some d, b) => (Some (String c d), b)
      | (None, b) =>
          if Ascii.eqb c slash then (Some EmptyString, b) else (None, String c b)
      end
  end.

Definition basename (s : string) : string := snd (splitPath s).

(** The vault's root folder has path ["/"]; entries at the top level have a
    path without any slash. *)
Definition rootPath : string := "/".

Definition parentPath (s : string) : string :=
  match fst (splitPath s) with
  | Some d => d
  | None => rootPath
  end.

(** ** The host's file tree *)

(** Handles as the plugin sees them: every entry carries its full [path] and
    its base [name]; a folder carries its [children] in order. *)
Unset Elimination Schemes.
Inductive TAbstractFile : Type :=
| TFile (path name : string)
| TFolder (path name : string) (children : list TAbstractFile).
Set Elimination Schemes.

Definition path (f : TAbstractFile) : string :=
  match f with TFile p _ => p | TFolder p _ _ => p end.

Definition name (f : TAbstractFile) : string :=
  match f with TFile _ n => n | TFolder _ n _ => n end.

Definition isFolder (f : TAbstractFile) : bool :=
  match f with TFile _ _ => false | TFolder _ _ _ => true end.

Definition children (f : TAbstractFile) : list TAbstractFile :=
  match f with TFile _ _ => [] | TFolder _ _ cs => cs end.

Section TAbstractFile_forall_induction.

Variable P : TAbstractFile -> Prop.
Hypothesis P_file : forall p n, P (TFile p n).
Hypothesis P_folder : forall p n cs, Forall P cs -> P (TFolder p n cs).

Fixpoint TAbstractFile_forall_ind (f : TAbstractFile) : P f :=
  match f with
  | TFile p n => P_file p n
  | TFolder p n cs =>
      P_folder p n
        ((fix all (l : list TAbstractFile) : Forall P l :=
            match l with
            | [] => Forall_nil P
            | c :: r => Forall_cons c (TAbstractFile_forall_ind c) (all r)
            end) cs)
  end.

End TAbstractFile_forall_induction.

(** Modelled from the spec: the host's vault (section 6, "host file-tree
    collaborator"), which is the [obsidian] package and not part of this
    repository.  The vault is the ordered list of the root folder's children. *)
Definition Vault : Type := list TAbstractFile.

Fixpoint firstSome {A B : Type} (f : A -> option B) (l : list A) : option B :=
  match l with
  | [] => None
  | a :: r => match f a with Some b => Some b | None => firstSome f r end
  end.

(** Depth-first search of the entry whose path is [p]. *)
Fixpoint findNode (p : string) (n : TAbstractFile) : option TAbstractFile :=
  if String.eqb (path n) p then Some n
  else match n with
       | TFile _ _ => None
       | TFolder _ _ cs => firstSome (findNode p) cs
       end.

(** The root folder, as a handle. *)
Definition root (v : Vault) : TAbstractFile := TFolder rootPath EmptyString v.

(** Modelled from the spec: [resolve(path) -> entry-or-absent]. *)
Definition getAbstractFileByPath (v : Vault) (p : string) : option TAbstractFile :=
  if String.eqb p rootPath then Some (root v)
  else firstSome (findNode p) v.

Definition isFileAt (p : string) (n : TAbstractFile) : bool :=
  match n with
  | TFile q _ => String.eqb q p
  | TFolder _ _ _ => false
  end.

(** [prune p n] takes the file at path [p] out of the tree below [n]. *)
Fixpoint prune (p : string) (n : TAbstractFile) : TAbstractFile :=
  match n with
  | TFile q m => TFile q m
  | TFolder q m cs =>
      TFolder q m (filter (fun c => negb (isFileAt p c)) (map (prune p) cs))
  end.

Definition pruneVault (p : string) (v : Vault) : Vault :=
  filter (fun c => negb (isFileAt p c)) (map (prune p) v).

(** [graft par x n] appends [x] to the children of the folder at [par]. *)
Fixpoint graft (par : string) (x : TAbstractFile) (n : TAbstractFile) : TAbstractFile :=
  match n with
  | TFile q m => TFile q m
  | TFolder q m cs =>
      let cs' := map (graft par x) cs in
      TFolder q m (if String.eqb q par then cs' ++ [x] else cs')
  end.

Definition graftVault (par : string) (x : TAbstractFile) (v : Vault) : Vault :=
  let v' := map (graft par x) v in
  if String.eqb par rootPath then v' ++ [x] else v'.

Definition Error : Type := string.

Definition parentIsFolder (v : Vault) (p : string) : bool :=
  match getAbstractFileByPath v (parentPath p) with
  | Some (TFolder _ _ _) => true
  | _ => false
  end.

(** Modelled from the spec: [createDirectory(path) -> success-or-error].  The
    call fails when [p] already resolves or when the folder it would be
    created in does not exist. *)
Definition createFolder (v : Vault) (p : string) : Error + Vault :=
  match getAbstractFileByPath v p with
  | Some _ => inl "Folder already exists."
  | None =>
      if parentIsFolder v p
      then inr (graftVault (parentPath p) (TFolder p (basename p) []) v)
      else inl "ENOENT: no such file or directory"
  end.

(** Modelled from the spec: [rename(fileHandle, newPath) -> success-or-error],
    the atomic move of one file, "updating its identity": on success the
    handle's path and name are those of [newPath].  The call fails when the
    file is no longer at its path, when [newPath] already resolves (the
    collision case) and when the folder part of [newPath] is not a folder.
    Only files are moved by the plugin; a folder handle is refused here. *)
Definition rename (v : Vault) (file : TAbstractFile) (newPath : string)
  : Error + (TAbstractFile * Vault) :=
  match file with
  | TFolder _ _ _ => inl "EISDIR: folder moves are not part of this model"
  | TFile p _ =>
      match getAbstractFileByPath v p with
      | Some (TFile _ _) =>
          match getAbstractFileByPath v newPath with
          | Some _ => inl "Destination file already exists!"
          | None =>
              if parentIsFolder v newPath
              then let file' := TFile newPath (basename newPath) in
                   inr (file', graftVault (parentPath newPath) file' (pruneVault p v))
              else inl "ENOENT: no such file or directory"
          end
      | _ => inl "File not found"
      end
  end.

(** ** Observable effects and the computation monad *)

(** What one invocation does to the outside, in the order in which it
    happens.  [CreateFolder] records a call of [vault.createFolder].
    [MoveFile] records a call of [moveFile], which asks the vault for the
    rename and waits; [Rename] records the vault settling that rename, with
    its outcome ([true] when the promise resolves, [false] when it rejects).
    [PatternTest] records a call of [pattern.test], with the path of the
    child it is made for and the string it is given.  [AwaitAll] records an
    [await Promise.all(movePromises)] at the point where it returns, with the
    paths of the files whose moves it has waited for. *)
Inductive Event : Type :=
| Notice (msg : string)
| ConsoleLog (msg : string)
| ConsoleError (msg : string)
| CreateFolder (p : string)
| Rename (from to : string) (ok : bool)
| PatternTest (file subject : string)
| AwaitAll (promises : list string)
| MoveFile (from to : string).

Definition isAwait (e : Event) : bool :=
  match e with AwaitAll _ => true | _ => false end.

(** The number of [await Promise.all] that have returned. *)
Definition joinCount (tr : list Event) : nat := length (filter isAwait tr).

Record World : Type := mkWorld { vault : Vault; trace : list Event }.

(** A JavaScript completion: a value, or a thrown error (a rejected promise
    once awaited). *)
Inductive Completion (A : Type) : Type :=
| Normal (a : A)
| Abrupt (e : Error).
Arguments Normal {A} a.
Arguments Abrupt {A} e.

Definition Async (A : Type) : Type := World -> Completion A * World.

Definition ret {A : Type} (a : A) : Async A := fun w => (Normal a, w).

Definition throw {A : Type} (e : Error) : Async A := fun w => (Abrupt e, w).

Definition bind {A B : Type} (m : Async A) (k : A -> Async B) : Async B :=
  fun w =>
    match m w with
    | (Normal a, w') => k a w'
    | (Abrupt e, w') => (Abrupt e, w')
    end.

(** [try { m } catch (error) { h error }] *)
Definition tryCatch {A : Type} (m : Async A) (h : Error -> Async A) : Async A :=
  fun w =>
    match m w with
    | (Normal a, w') => (Normal a, w')
    | (Abrupt e, w') => h e w'
    end.

Notation "x <- m ;; k" := (bind m (fun x => k))
  (at level 61, m at next level, right associativity).
Notation "m ;;; k" := (bind m (fun _ => k))
  (at level 61, right associativity).

Definition emit (e : Event) : Async unit :=
  fun w => (Normal tt, mkWorld (vault w) (trace w ++ [e])).

Definition newNotice (msg : string) : Async unit := emit (Notice msg).
Definition console_log (msg : string) : Async unit := emit (ConsoleLog msg).
Definition console_error (msg : string) : Async unit := emit (ConsoleError msg).

Definition vault_getAbstractFileByPath (p : string) : Async (option TAbstractFile) :=
  fun w => (Normal (getAbstractFileByPath (vault w) p), w).

Definition vault_createFolder (p : string) : Async unit :=
  fun w =>
    let t := trace w ++ [CreateFolder p] in
    match createFolder (vault w) p with
    | inr v' => (Normal tt, mkWorld v' t)
    | inl e => (Abrupt e, mkWorld (vault w) t)
    end.

(** The vault settles the rename asked for by
    [this.app.vault.rename(child, newPath)]: the tree changes, or the promise
    rejects.  The handle returned is [child] as the host leaves it after the
    move. *)
Definition vault_rename (child : TAbstractFile) (newPath : string) : Async TAbstractFile :=
  fun w =>
    match rename (vault w) child newPath with
    | inr (child', v') =>
        (Normal child', mkWorld v' (trace w ++ [Rename (path child) newPath true]))
    | inl e =>
        (Abrupt e, mkWorld (vault w) (trace w ++ [Rename (path child) newPath false]))
    end.

(** A [moveFile] in flight: the vault has been asked to rename [moving] to
    [toPath], and the call waits for it. *)
Record Move : Type := mkMove { moving : TAbstractFile; toPath : string }.

(** The children the vault has for a folder now. *)
Definition childrenOf (v : Vault) (folder : TAbstractFile) : list TAbstractFile :=
  match getAbstractFileByPath v (path folder) with
  | Some (TFolder _ _ cs) => cs
  | _ => []
  end.

(** ** The plugin *)

(** The interface [MoveRule].  Its field [name] is [ruleName] here, [name]
    being the name of a file. *)
Record MoveRule : Type := mkRule {
  id : string;           (* unique identifier of the rule *)
  ruleName : string;     (* name of the rule *)
  sourcePath : string;   (* path of the source folder *)
  filePattern : string;  (* file name pattern, a regular expression *)
  targetPath : string;   (* path of the target folder *)
  enabled : bool         (* whether the rule is enabled *)
}.

Record FileMoverSettings : Type := mkSettings {
  rules : list MoveRule;
  showMoveNotification : bool
}.

Definition DEFAULT_SETTINGS : FileMoverSettings := mkSettings [] true.

Section FileMoverPlugin.

(** The JavaScript regular-expression engine: [new RegExp(pattern)], which
    throws on a pattern that does not compile, and [RegExp.prototype.test]
    of a regex without flags. *)
Variable RegExp : Type.
Variable newRegExp : string -> Error + RegExp.
Variable test : RegExp -> string -> bool.

Variable settings : FileMoverSettings.

(** The host's side of the moves.  [host k inFlight] lists, for the [await
    Promise.all] that is the [k]-th to return, the moves the host settles of
    its own choice while the plugin waits: each number is a position in the
    moves that are in flight when its turn comes, and a number that is no
    position is passed over. *)
Variable host : nat -> list Move -> list nat.

(** How many folder children the recursion can take on before the call
    stack is exhausted.  Every folder the walk comes to takes one, a folder
    beside the one the walk is in as well as a folder in it: the walk here
    throws no later than a walk whose call stack holds [stack] nested calls,
    and it does not throw when [stack] is at least the number of folders
    below the folder walked. *)
Variable stack : nat.

Definition compileRegExp (pattern : string) : Async RegExp :=
  fun w => match newRegExp pattern with
           | inr regex => (Normal regex, w)
           | inl e => (Abrupt e, w)
           end.

(** [pattern.test(s)], made for the child at path [file]. *)
Definition pattern_test (pattern : RegExp) (file s : string) : Async bool :=
  emit (PatternTest file s) ;;; ret (test pattern s).

(** [moveFile(child, newPath)], up to its [await]: the vault is asked for the
    rename, and the call joins the moves in flight. *)
Definition moveFile (child : TAbstractFile) (newPath : string) (inFlight : list Move)
  : Async (list Move) :=
  emit (MoveFile (path child) newPath) ;;;
  ret (inFlight ++ [mkMove child newPath]).

(** [moveFile(child, newPath)], from its [await] on: the vault settles the
    rename and the [try] block goes on, or its [catch] clause runs.  The
    report is taken to follow the settling at once, no other move being
    settled between the two. *)
Definition moveFileResumed (child : TAbstractFile) (newPath : string) : Async unit :=
  tryCatch
    (child' <- vault_rename child newPath ;;
     (if showMoveNotification settings
      then newNotice ("Moved file: " +++ path child' +++ " -> " +++ newPath)
      else ret tt) ;;;
     console_log ("Moved file: " +++ path child' +++ " -> " +++ newPath))
    (fun error =>
       console_error ("Failed to move file: " +++ path child +++ " " +++ error) ;;;
       newNotice ("Failed to move file: " +++ path child)).

(** The move at position [i] of those in flight is settled, if there is one. *)
Definition settleAt (i : nat) (inFlight : list Move) : Async (list Move) :=
  match nth_error inFlight i with
  | Some m =>
      moveFileResumed (moving m) (toPath m) ;;;
      ret (firstn i inFlight ++ skipn (S i) inFlight)
  | None => ret inFlight
  end.

Fixpoint settleEach (picks : list nat) (inFlight : list Move) : Async (list Move) :=
  match picks with
  | [] => ret inFlight
  | i :: rest => inFlight' <- settleAt i inFlight ;; settleEach rest inFlight'
  end.

(** The moves that [movePromises] names and that are still in flight are
    settled, the oldest first.  A promise is named by the path of the file
    it moves. *)
Fixpoint settleAwaited (movePromises : list string) (inFlight : list Move)
  : Async (list Move) :=
  match inFlight with
  | [] => ret []
  | m :: rest =>
      if existsb (String.eqb (path (moving m))) movePromises
      then moveFileResumed (moving m) (toPath m) ;;; settleAwaited movePromises rest
      else inFlight' <- settleAwaited movePromises rest ;; ret (m :: inFlight')
  end.

(** [await Promise.all(movePromises)]: while the plugin waits the host
    settles the moves of its choice, then those awaited that are left; the
    moves still in flight are returned. *)
Definition promise_all (movePromises : list string) (inFlight : list Move)
  : Async (list Move) :=
  fun w =>
    (inFlight1 <- settleEach (host (joinCount (trace w)) inFlight) inFlight ;;
     inFlight2 <- settleAwaited movePromises inFlight1 ;;
     emit (AwaitAll movePromises) ;;;
     ret inFlight2) w.

(** What [this.processFolder] is when the call stack is exhausted. *)
Definition stackOverflow : TAbstractFile -> nat -> list string -> list Move -> Async (list Move) :=
  fun _ _ _ _ => throw "RangeError: Maximum call stack size exceeded".

(** The loop of [processFolder] over [cs], the children of [folder] from the
    index [i] on as they have just been read from the tree, with the array
    [movePromises] as collected so far and the moves [inFlight].  Up to the
    next [await] nothing changes the children: the files before the next
    folder are gone through as they were read.  [walk] is [this.processFolder]:
    it is called, and awaited, for a child folder, and the loop then goes on
    at the next index, which [walk] does by reading the children again. *)
Fixpoint processChildren
    (walk : TAbstractFile -> nat -> list string -> list Move -> Async (list Move))
    (folder : TAbstractFile) (pattern : RegExp) (targetPath : string)
    (cs : list TAbstractFile) (i : nat) (movePromises : list string)
    (inFlight : list Move) : Async (list Move) :=
  match cs with
  | [] => promise_all movePromises inFlight
  | child :: rest =>
      match child with
      | TFolder _ _ _ =>
          inFlight' <- walk child 0 [] inFlight ;;
          walk folder (S i) movePromises inFlight'
      | TFile _ _ =>
          matched <- pattern_test pattern (path child) (name child) ;;
          if matched
          then
            let newPath := targetPath +++ "/" +++ name child in
            inFlight' <- moveFile child newPath inFlight ;;
            processChildren walk folder pattern targetPath rest (S i)
              (movePromises ++ [path child]) inFlight'
          else
            processChildren walk folder pattern targetPath rest (S i)
              movePromises inFlight
      end
  end.

(** [processFolder(folder, pattern, targetPath)] from the child at index [i]
    on: the children are those the tree has for [folder] now.  [budget] is
    what is left of [stack]: one is taken for each folder child the loop
    comes to, and with none left the call for a folder child throws. *)
Fixpoint processFolderFrom (budget : nat) (folder : TAbstractFile) (pattern : RegExp)
    (targetPath : string) (i : nat) (movePromises : list string) (inFlight : list Move)
    {struct budget} : Async (list Move) :=
  fun w =>
    processChildren
      (match budget with
       | 0 => stackOverflow
       | S budget' =>
           fun folder' i' movePromises' inFlight' =>
             processFolderFrom budget' folder' pattern targetPath i' movePromises' inFlight'
       end)
      folder pattern targetPath
      (skipn i (childrenOf (vault w) folder)) i movePromises inFlight w.

(** [processFolder(folder, pattern, targetPath)]: the loop from the first
    child on, with an empty array and no move in flight.  When the walk
    returns, every move it has called has been settled, each being waited
    for by the [Promise.all] of the call that made it.  When it throws, the
    moves then in flight are settled by the host after the invocation, and
    are not part of what the invocation leaves. *)
Definition processFolder (folder : TAbstractFile) (pattern : RegExp)
    (targetPath : string) : Async unit :=
  processFolderFrom stack folder pattern targetPath 0 [] [] ;;; ret tt.

(** The target-folder block of [executeMoveRule]; [false] stands for the
    [return] in its catch clause. *)
Definition ensureTargetFolder (rule : MoveRule) : Async bool :=
  targetFolder <- vault_getAbstractFileByPath (targetPath rule) ;;
  match targetFolder with
  | Some _ => ret true
  | None =>
      tryCatch
        (vault_createFolder (targetPath rule) ;;; ret true)
        (fun error =>
           newNotice ("Failed to create target folder: " +++ targetPath rule) ;;;
           ret false)
  end.

Definition msgDisabled (rule : MoveRule) : string :=
  "Rule " +++ dquote +++ ruleName rule +++ dquote +++ " is disabled.".

Definition msgSourceNotFound (rule : MoveRule) : string :=
  "Source folder " +++ dquote +++ sourcePath rule +++ dquote +++ " not found.".

Definition msgInvalidRegExp (rule : MoveRule) : string :=
  "Invalid regular expression: " +++ filePattern rule.

(** [executeMoveRule], with the method [this.processFolder] it calls left
    open as [walk]. *)
Definition executeMoveRuleWith
    (walk : TAbstractFile -> RegExp -> string -> Async unit)
    (rule : MoveRule) : Async unit :=
  if negb (enabled rule) then newNotice (msgDisabled rule)
  else
    sourceFolder <- vault_getAbstractFileByPath (sourcePath rule) ;;
    match sourceFolder with
    | Some (TFolder _ _ _ as folder) =>
        ok <- ensureTargetFolder rule ;;
        if ok then
          tryCatch
            (regex <- compileRegExp (filePattern rule) ;;
             walk folder regex (targetPath rule))
            (fun error =>
               newNotice (msgInvalidRegExp rule) ;;;
               console_error error)
        else ret tt
    | _ => newNotice (msgSourceNotFound rule)
    end.

Definition executeMoveRule (rule : MoveRule) : Async unit :=
  executeMoveRuleWith processFolder rule.

End FileMoverPlugin.


(** ** Reading a trace and a tree *)

Definition isRename (e : Event) : bool :=
  match e with Rename _ _ _ => true | _ => false end.

Definition isCreateFolder (e : Event) : bool :=
  match e with CreateFolder _ => true | _ => false end.

(** The calls that can change the tree. *)
Definition mutations (tr : list Event) : list Event :=
  filter (fun e => isRename e || isCreateFolder e) tr.

(** The [moveFile] calls of a trace, as (from, to), in order. *)
Definition moveCalls (tr : list Event) : list (string * string) :=
  flat_map (fun e => match e with MoveFile f t => [(f, t)] | _ => [] end) tr.

(** The [vault.rename] calls of a trace that have been settled, as
    (from, to), in the order in which they were. *)
Definition renameCalls (tr : list Event) : list (string * string) :=
  flat_map (fun e => match e with Rename f t _ => [(f, t)] | _ => [] end) tr.

(** The source paths of the moves that succeeded, and of those that failed. *)
Definition movedFrom (tr : list Event) : list string :=
  flat_map (fun e => match e with Rename f _ true => [f] | _ => [] end) tr.

Definition failedFrom (tr : list Event) : list string :=
  flat_map (fun e => match e with Rename f _ false => [f] | _ => [] end) tr.

(** The [pattern.test] calls of a trace, as (file, subject), in order. *)
Definition patternTests (tr : list Event) : list (string * string) :=
  flat_map (fun e => match e with PatternTest f s => [(f, s)] | _ => [] end) tr.

(** The files at any depth below an entry, depth first and in the order of
    [children]. *)
Fixpoint descendantFiles (n : TAbstractFile) : list TAbstractFile :=
  match n with
  | TFile _ _ => [n]
  | TFolder _ _ cs => flat_map descendantFiles cs
  end.

(** The match set of a folder: the files below it whose base name passes the
    test. *)
Definition matchSet {RegExp : Type} (test : RegExp -> string -> bool)
    (pattern : RegExp) (folder : TAbstractFile) : list TAbstractFile :=
  filter (fun f => test pattern (name f)) (descendantFiles folder).

(** Whether a folder with path [p] is [n] or lies below it. *)
Fixpoint hasFolder (p : string) (n : TAbstractFile) : bool :=
  match n with
  | TFile _ _ => false
  | TFolder q _ cs => String.eqb q p || existsb (hasFolder p) cs
  end.

(** Names as the host derives them: the base name of the path. *)
Definition wfNames (folder : TAbstractFile) : Prop :=
  Forall (fun f => name f = basename (path f)) (descendantFiles folder).

(** [x] is a direct child of the folder that [p] resolves to. *)
Definition childOf (v : Vault) (p : string) (x : TAbstractFile) : Prop :=
  exists q n cs, getAbstractFileByPath v p = Some (TFolder q n cs) /\ In x cs.

(** ** A regular-expression engine for the examples

    A fragment of the JavaScript syntax: literal characters, [.], escaped
    characters, [^] in first position and [$] in last position.  Every other
    use of a special character, the unbalanced ["["] among them, is refused. *)
Module Fragment.

Inductive Atom : Type := Lit (c : ascii) | AnyChar.

Record RegExp : Type := mkRegExp {
  fromStart : bool;
  atoms : list Atom;
  toEnd : bool
}.

Definition special (c : ascii) : bool :=
  existsb (Ascii.eqb c) (list_ascii_of_string "[]()*+?{}|^$").

Definition backslash : ascii := ascii_of_nat 92.
Definition dollar : ascii := ascii_of_nat 36.
Definition dot : ascii := ascii_of_nat 46.
Definition caret : ascii := ascii_of_nat 94.

(** The atoms of a pattern, and whether it ends with [$]. *)
Fixpoint parseAtoms (s : string) : Error + (list Atom * bool) :=
  match s with
  | EmptyString => inr ([], false)
  | String c r =>
      if Ascii.eqb c backslash then
        match r with
        | EmptyString => inl "Invalid regular expression: \ at end of pattern"
        | String d r' =>
            match parseAtoms r' with
            | inr (l, e) => inr (Lit d :: l, e)
            | inl err => inl err
            end
        end
      else if Ascii.eqb c dollar then
        match r with
        | EmptyString => inr ([], true)
        | _ => inl "Invalid regular expression: outside the fragment"
        end
      else if special c then inl "Invalid regular expression: outside the fragment"
      else
        match parseAtoms r with
        | inr (l, e) => inr ((if Ascii.eqb c dot then AnyChar else Lit c) :: l, e)
        | inl err => inl err
        end
  end.

Definition newRegExp (s : string) : Error + RegExp :=
  match s with
  | String c r =>
      if Ascii.eqb c caret then
        match parseAtoms r with
        | inr (l, e) => inr (mkRegExp true l e)
        | inl err => inl err
        end
      else
        match parseAtoms s with
        | inr (l, e) => inr (mkRegExp false l e)
        | inl err => inl err
        end
  | EmptyString => inr (mkRegExp false [] false)
  end.

Definition atomMatches (a : Atom) (c : ascii) : bool :=
  match a with Lit d => Ascii.eqb d c | AnyChar => true end.

(** The atoms match a prefix of [s] (all of [s] when [toEnd]). *)
Fixpoint matchHere (l : list Atom) (toEnd : bool) (s : string) : bool :=
  match l with
  | [] => if toEnd then match s with EmptyString => true | _ => false end else true
  | a :: l' =>
      match s with
      | EmptyString => false
      | String c r => atomMatches a c && matchHere l' toEnd r
      end
  end.

(** The atoms match at some position of [s]: the unanchored search. *)
Fixpoint matchAnywhere (l : list Atom) (toEnd : bool) (s : string) : bool :=
  matchHere l toEnd s ||
  match s with
  | EmptyString => false
  | String _ r => matchAnywhere l toEnd r
  end.

Definition test (re : RegExp) (s : string) : bool :=
  if fromStart re then matchHere (atoms re) (toEnd re) s
  else matchAnywhere (atoms re) (toEnd re) s.

End Fragment.

(** ** Two hosts

    [inOrder] settles, at every [await], all the moves in flight, the oldest
    first.  [onlyAwaited] settles a move only when an [await] waits for it. *)
Definition inOrder : nat -> list Move -> list nat :=
  fun _ inFlight => map (fun _ => 0) inFlight.

Definition onlyAwaited : nat -> list Move -> list nat :=
  fun _ _ => [].

(** ** The walk as a run of actions

    What a walk does is a run of four kinds of actions: a [pattern.test], a
    call of [moveFile], the host settling a move in flight, an
    [await Promise.all] returning.  [performAll] is what a run does to the
    moves in flight and to the tree, and the events it leaves, computed
    without the monad. *)

Inductive Operation : Type :=
| Test (child : TAbstractFile)
| Call (child : TAbstractFile)
| Settle (i : nat)
| Return (movePromises : list string).

(** The entries of a tree, at any depth. *)
Fixpoint nodes (n : TAbstractFile) : list TAbstractFile :=
  n :: match n with
       | TFile _ _ => []
       | TFolder _ _ cs => flat_map nodes cs
       end.

Definition allNodes (v : Vault) : list TAbstractFile := flat_map nodes v.

(** The names of the files of a tree are the base names of their paths. *)
Definition namesFollowPaths (v : Vault) : Prop :=
  forall x, In x (allNodes v) -> isFolder x = false -> name x = basename (path x).

(** A tree as the host keeps it: the path of an entry resolves to that
    entry, and the name of a file is the base name of its path. *)
Definition wellFormed (v : Vault) : Prop :=
  forall x,
    In x (allNodes v) ->
    getAbstractFileByPath v (path x) = Some x /\
    (isFolder x = false -> name x = basename (path x)).

(** The number of folders of a tree: the entry itself, when it is a folder,
    and the folders below it. *)
Fixpoint folderCount (n : TAbstractFile) : nat :=
  match n with
  | TFile _ _ => 0
  | TFolder _ _ cs => S (list_sum (map folderCount cs))
  end.

(** The folders among the entries [cs] from the index [i] on, and below
    them. *)
Definition foldersFrom (i : nat) (cs : list TAbstractFile) : nat :=
  list_sum (map folderCount (skipn i cs)).

Section Effects.

Variable RegExp : Type.
Variable test : RegExp -> string -> bool.
Variable settings : FileMoverSettings.
Variable pattern : RegExp.
Variable targetPath : string.

(** The events of one [moveFile] and the tree it leaves. *)
Definition moveEffect (child : TAbstractFile) (newPath : string) (v : Vault)
  : list Event * Vault :=
  match rename v child newPath with
  | inr (child', v') =>
      (Rename (path child) newPath true ::
       (if showMoveNotification settings
        then [Notice ("Moved file: " +++ path child' +++ " -> " +++ newPath)]
        else []) ++
       [ConsoleLog ("Moved file: " +++ path child' +++ " -> " +++ newPath)],
       v')
  | inl error =>
      ([Rename (path child) newPath false;
        ConsoleError ("Failed to move file: " +++ path child +++ " " +++ error);
        Notice ("Failed to move file: " +++ path child)],
       v)
  end.

(** What [moveFileResumed] leaves for a move in flight. *)
Definition settled (m : Move) (w : World) : World :=
  let (tr, v') := moveEffect (moving m) (toPath m) (vault w) in
  mkWorld v' (trace w ++ tr).

Definition perform (a : Operation) (st : list Move * Vault)
  : list Event * (list Move * Vault) :=
  match a with
  | Test child => ([PatternTest (path child) (name child)], st)
  | Call child =>
      let newPath := targetPath +++ "/" +++ name child in
      ([MoveFile (path child) newPath], (fst st ++ [mkMove child newPath], snd st))
  | Settle i =>
      match nth_error (fst st) i with
      | Some m =>
          let (tr, v') := moveEffect (moving m) (toPath m) (snd st) in
          (tr, (firstn i (fst st) ++ skipn (S i) (fst st), v'))
      | None => ([], st)
      end
  | Return movePromises => ([AwaitAll movePromises], st)
  end.

Fixpoint performAll (acts : list Operation) (st : list Move * Vault)
  : list Event * (list Move * Vault) :=
  match acts with
  | [] => ([], st)
  | a :: rest =>
      let (tr, st') := perform a st in
      let (tr', st'') := performAll rest st' in
      (tr ++ tr', st'')
  end.

(** A test is made for a file that the tree has when it is made, and a call
    for such a file whose name passes the test. *)
Definition permitted (a : Operation) (st : list Move * Vault) : Prop :=
  match a with
  | Test child => In child (allNodes (snd st)) /\ isFolder child = false
  | Call child =>
      In child (allNodes (snd st)) /\ isFolder child = false /\
      test pattern (name child) = true
  | _ => True
  end.

Fixpoint allowed (acts : list Operation) (st : list Move * Vault) : Prop :=
  match acts with
  | [] => True
  | a :: rest => permitted a st /\ allowed rest (snd (perform a st))
  end.

(** The walk result [r], obtained from the moves [q] in flight and the world
    [w], is what the run [acts] leaves. *)
Definition runOf (acts : list Operation) (q : list Move) (w : World)
    (r : Completion (list Move) * World) : Prop :=
  allowed acts (q, vault w) /\
  snd r = mkWorld (snd (snd (performAll acts (q, vault w))))
            (trace w ++ fst (performAll acts (q, vault w))) /\
  (forall q', fst r = Normal q' -> q' = fst (snd (performAll acts (q, vault w)))).

(** A move made by the walk: a file under the name the host derives, to the
    target joined with that name, the name passing the test. *)
Definition walkMove (m : Move) : Prop :=
  isFolder (moving m) = false /\
  name (moving m) = basename (path (moving m)) /\
  toPath m = targetPath +++ "/" +++ name (moving m) /\
  test pattern (name (moving m)) = true.

End Effects.

(** A move in flight, as the call that made it. *)
Definition callOf (m : Move) : string * string := (path (moving m), toPath m).

(** ** The target-folder block, computed

    What [ensureTargetFolder] leaves: whether the invocation goes on, and the
    world. *)
Definition targetFolderOutcome (rule : MoveRule) (w : World) : bool * World :=
  match getAbstractFileByPath (vault w) (targetPath rule) with
  | Some _ => (true, w)
  | None =>
      match createFolder (vault w) (targetPath rule) with
      | inr v' => (true, mkWorld v' (trace w ++ [CreateFolder (targetPath rule)]))
      | inl _ =>
          (false,
           mkWorld (vault w)
             (trace w ++ [CreateFolder (targetPath rule);
                          Notice ("Failed to create target folder: " +++ targetPath rule)]))
      end
  end.


(** ** Awaiting, read off a trace *)

Definition isMoveFile (e : Event) : bool :=
  match e with MoveFile _ _ => true | _ => false end.

Definition awaits (f : string) (e : Event) : bool :=
  match e with
  | AwaitAll ps => existsb (String.eqb f) ps
  | _ => false
  end.

(** Every rename that is settled in the trace is followed, later in the
    trace, by the return of a [Promise.all] that waited for it; the moves of
    the files at the paths [others] apart. *)
Fixpoint everyMoveAwaitedBut (others : list string) (tr : list Event) : bool :=
  match tr with
  | [] => true
  | Rename f _ _ :: rest =>
      (existsb (awaits f) rest || existsb (String.eqb f) others)
      && everyMoveAwaitedBut others rest
  | _ :: rest => everyMoveAwaitedBut others rest
  end.

Definition everyMoveAwaited (tr : list Event) : bool := everyMoveAwaitedBut [] tr.

(** No [moveFile] is called once a rename has been settled: all the moves
    of the trace are in flight together. *)
Fixpoint noCallAfterSettle (tr : list Event) : bool :=
  match tr with
  | [] => true
  | Rename _ _ _ :: rest => forallb (fun e => negb (isMoveFile e)) rest
  | _ :: rest => noCallAfterSettle rest
  end.

(** No [moveFile] is called after the return of a [Promise.all] that waited
    for some move. *)
Fixpoint noMoveIssuedAfterAwait (tr : list Event) : bool :=
  match tr with
  | [] => true
  | AwaitAll (_ :: _) :: rest => forallb (fun e => negb (isMoveFile e)) rest
  | _ :: rest => noMoveIssuedAfterAwait rest
  end.

(** All moves of the trace are issued together and awaited afterwards. *)
Definition allMovesConcurrent (tr : list Event) : bool :=
  noMoveIssuedAfterAwait tr && everyMoveAwaited tr.

(** ** Reading an invocation *)

(** An invocation started from the tree [v] with an empty trace has left the
    tree untouched: the tree is [v] and no call that can change it was made. *)
Definition leavesTreeUntouched (v : Vault) (r : Completion unit * World) : Prop :=
  vault (snd r) = v /\ mutations (trace (snd r)) = [].

(** [f] is in the folder at [t] under its own name: the path [t/name] resolves
    to a file of that name, which is a direct child of the folder. *)
Definition landedIn (v : Vault) (t : string) (f : TAbstractFile) : Prop :=
  getAbstractFileByPath v (t +++ "/" +++ name f)
  = Some (TFile (t +++ "/" +++ name f) (name f)) /\
  childOf v t (TFile (t +++ "/" +++ name f) (name f)).

(** Every file of the match set of [source] has been moved into the folder
    at [t]: it is there under its own name and is no longer at the path it
    had. *)
Definition everyMatchMoved {RegExp : Type} (test : RegExp -> string -> bool)
    (regex : RegExp) (source : TAbstractFile) (t : string) (v : Vault) : Prop :=
  forall f,
    In f (matchSet test regex source) ->
    landedIn v t f /\
    (path f <> t +++ "/" +++ name f -> getAbstractFileByPath v (path f) = None).

(** Every rename settled in the trace is followed at once by the report of
    its own outcome: for a move that succeeded the notice (when notices are
    shown) and the log line, for a move that failed the error line and the
    notice, both naming the file. *)
Fixpoint reportsFollow (show : bool) (tr : list Event) : Prop :=
  match tr with
  | [] => True
  | Rename from to ok :: rest =>
      (if ok
       then exists rest',
           rest = (if show
                   then [Notice ("Moved file: " +++ to +++ " -> " +++ to)]
                   else []) ++
                  ConsoleLog ("Moved file: " +++ to +++ " -> " +++ to) :: rest'
       else exists error rest',
           rest = ConsoleError ("Failed to move file: " +++ from +++ " " +++ error) ::
                  Notice ("Failed to move file: " +++ from) :: rest')
      /\ reportsFollow show rest
  | _ :: rest => reportsFollow show rest
  end.

(** ** More readings of a trace *)

(** The messages of the notices of a trace, in order. *)
Definition notices (tr : list Event) : list string :=
  flat_map (fun e => match e with Notice msg => [msg] | _ => [] end) tr.

(** The lines written to the console, by [console.log] or [console.error]. *)
Definition consoleLines (tr : list Event) : list string :=
  flat_map (fun e => match e with
                     | ConsoleLog msg => [msg]
                     | ConsoleError msg => [msg]
                     | _ => []
                     end) tr.

(** The destinations of the moves that succeeded. *)
Definition movedTo (tr : list Event) : list string :=
  flat_map (fun e => match e with Rename _ t true => [t] | _ => [] end) tr.

(** The promises waited for, over all the [Promise.all] of a trace. *)
Definition awaited (tr : list Event) : list string :=
  flat_map (fun e => match e with AwaitAll ps => ps | _ => [] end) tr.

(** The events of a walk that leave nothing behind: tests and joins. *)
Definition isSilent (e : Event) : bool :=
  match e with
  | PatternTest _ _ => true
  | AwaitAll _ => true
  | _ => false
  end.

Definition isNotice (e : Event) : bool :=
  match e with Notice _ => true | _ => false end.

(** A trace with its notices left out. *)
Definition withoutNotices (tr : list Event) : list Event :=
  filter (fun e => negb (isNotice e)) tr.

(** ** Sample data *)

Module Sample.

(** An invocation on the tree [v], by a host that settles the moves in
    order and as soon as it can, with room for sixteen folders. *)
Definition run (settings : FileMoverSettings) (rule : MoveRule) (v : Vault)
  : Completion unit * World :=
  executeMoveRule Fragment.newRegExp Fragment.test settings inOrder 16 rule (mkWorld v []).

(** The same, by a host of one's choice. *)
Definition runBy (host : nat -> list Move -> list nat) (stack : nat)
    (settings : FileMoverSettings) (rule : MoveRule) (v : Vault)
  : Completion unit * World :=
  executeMoveRule Fragment.newRegExp Fragment.test settings host stack rule (mkWorld v []).

(** The tree of the spec's example. *)
Definition inbox : Vault :=
  [TFolder "Inbox" "Inbox"
     [TFile "Inbox/a.pdf" "a.pdf";
      TFile "Inbox/b.txt" "b.txt";
      TFolder "Inbox/Archive" "Archive" [TFile "Inbox/Archive/c.pdf" "c.pdf"]]].

(** The rule of the spec's example: the target is below the source. *)
Definition pdfRule : MoveRule :=
  mkRule "1" "PDFs" "Inbox" "\.pdf$" "Inbox/PDFs" true.

Definition disabledRule : MoveRule :=
  mkRule "2" "Off" "Inbox" "\.pdf$" "Inbox/PDFs" false.

(** A rule whose source path is a file. *)
Definition fileSourceRule : MoveRule :=
  mkRule "3" "File source" "Inbox/b.txt" "\.pdf$" "Out" true.

(** A rule whose pattern does not compile. *)
Definition bracketRule : MoveRule :=
  mkRule "4" "Bracket" "Inbox" "[" "Inbox/PDFs" true.

(** A matching file in a subfolder, listed before a matching file of the
    folder itself; an empty folder [Out] to move them to. *)
Definition nested : Vault :=
  [TFolder "Inbox" "Inbox"
     [TFolder "Inbox/Archive" "Archive" [TFile "Inbox/Archive/c.pdf" "c.pdf"];
      TFile "Inbox/a.pdf" "a.pdf"];
   TFolder "Out" "Out" []].

Definition outRule : MoveRule :=
  mkRule "5" "Out" "Inbox" "\.pdf$" "Out" true.

(** A tree in which the target path is a plain file. *)
Definition targetIsFile : Vault :=
  [TFolder "Inbox" "Inbox" [TFile "Inbox/a.pdf" "a.pdf"];
   TFile "Out" "Out"].

(** Two matching files of the same name at different depths. *)
Definition twins : Vault :=
  [TFolder "Inbox" "Inbox"
     [TFile "Inbox/a.pdf" "a.pdf";
      TFolder "Inbox/Sub" "Sub" [TFile "Inbox/Sub/a.pdf" "a.pdf"]];
   TFolder "Out" "Out" []].

(** A matching file, then a subfolder with a matching file, then a matching
    file again. *)
Definition around : Vault :=
  [TFolder "Inbox" "Inbox"
     [TFile "Inbox/a.pdf" "a.pdf";
      TFolder "Inbox/Sub" "Sub" [TFile "Inbox/Sub/c.pdf" "c.pdf"];
      TFile "Inbox/b.pdf" "b.pdf"];
   TFolder "Out" "Out" []].

(** The pattern of [pdfRule] and [outRule], compiled. *)
Definition pdfRegExp : Fragment.RegExp :=
  Fragment.mkRegExp false
    [Fragment.Lit "."; Fragment.Lit "p"; Fragment.Lit "d"; Fragment.Lit "f"] true.

(** A walk that throws. *)
Definition overflowingWalk (folder : TAbstractFile) (regex : Fragment.RegExp)
    (targetPath : string) : Async unit :=
  throw "RangeError: Maximum call stack size exceeded".

End Sample.

(** ** More sample data *)

Module Sample2.

(** A rule whose target cannot be created: the folder it would be created in
    does not exist. *)
Definition orphanTargetRule : MoveRule :=
  mkRule "6" "Orphan" "Inbox" "\.pdf$" "Missing/Out" true.

(** Two matching files of the same name, the second in a subfolder, and a
    third matching file after the subfolder. *)
Definition twinsAround : Vault :=
  [TFolder "Inbox" "Inbox"
     [TFile "Inbox/a.pdf" "a.pdf";
      TFolder "Inbox/Sub" "Sub" [TFile "Inbox/Sub/a.pdf" "a.pdf"];
      TFile "Inbox/b.pdf" "b.pdf"];
   TFolder "Out" "Out" []].

End Sample2.

(** ** The plugin in its host

    The part of [FileMoverPlugin] around the rule runner: the settings and
    their stored copy, what [onload] registers, the command callbacks, the
    [modify] listener and the handlers of the settings tab.

    The host is read as follows.  [loadData] gives the stored object, or
    [null] when nothing is stored; the object holds values of the right type
    under the keys it has.  [saveData] stores a copy of what it is given and
    does not fail.  [registerEvent], [addCommand] and [addSettingTab] record
    what they are given; nothing the plugin does removes a registration.
    An [async] function that is called and not awaited ([onload], in
    [saveSettings]) is taken to run to its end where it is called. *)
Module Lifecycle.

(** The stored object, with the keys it has. *)
Record Data : Type := mkData {
  rulesKey : option (list MoveRule);
  showMoveNotificationKey : option bool
}.

(** What [addCommand] is given, its callback apart. *)
Record Command : Type := mkCommand {
  commandId : string;
  commandName : string
}.

Record Plugin : Type := mkPlugin {
  settings : FileMoverSettings;
  isCommandExecuting : bool;
  defaultRules : list MoveRule;   (* the array [DEFAULT_SETTINGS.rules] *)
  sharesDefaultRules : bool;      (* [settings.rules] is that array *)
  data : option Data;             (* what [loadData] gives *)
  modifyListeners : nat;          (* the listeners registered for [modify] *)
  commands : list Command;        (* the calls of [addCommand], in order *)
  settingTabs : nat;              (* the calls of [addSettingTab] *)
  app : World
}.

(** The plugin as constructed: [settings] is not yet set, and is not read
    before [loadSettings] sets it. *)
Definition construct (stored : option Data) (w : World) : Plugin :=
  mkPlugin DEFAULT_SETTINGS false (rules DEFAULT_SETTINGS) false stored 0 [] 0 w.

Definition setSettings (s : FileMoverSettings) (shared : bool) (p : Plugin) : Plugin :=
  mkPlugin s (isCommandExecuting p) (defaultRules p) shared (data p)
    (modifyListeners p) (commands p) (settingTabs p) (app p).

Definition setExecuting (b : bool) (p : Plugin) : Plugin :=
  mkPlugin (settings p) b (defaultRules p) (sharesDefaultRules p) (data p)
    (modifyListeners p) (commands p) (settingTabs p) (app p).

Definition setData (d : option Data) (p : Plugin) : Plugin :=
  mkPlugin (settings p) (isCommandExecuting p) (defaultRules p) (sharesDefaultRules p) d
    (modifyListeners p) (commands p) (settingTabs p) (app p).

Definition setApp (w : World) (p : Plugin) : Plugin :=
  mkPlugin (settings p) (isCommandExecuting p) (defaultRules p) (sharesDefaultRules p)
    (data p) (modifyListeners p) (commands p) (settingTabs p) w.

Definition registerEvent (p : Plugin) : Plugin :=
  mkPlugin (settings p) (isCommandExecuting p) (defaultRules p) (sharesDefaultRules p)
    (data p) (S (modifyListeners p)) (commands p) (settingTabs p) (app p).

Definition addCommand (c : Command) (p : Plugin) : Plugin :=
  mkPlugin (settings p) (isCommandExecuting p) (defaultRules p) (sharesDefaultRules p)
    (data p) (modifyListeners p) (commands p ++ [c]) (settingTabs p) (app p).

Definition addSettingTab (p : Plugin) : Plugin :=
  mkPlugin (settings p) (isCommandExecuting p) (defaultRules p) (sharesDefaultRules p)
    (data p) (modifyListeners p) (commands p) (S (settingTabs p)) (app p).

(** [this.settings = Object.assign({}, DEFAULT_SETTINGS, await this.loadData())]:
    a key of the stored object wins over the default; a key it does not have
    leaves the default, which for [rules] is the array of [DEFAULT_SETTINGS]
    itself and not a copy of it. *)
Definition loadSettings (p : Plugin) : Plugin :=
  let show :=
    match data p with
    | Some (mkData _ (Some b)) => b
    | _ => showMoveNotification DEFAULT_SETTINGS
    end in
  match data p with
  | Some (mkData (Some rs) _) => setSettings (mkSettings rs show) false p
  | _ => setSettings (mkSettings (defaultRules p) show) true p
  end.

Definition saveData (p : Plugin) : Plugin :=
  setData (Some (mkData (Some (rules (settings p)))
                        (Some (showMoveNotification (settings p))))) p.

(** The command [onload] adds for a rule. *)
Definition commandOf (rule : MoveRule) : Command :=
  mkCommand ("execute-move-rule-" +++ id rule) ("Execute Move Rule: " +++ ruleName rule).

Definition onload (p : Plugin) : Plugin :=
  let p := loadSettings p in
  let p := registerEvent p in
  let p := fold_left (fun p rule => addCommand (commandOf rule) p) (rules (settings p)) p in
  addSettingTab p.

Definition saveSettings (p : Plugin) : Plugin := onload (saveData p).

(** The listener [onload] registers for [modify]. *)
Definition modifyListener (file : TAbstractFile) (p : Plugin) : Plugin :=
  if isCommandExecuting p && showMoveNotification (settings p)
  then setApp (snd (newNotice ("File moved: " +++ path file) (app p))) p
  else p.

(** The vault reports that [file] was modified: every listener is called. *)
Definition trigger_modify (file : TAbstractFile) (p : Plugin) : Plugin :=
  Nat.iter (modifyListeners p) (modifyListener file) p.

(** The stored data is removed from outside the plugin. *)
Definition dataRemoved (p : Plugin) : Plugin := setData None p.

(** *** The handlers of the settings tab *)

(** A change made through [this.plugin.settings.rules]: it is made to the
    array of [DEFAULT_SETTINGS] when that is the array of the settings. *)
Definition updateRules (f : list MoveRule -> list MoveRule) (p : Plugin) : Plugin :=
  mkPlugin (mkSettings (f (rules (settings p))) (showMoveNotification (settings p)))
    (isCommandExecuting p)
    (if sharesDefaultRules p then f (rules (settings p)) else defaultRules p)
    (sharesDefaultRules p) (data p) (modifyListeners p) (commands p) (settingTabs p) (app p).

(** The toggle of the notices. *)
Definition onChangeShowMoveNotification (value : bool) (p : Plugin) : Plugin :=
  saveSettings
    (setSettings (mkSettings (rules (settings p)) value) (sharesDefaultRules p) p).

(** The five controls of a rule, by the field they assign. *)
Inductive Assignment : Type :=
| SetName (value : string)
| SetSourcePath (value : string)
| SetFilePattern (value : string)
| SetTargetPath (value : string)
| SetEnabled (value : bool).

Definition assign (a : Assignment) (rule : MoveRule) : MoveRule :=
  match a with
  | SetName value =>
      mkRule (id rule) value (sourcePath rule) (filePattern rule) (targetPath rule)
        (enabled rule)
  | SetSourcePath value =>
      mkRule (id rule) (ruleName rule) value (filePattern rule) (targetPath rule)
        (enabled rule)
  | SetFilePattern value =>
      mkRule (id rule) (ruleName rule) (sourcePath rule) value (targetPath rule)
        (enabled rule)
  | SetTargetPath value =>
      mkRule (id rule) (ruleName rule) (sourcePath rule) (filePattern rule) value
        (enabled rule)
  | SetEnabled value =>
      mkRule (id rule) (ruleName rule) (sourcePath rule) (filePattern rule)
        (targetPath rule) value
  end.

Fixpoint updateAt (index : nat) (f : MoveRule -> MoveRule) (rs : list MoveRule)
  : list MoveRule :=
  match rs, index with
  | [], _ => []
  | rule :: rest, 0 => f rule :: rest
  | rule :: rest, S index => rule :: updateAt index f rest
  end.

(** [this.plugin.settings.rules[index].field = value] and the save: with no
    rule at [index] the assignment throws and nothing is saved. *)
Definition onChange (a : Assignment) (index : nat) (p : Plugin) : Error + Plugin :=
  match nth_error (rules (settings p)) index with
  | None => inl "TypeError: Cannot set properties of undefined"
  | Some _ => inr (saveSettings (updateRules (updateAt index (assign a)) p))
  end.

(** [rules.splice(index, 1)]: with no rule at [index] nothing is removed. *)
Definition splice (index : nat) (rs : list MoveRule) : list MoveRule :=
  firstn index rs ++ skipn (S index) rs.

Definition onClickDelete (index : nat) (p : Plugin) : Plugin :=
  saveSettings (updateRules (splice index) p).

(** The rule of the button [Add Rule]; [now] is [String(Date.now())]. *)
Definition newRule (now : string) : MoveRule :=
  mkRule now "New Rule" EmptyString EmptyString EmptyString true.

Definition onClickAdd (now : string) (p : Plugin) : Plugin :=
  saveSettings (updateRules (fun rs => rs ++ [newRule now]) p).

(** What the user does in the settings tab, and the handler that runs. *)
Inductive Action : Type :=
| Toggle (value : bool)
| Change (a : Assignment) (index : nat)
| Delete (index : nat)
| Add (now : string).

Definition handle (act : Action) (p : Plugin) : Error + Plugin :=
  match act with
  | Toggle value => inr (onChangeShowMoveNotification value p)
  | Change a index => onChange a index p
  | Delete index => inr (onClickDelete index p)
  | Add now => inr (onClickAdd now p)
  end.

(** One action after the other; a handler that throws leaves the plugin as
    it was. *)
Fixpoint handleAll (acts : list Action) (p : Plugin) : Plugin :=
  match acts with
  | [] => p
  | act :: rest =>
      match handle act p with
      | inr p' => handleAll rest p'
      | inl _ => handleAll rest p
      end
  end.

Section Commands.

Variable RegExp : Type.
Variable newRegExp : string -> Error + RegExp.
Variable test : RegExp -> string -> bool.
Variable host : nat -> list Move -> list nat.
Variable stack : nat.

(** The callback of the command added for [rule]. *)
Definition callback (rule : MoveRule) (p : Plugin) : Completion unit * Plugin :=
  let p := setExecuting true p in
  match executeMoveRule newRegExp test (settings p) host stack rule (app p) with
  | (Normal _, w) => (Normal tt, setExecuting false (setApp w p))
  | (Abrupt e, w) => (Abrupt e, setApp w p)
  end.

End Commands.

End Lifecycle.

(** * Proofs *)

Unset Implicit Arguments.

(** ** The monad *)

Lemma bind_assoc_at {A B C : Type} (m : Async A) (k : A -> Async B) (h : B -> Async C) (w : World) :
  bind (bind m k) h w = bind m (fun a => bind (k a) h) w.
Proof.
  unfold bind. destruct (m w) as [[a | e] w']; [ | reflexivity ].
  reflexivity.
Qed.

Lemma bind_ext_at {A B : Type} (m : Async A) (k k' : A -> Async B) (w : World) :
  (forall a w', k a w' = k' a w') -> bind m k w = bind m k' w.
Proof.
  intros E. unfold bind. destruct (m w) as [[a | e] w']; [ apply E | reflexivity ].
Qed.

(** ** The host's tree *)

Lemma getAbstractFileByPath_root (v : Vault) (p : string) :
  getAbstractFileByPath v p = findNode p (root v).
Proof.
  unfold getAbstractFileByPath, root. cbn [findNode path].
  rewrite (String.eqb_sym rootPath p). reflexivity.
Qed.

Lemma pruneVault_root (p : string) (v : Vault) :
  prune p (root v) = root (pruneVault p v).
Proof. reflexivity. Qed.

Lemma graftVault_root (par : string) (x : TAbstractFile) (v : Vault) :
  graft par x (root v) = root (graftVault par x v).
Proof.
  unfold root, graftVault. cbn [graft]. rewrite (String.eqb_sym rootPath par). reflexivity.
Qed.

Lemma findNode_path (p : string) (n m : TAbstractFile) :
  findNode p n = Some m -> path m = p.
Proof.
  revert m. induction n as [q nm | q nm cs IH] using TAbstractFile_forall_ind; intros m; simpl.
  - destruct (String.eqb_spec q p); [ | discriminate ].
    intros [= <-]. simpl. assumption.
  - destruct (String.eqb_spec q p).
    + intros [= <-]. simpl. assumption.
    + induction IH as [ | c cs Hc _ IHcs]; simpl; [ discriminate | ].
      destruct (findNode p c) eqn:E.
      * intros [= <-]. apply Hc. reflexivity.
      * apply IHcs.
Qed.

Lemma firstSome_app {A B : Type} (f : A -> option B) (l l' : list A) :
  firstSome f (l ++ l') =
  match firstSome f l with Some b => Some b | None => firstSome f l' end.
Proof.
  induction l as [ | a l IH]; simpl; [ reflexivity | ].
  destruct (f a); [ reflexivity | apply IH ].
Qed.

Lemma firstSome_map {A B C : Type} (g : A -> B) (f : B -> option C) (l : list A) :
  firstSome f (map g l) = firstSome (fun a => f (g a)) l.
Proof.
  induction l as [ | a l IH]; simpl; [ reflexivity | ].
  rewrite IH. reflexivity.
Qed.

Lemma firstSome_ext_Forall {A B : Type} (f g : A -> option B) (l : list A) :
  Forall (fun a => f a = g a) l -> firstSome f l = firstSome g l.
Proof.
  induction 1 as [ | a l E _ IH]; simpl; [ reflexivity | ].
  rewrite E, IH. reflexivity.
Qed.

Lemma firstSome_filter_none {A B : Type} (keep : A -> bool) (f : A -> option B) (l : list A) :
  (forall a, keep a = false -> f a = None) ->
  firstSome f (filter keep l) = firstSome f l.
Proof.
  intros H. induction l as [ | a l IH]; simpl; [ reflexivity | ].
  destruct (keep a) eqn:K; simpl.
  - rewrite IH. reflexivity.
  - rewrite (H a K). apply IH.
Qed.

Lemma firstSome_option_map {A B : Type} (g : B -> B) (f : A -> option B) (l : list A) :
  firstSome (fun a => option_map g (f a)) l = option_map g (firstSome f l).
Proof.
  induction l as [ | a l IH]; simpl; [ reflexivity | ].
  destruct (f a); simpl; [ reflexivity | apply IH ].
Qed.

(** Looking up a path other than the pruned one commutes with pruning. *)
Lemma findNode_prune (p q : string) (n : TAbstractFile) :
  q <> p -> findNode q (prune p n) = option_map (prune p) (findNode q n).
Proof.
  intros Hqp. induction n as [r nm | r nm cs IH] using TAbstractFile_forall_ind; simpl.
  - destruct (String.eqb r q); reflexivity.
  - destruct (String.eqb r q); [ reflexivity | ].
    rewrite firstSome_filter_none.
    + rewrite firstSome_map, <- firstSome_option_map.
      apply firstSome_ext_Forall. exact IH.
    + intros [r' nm' | r' nm' cs']; simpl; [ | discriminate ].
      destruct (String.eqb_spec r' p); [ | discriminate ].
      intros _. subst r'. destruct (String.eqb_spec p q); [ | reflexivity ].
      congruence.
Qed.

(** Looking up a path that the grafted entry does not hold commutes with
    grafting. *)
Lemma findNode_graft (par q : string) (x n : TAbstractFile) :
  findNode q x = None ->
  findNode q (graft par x n) = option_map (graft par x) (findNode q n).
Proof.
  intros Hx. induction n as [r nm | r nm cs IH] using TAbstractFile_forall_ind; simpl.
  - destruct (String.eqb r q); reflexivity.
  - destruct (String.eqb r q); [ reflexivity | ].
    assert (E : firstSome (findNode q) (map (graft par x) cs)
                = option_map (graft par x) (firstSome (findNode q) cs)).
    { rewrite firstSome_map, <- firstSome_option_map.
      apply firstSome_ext_Forall. exact IH. }
    destruct (String.eqb r par); [ | exact E ].
    rewrite firstSome_app, E. simpl. rewrite Hx.
    destruct (firstSome (findNode q) cs); reflexivity.
Qed.

Lemma hasFolder_findNode (p : string) (n : TAbstractFile) q nm cs :
  findNode p n = Some (TFolder q nm cs) -> hasFolder p n = true.
Proof.
  induction n as [r m | r m ds IH] using TAbstractFile_forall_ind; simpl.
  - destruct (String.eqb r p); discriminate.
  - destruct (String.eqb r p); [ reflexivity | ]. simpl.
    induction IH as [ | d ds Hd _ IHds]; simpl; [ discriminate | ].
    destruct (findNode p d) eqn:E.
    + intros [= ->]. rewrite Hd; reflexivity.
    + intros H. rewrite (IHds H). apply orb_true_r.
Qed.

(** Where nothing is at the path of [x], grafting [x] makes it the entry
    found there, provided the folder it is grafted in exists. *)
Lemma findNode_graft_new (par : string) (x n : TAbstractFile) :
  findNode (path x) n = None ->
  findNode (path x) (graft par x n) = if hasFolder par n then Some x else None.
Proof.
  assert (Hx : findNode (path x) x = Some x).
  { destruct x; simpl; rewrite String.eqb_refl; reflexivity. }
  induction n as [r nm | r nm cs IH] using TAbstractFile_forall_ind; simpl.
  - destruct (String.eqb r (path x)); [ discriminate | reflexivity ].
  - destruct (String.eqb r (path x)); [ discriminate | ].
    intros Hnone.
    assert (E : firstSome (findNode (path x)) (map (graft par x) cs)
                = if existsb (hasFolder par) cs then Some x else None).
    { clear -IH Hnone. induction IH as [ | c cs Hc _ IHcs]; simpl in *; [ reflexivity | ].
      destruct (findNode (path x) c) eqn:Ec; [ discriminate | ].
      rewrite (Hc eq_refl).
      destruct (hasFolder par c); simpl; [ reflexivity | ].
      apply IHcs. assumption. }
    destruct (String.eqb r par); simpl.
    + rewrite firstSome_app, E. simpl. rewrite Hx.
      destruct (existsb (hasFolder par) cs); reflexivity.
    + exact E.
Qed.

(** ** The vault's operations *)

Lemma resolve_pruneVault (p q : string) (v : Vault) :
  q <> p ->
  getAbstractFileByPath (pruneVault p v) q = option_map (prune p) (getAbstractFileByPath v q).
Proof.
  intros H. rewrite !getAbstractFileByPath_root, <- pruneVault_root.
  apply findNode_prune. assumption.
Qed.

Lemma resolve_graftVault (par q : string) (x : TAbstractFile) (v : Vault) :
  findNode q x = None ->
  getAbstractFileByPath (graftVault par x v) q
  = option_map (graft par x) (getAbstractFileByPath v q).
Proof.
  intros H. rewrite !getAbstractFileByPath_root, <- graftVault_root.
  apply findNode_graft. assumption.
Qed.

Lemma resolve_graftVault_new (par : string) (x : TAbstractFile) (v : Vault) q nm cs :
  getAbstractFileByPath v (path x) = None ->
  getAbstractFileByPath v par = Some (TFolder q nm cs) ->
  getAbstractFileByPath (graftVault par x v) (path x) = Some x.
Proof.
  rewrite !getAbstractFileByPath_root, <- graftVault_root.
  intros Hnone Hpar. rewrite (findNode_graft_new par x (root v) Hnone).
  rewrite (hasFolder_findNode _ _ _ _ _ Hpar). reflexivity.
Qed.

Lemma parentIsFolder_true (v : Vault) (p : string) :
  parentIsFolder v p = true ->
  exists nm cs, getAbstractFileByPath v (parentPath p) = Some (TFolder (parentPath p) nm cs).
Proof.
  unfold parentIsFolder.
  destruct (getAbstractFileByPath v (parentPath p)) as [[q nm | q nm cs] | ] eqn:E;
    try discriminate.
  intros _. exists nm, cs.
  rewrite getAbstractFileByPath_root in E. apply findNode_path in E. simpl in E.
  subst q. reflexivity.
Qed.

(** What a successful [rename] has checked and done. *)
Lemma rename_inr (v : Vault) (f : TAbstractFile) (np : string) f' v' :
  rename v f np = inr (f', v') ->
  exists nm q m,
    f = TFile (path f) nm /\
    getAbstractFileByPath v (path f) = Some (TFile q m) /\
    getAbstractFileByPath v np = None /\
    parentIsFolder v np = true /\
    f' = TFile np (basename np) /\
    v' = graftVault (parentPath np) f' (pruneVault (path f) v).
Proof.
  unfold rename. destruct f as [p nm | p nm cs]; [ | discriminate ]. simpl.
  destruct (getAbstractFileByPath v p) as [[q m | q m cs] | ] eqn:Ep; try discriminate.
  destruct (getAbstractFileByPath v np) eqn:Enp; [ discriminate | ].
  destruct (parentIsFolder v np) eqn:Epar; [ | discriminate ].
  intros [= <- <-]. exists nm, q, m. repeat split; reflexivity.
Qed.

(** A failed [rename] leaves no choice of tree: there is none returned. *)
Lemma rename_path_of_result (v : Vault) (f : TAbstractFile) (np : string) f' v' :
  rename v f np = inr (f', v') -> path f' = np.
Proof.
  intros H. apply rename_inr in H as (nm & q & m & _ & _ & _ & _ & -> & _). reflexivity.
Qed.

Lemma findNode_file_other (q p nm : string) :
  q <> p -> findNode q (TFile p nm) = None.
Proof.
  intros H. simpl. destruct (String.eqb_spec p q); [ congruence | reflexivity ].
Qed.

(** Frame: an entry at a path other than the two paths of a successful move
    is still there afterwards, up to the change made below it. *)
Lemma rename_resolve_other (v : Vault) (f : TAbstractFile) (np : string) f' v' q n :
  rename v f np = inr (f', v') ->
  q <> path f ->
  getAbstractFileByPath v q = Some n ->
  getAbstractFileByPath v' q
  = Some (graft (parentPath np) f' (prune (path f) n)).
Proof.
  intros H Hq Hn.
  apply rename_inr in H as (nm & a & m & _ & _ & Hnp & _ & -> & ->).
  rewrite resolve_graftVault.
  - rewrite resolve_pruneVault by assumption. rewrite Hn. reflexivity.
  - apply findNode_file_other. intros ->. congruence.
Qed.

Lemma rename_resolve_file (v : Vault) (f : TAbstractFile) (np : string) f' v' q a m :
  rename v f np = inr (f', v') ->
  q <> path f ->
  getAbstractFileByPath v q = Some (TFile a m) ->
  getAbstractFileByPath v' q = Some (TFile a m).
Proof.
  intros H Hq Hn. rewrite (rename_resolve_other _ _ _ _ _ _ _ H Hq Hn). reflexivity.
Qed.

(** Arrival: after a successful move the new path resolves to the file. *)
Lemma rename_resolve_new (v : Vault) (f : TAbstractFile) (np : string) f' v' :
  rename v f np = inr (f', v') ->
  getAbstractFileByPath v' np = Some (TFile np (basename np)).
Proof.
  intros H.
  apply rename_inr in H as (nm & a & m & _ & Hp & Hnp & Hpar & -> & ->).
  apply parentIsFolder_true in Hpar as (pn & pcs & Hpar).
  assert (Hne : np <> path f) by (intros ->; congruence).
  assert (Hpne : parentPath np <> path f) by (intros E; rewrite E in Hpar; congruence).
  apply (resolve_graftVault_new (parentPath np) (TFile np (basename np)))
    with (q := parentPath np) (nm := pn)
         (cs := filter (fun c => negb (isFileAt (path f) c)) (map (prune (path f)) pcs)).
  - simpl. rewrite resolve_pruneVault by assumption. rewrite Hnp. reflexivity.
  - rewrite resolve_pruneVault by assumption. rewrite Hpar. reflexivity.
Qed.

(** Arrival: the moved file is a direct child of the folder part of its new
    path. *)
Lemma rename_childOf_new (v : Vault) (f : TAbstractFile) (np : string) f' v' :
  rename v f np = inr (f', v') ->
  childOf v' (parentPath np) f'.
Proof.
  intros H. destruct (rename_inr _ _ _ _ _ H) as (nm & a & m & _ & Hp & Hnp & Hpar & Hf' & _).
  apply parentIsFolder_true in Hpar as (pn & pcs & Hpar).
  assert (Hpne : parentPath np <> path f) by (intros E; rewrite E in Hpar; congruence).
  unfold childOf.
  rewrite (rename_resolve_other _ _ _ _ _ _ _ H Hpne Hpar). cbn [prune graft].
  rewrite String.eqb_refl. do 3 eexists. split; [ reflexivity | ].
  apply in_or_app. right. left. reflexivity.
Qed.

(** Frame: a file that is a direct child of a folder stays one when another
    file is moved. *)
Lemma rename_childOf_other (v : Vault) (f : TAbstractFile) (np : string) f' v' t a m :
  rename v f np = inr (f', v') ->
  a <> path f ->
  childOf v t (TFile a m) ->
  childOf v' t (TFile a m).
Proof.
  intros H Ha (q & n & cs & Ht & Hin).
  destruct (rename_inr _ _ _ _ _ H) as (nm & b & k & _ & Hp & Hnp & _ & _ & _).
  assert (Htne : t <> path f) by (intros E; rewrite E in Ht; congruence).
  unfold childOf. rewrite (rename_resolve_other _ _ _ _ _ _ _ H Htne Ht). cbn [prune graft].
  do 3 eexists. split; [ reflexivity | ].
  assert (Hin' : In (TFile a m)
                    (map (graft (parentPath np) f')
                       (filter (fun c => negb (isFileAt (path f) c)) (map (prune (path f)) cs)))).
  { apply in_map_iff. exists (TFile a m). split; [ reflexivity | ].
    apply filter_In. split.
    - apply in_map_iff. exists (TFile a m). split; [ reflexivity | assumption ].
    - simpl. destruct (String.eqb_spec a (path f)); [ contradiction | reflexivity ]. }
  destruct (String.eqb q (parentPath np)); [ apply in_or_app; left | ]; exact Hin'.
Qed.

(** ** Paths *)

Lemma splitPath_noSlash (n : string) :
  noSlash n = true -> splitPath n = (None, n).
Proof.
  induction n as [ | c n IH]; [ reflexivity | ].
  cbn [noSlash splitPath]. intros H. apply andb_true_iff in H as [Hc Hn].
  rewrite (IH Hn). destruct (Ascii.eqb c slash); [ discriminate | reflexivity ].
Qed.

(** Cutting [t/n] at its last slash gives back [t] and [n]. *)
Lemma splitPath_join (t n : string) :
  noSlash n = true -> splitPath (t +++ "/" +++ n) = (Some t, n).
Proof.
  intros Hn. induction t as [ | c t IH].
  - change (EmptyString +++ "/" +++ n) with (String slash n).
    cbn [splitPath]. rewrite (splitPath_noSlash n Hn), Ascii.eqb_refl. reflexivity.
  - change (String c t +++ "/" +++ n) with (String c (t +++ "/" +++ n)).
    cbn [splitPath]. rewrite IH. reflexivity.
Qed.

Lemma noSlash_basename (s : string) : noSlash (basename s) = true.
Proof.
  unfold basename. induction s as [ | c s IH]; [ reflexivity | ].
  cbn [splitPath]. destruct (splitPath s) as [[d | ] b]; cbn [snd] in *.
  - exact IH.
  - destruct (Ascii.eqb c slash) eqn:E; cbn [snd noSlash]; [ exact IH | ].
    rewrite E, IH. reflexivity.
Qed.

Lemma basename_join (t n : string) :
  noSlash n = true -> basename (t +++ "/" +++ n) = n.
Proof. intros H. unfold basename. rewrite (splitPath_join t n H). reflexivity. Qed.

Lemma parentPath_join (t n : string) :
  noSlash n = true -> parentPath (t +++ "/" +++ n) = t.
Proof. intros H. unfold parentPath. rewrite (splitPath_join t n H). reflexivity. Qed.

(** A file whose name is the base name of its path is moved to a path that
    has that name as base name and the target as folder part. *)
Lemma wf_destination (t : string) (f : TAbstractFile) :
  name f = basename (path f) ->
  basename (t +++ "/" +++ name f) = name f /\ parentPath (t +++ "/" +++ name f) = t.
Proof.
  intros H. assert (N : noSlash (name f) = true) by (rewrite H; apply noSlash_basename).
  split; [ apply basename_join | apply parentPath_join ]; assumption.
Qed.

(** ** Folder creation *)

Lemma createFolder_inr (v : Vault) (p : string) (v' : Vault) :
  createFolder v p = inr v' ->
  getAbstractFileByPath v p = None /\
  v' = graftVault (parentPath p) (TFolder p (basename p) []) v.
Proof.
  unfold createFolder. destruct (getAbstractFileByPath v p); [ discriminate | ].
  destruct (parentIsFolder v p); [ | discriminate ].
  intros [= <-]. split; reflexivity.
Qed.

Lemma createFolder_resolve_other (v : Vault) (p : string) (v' : Vault) q n :
  createFolder v p = inr v' ->
  getAbstractFileByPath v q = Some n ->
  getAbstractFileByPath v' q
  = Some (graft (parentPath p) (TFolder p (basename p) []) n).
Proof.
  intros H Hq. apply createFolder_inr in H as [Hp ->].
  rewrite resolve_graftVault; [ rewrite Hq; reflexivity | ].
  cbn. destruct (String.eqb_spec p q); [ congruence | reflexivity ].
Qed.

Lemma createFolder_resolve_file (v : Vault) (p : string) (v' : Vault) q a m :
  createFolder v p = inr v' ->
  getAbstractFileByPath v q = Some (TFile a m) ->
  getAbstractFileByPath v' q = Some (TFile a m).
Proof.
  intros H Hq. rewrite (createFolder_resolve_other _ _ _ _ _ H Hq). reflexivity.
Qed.

(** Grafting an entry that holds no file adds no file. *)
Lemma descendantFiles_graft_empty (par : string) (x n : TAbstractFile) :
  descendantFiles x = [] ->
  descendantFiles (graft par x n) = descendantFiles n.
Proof.
  intros Hx. induction n as [p m | p m cs IH] using TAbstractFile_forall_ind; [ reflexivity | ].
  cbn [graft descendantFiles].
  assert (E : flat_map descendantFiles (map (graft par x) cs) = flat_map descendantFiles cs).
  { induction IH as [ | c cs Hc _ IHcs]; [ reflexivity | ].
    cbn [map flat_map]. rewrite Hc, IHcs. reflexivity. }
  destruct (String.eqb p par); [ | exact E ].
  rewrite flat_map_app, E. cbn [flat_map]. rewrite Hx. rewrite !app_nil_r. reflexivity.
Qed.

(** A folder that is created has a folder to be created in. *)
Lemma createFolder_parent (v : Vault) (p : string) (v' : Vault) :
  createFolder v p = inr v' -> parentIsFolder v p = true.
Proof.
  unfold createFolder. destruct (getAbstractFileByPath v p); [ discriminate | ].
  destruct (parentIsFolder v p); [ reflexivity | discriminate ].
Qed.

(** A folder that has just been created is there, and is empty. *)
Lemma createFolder_resolve_new (v : Vault) (p : string) (v' : Vault) :
  createFolder v p = inr v' ->
  getAbstractFileByPath v' p = Some (TFolder p (basename p) []).
Proof.
  intros H. pose proof (createFolder_parent _ _ _ H) as Hpar.
  apply createFolder_inr in H as [Hnone ->].
  apply parentIsFolder_true in Hpar as (nm & cs & Hpar).
  exact (resolve_graftVault_new (parentPath p) (TFolder p (basename p) []) v _ _ _
           Hnone Hpar).
Qed.

(** ** The entries of a tree *)

Lemma nodes_self (n : TAbstractFile) : In n (nodes n).
Proof. destruct n; left; reflexivity. Qed.

Lemma nodes_children (n x c : TAbstractFile) :
  In x (nodes n) -> In c (children x) -> In c (nodes n).
Proof.
  induction n as [p m | p m cs IH] using TAbstractFile_forall_ind; intros Hx Hc.
  - destruct Hx as [<- | []]. destruct Hc.
  - destruct Hx as [<- | Hx].
    + right. cbn [children] in Hc. apply in_flat_map. exists c. split; [ exact Hc | ].
      apply nodes_self.
    + right. apply in_flat_map in Hx as (d & Hd & Hx). apply in_flat_map. exists d.
      split; [ exact Hd | ].
      exact (proj1 (Forall_forall _ _) IH d Hd Hx Hc).
Qed.

Lemma allNodes_children (v : Vault) (x c : TAbstractFile) :
  In x (allNodes v) -> In c (children x) -> In c (allNodes v).
Proof.
  unfold allNodes. intros Hx Hc. apply in_flat_map in Hx as (d & Hd & Hx).
  apply in_flat_map. exists d. split; [ exact Hd | ]. exact (nodes_children _ _ _ Hx Hc).
Qed.

Lemma findNode_nodes (p : string) (n x : TAbstractFile) :
  findNode p n = Some x -> In x (nodes n).
Proof.
  revert x. induction n as [q m | q m cs IH] using TAbstractFile_forall_ind; intros x; simpl.
  - destruct (String.eqb q p); [ | discriminate ]. intros [= <-]. left. reflexivity.
  - destruct (String.eqb q p); [ intros [= <-]; left; reflexivity | ].
    intros H. right.
    induction IH as [ | c cs Hc _ IHcs]; simpl in *; [ discriminate | ].
    apply in_or_app. destruct (findNode p c) eqn:E.
    + injection H as <-. left. apply Hc. reflexivity.
    + right. apply IHcs. exact H.
Qed.

(** What a path resolves to is the root or an entry of the tree. *)
Lemma resolve_nodes (v : Vault) (p : string) (x : TAbstractFile) :
  getAbstractFileByPath v p = Some x -> x = root v \/ In x (allNodes v).
Proof.
  rewrite getAbstractFileByPath_root. intros H. apply findNode_nodes in H.
  destruct H as [<- | H]; [ left; reflexivity | right; exact H ].
Qed.

Lemma resolve_children (v : Vault) (p : string) (x c : TAbstractFile) :
  getAbstractFileByPath v p = Some x -> In c (children x) -> In c (allNodes v).
Proof.
  intros H Hc. apply resolve_nodes in H as [-> | H].
  - cbn [root children] in Hc. unfold allNodes. apply in_flat_map. exists c.
    split; [ exact Hc | apply nodes_self ].
  - exact (allNodes_children _ _ _ H Hc).
Qed.

(** The children read for a folder are entries of the tree. *)
Lemma childrenOf_nodes (v : Vault) (folder c : TAbstractFile) :
  In c (childrenOf v folder) -> In c (allNodes v).
Proof.
  unfold childrenOf.
  destruct (getAbstractFileByPath v (path folder)) as [[q m | q m cs] | ] eqn:E;
    try (intros []).
  intros H. exact (resolve_children _ _ _ _ E H).
Qed.

Lemma nodes_prune (p : string) (n y : TAbstractFile) :
  In y (nodes (prune p n)) ->
  exists x, In x (nodes n) /\ y = prune p x /\ (x = n \/ isFileAt p y = false).
Proof.
  revert y. induction n as [q m | q m cs IH] using TAbstractFile_forall_ind; intros y.
  - intros [<- | []]. exists (TFile q m). split; [ left; reflexivity | ]. split; [ reflexivity | ].
    left. reflexivity.
  - cbn [prune nodes]. intros [<- | H].
    + exists (TFolder q m cs). split; [ left; reflexivity | ]. split; [ reflexivity | ].
      left. reflexivity.
    + apply in_flat_map in H as (c' & Hc' & Hy). apply filter_In in Hc' as [Hc' Hkeep].
      apply in_map_iff in Hc' as (c & <- & Hc).
      destruct (proj1 (Forall_forall _ _) IH c Hc y Hy) as (x & Hx & -> & Hor).
      exists x. split; [ right; apply in_flat_map; exists c; tauto | ].
      split; [ reflexivity | ]. right.
      destruct Hor as [-> | Hor]; [ | exact Hor ].
      apply negb_true_iff in Hkeep. exact Hkeep.
Qed.

Lemma allNodes_pruneVault (p : string) (v : Vault) (y : TAbstractFile) :
  In y (allNodes (pruneVault p v)) ->
  exists x, In x (allNodes v) /\ y = prune p x /\ isFileAt p y = false.
Proof.
  unfold allNodes, pruneVault. intros H. apply in_flat_map in H as (c' & Hc' & Hy).
  apply filter_In in Hc' as [Hc' Hkeep]. apply in_map_iff in Hc' as (c & <- & Hc).
  destruct (nodes_prune _ _ _ Hy) as (x & Hx & -> & Hor).
  exists x. split; [ apply in_flat_map; exists c; tauto | ]. split; [ reflexivity | ].
  destruct Hor as [-> | Hor]; [ | exact Hor ].
  apply negb_true_iff in Hkeep. exact Hkeep.
Qed.

Lemma nodes_graft (par : string) (z n y : TAbstractFile) :
  In y (nodes (graft par z n)) ->
  In y (nodes z) \/ exists x, In x (nodes n) /\ y = graft par z x.
Proof.
  revert y. induction n as [q m | q m cs IH] using TAbstractFile_forall_ind; intros y.
  - intros [<- | []]. right. exists (TFile q m). split; [ left; reflexivity | reflexivity ].
  - cbn [graft nodes]. intros [<- | H].
    + right. exists (TFolder q m cs). split; [ left; reflexivity | reflexivity ].
    + assert (Hmap : In y (flat_map nodes (map (graft par z) cs)) ->
                     In y (nodes z) \/
                     exists x, In x (nodes (TFolder q m cs)) /\ y = graft par z x).
      { intros Hy. apply in_flat_map in Hy as (c' & Hc' & Hy).
        apply in_map_iff in Hc' as (c & <- & Hc).
        destruct (proj1 (Forall_forall _ _) IH c Hc y Hy) as [Hz | (x & Hx & ->)];
          [ left; exact Hz | ].
        right. exists x. split; [ | reflexivity ]. right. apply in_flat_map. exists c. tauto. }
      destruct (String.eqb q par); [ | exact (Hmap H) ].
      rewrite flat_map_app in H. apply in_app_or in H as [H | H]; [ exact (Hmap H) | ].
      cbn [flat_map] in H. rewrite app_nil_r in H. left. exact H.
Qed.

Lemma allNodes_graftVault (par : string) (z : TAbstractFile) (v : Vault) (y : TAbstractFile) :
  In y (allNodes (graftVault par z v)) ->
  In y (nodes z) \/ exists x, In x (allNodes v) /\ y = graft par z x.
Proof.
  unfold allNodes, graftVault.
  assert (Hmap : In y (flat_map nodes (map (graft par z) v)) ->
                 In y (nodes z) \/
                 exists x, In x (flat_map nodes v) /\ y = graft par z x).
  { intros Hy. apply in_flat_map in Hy as (c' & Hc' & Hy).
    apply in_map_iff in Hc' as (c & <- & Hc).
    destruct (nodes_graft _ _ _ _ Hy) as [Hz | (x & Hx & ->)]; [ left; exact Hz | ].
    right. exists x. split; [ | reflexivity ]. apply in_flat_map. exists c. tauto. }
  destruct (String.eqb par rootPath); [ | exact Hmap ].
  rewrite flat_map_app. intros H. apply in_app_or in H as [H | H]; [ exact (Hmap H) | ].
  cbn [flat_map] in H. rewrite app_nil_r in H. left. exact H.
Qed.

(** ** Well-formed trees *)

(** A successful move leaves a well-formed tree well formed. *)
Lemma rename_wellFormed (v : Vault) (f : TAbstractFile) (np : string) f' v' :
  rename v f np = inr (f', v') -> wellFormed v -> wellFormed v'.
Proof.
  intros R Wf y Hy.
  destruct (rename_inr _ _ _ _ _ R) as (nm & a & m & _ & Hp & Hnp & _ & Hf' & Hv').
  rewrite Hv' in Hy. apply allNodes_graftVault in Hy as [Hy | (x1 & Hx1 & ->)].
  - rewrite Hf' in Hy. destruct Hy as [<- | []]. cbn [path name isFolder]. split.
    + exact (rename_resolve_new _ _ _ _ _ R).
    + reflexivity.
  - apply allNodes_pruneVault in Hx1 as (x & Hx & -> & Hkeep).
    destruct (Wf x Hx) as [Wx Wn]. destruct x as [q k | q k cs].
    + cbn [prune graft path name isFolder] in *. split; [ | exact Wn ].
      apply String.eqb_neq in Hkeep.
      exact (rename_resolve_file _ _ _ _ _ _ _ _ R Hkeep Wx).
    + cbn [prune graft path isFolder] in *. split; [ | discriminate ].
      assert (Hne : q <> path f) by (intros ->; congruence).
      rewrite (rename_resolve_other _ _ _ _ _ _ _ R Hne Wx). rewrite Hf'. reflexivity.
Qed.

(** So does the creation of a folder. *)
Lemma createFolder_wellFormed (v : Vault) (p : string) (v' : Vault) :
  createFolder v p = inr v' -> wellFormed v -> wellFormed v'.
Proof.
  intros C Wf y Hy.
  destruct (createFolder_inr _ _ _ C) as [Hnone Hv'].
  rewrite Hv' in Hy. apply allNodes_graftVault in Hy as [Hy | (x & Hx & ->)].
  - destruct Hy as [<- | []]. cbn [path isFolder]. split; [ | discriminate ].
    exact (createFolder_resolve_new _ _ _ C).
  - destruct (Wf x Hx) as [Wx Wn]. destruct x as [q k | q k cs].
    + cbn [graft path name isFolder] in *. split; [ | exact Wn ].
      exact (createFolder_resolve_file _ _ _ _ _ _ C Wx).
    + cbn [graft path isFolder] in *. split; [ | discriminate ].
      rewrite (createFolder_resolve_other _ _ _ _ _ C Wx). reflexivity.
Qed.

(** In a well-formed tree a child that has been read resolves to itself. *)
Lemma wellFormed_child (v : Vault) (folder c : TAbstractFile) :
  wellFormed v ->
  In c (childrenOf v folder) ->
  getAbstractFileByPath v (path c) = Some c.
Proof. intros Wf H. exact (proj1 (Wf _ (childrenOf_nodes _ _ _ H))). Qed.

(** A successful move goes from a path that resolves to one that does not. *)
Lemma rename_from_ne_to (v : Vault) (f : TAbstractFile) (np : string) f' v' :
  rename v f np = inr (f', v') -> path f <> np.
Proof.
  intros H E. apply rename_inr in H as (nm & q & m & _ & Hp & Hnp & _).
  rewrite E in Hp. congruence.
Qed.

(** A folder outlives a move and a folder creation: it is still where it
    was, whatever has changed below it. *)
Lemma rename_keeps_folder (v : Vault) (f : TAbstractFile) (np : string) f' v' q a b :
  rename v f np = inr (f', v') ->
  (exists cs, getAbstractFileByPath v q = Some (TFolder a b cs)) ->
  exists cs, getAbstractFileByPath v' q = Some (TFolder a b cs).
Proof.
  intros R (cs & Hq).
  assert (Hne : q <> path f).
  { intros ->. apply rename_inr in R as (_ & x & y & _ & Hp & _). congruence. }
  rewrite (rename_resolve_other _ _ _ _ _ _ _ R Hne Hq). cbn [prune graft].
  eexists. reflexivity.
Qed.

Lemma createFolder_keeps_folder (v : Vault) (p : string) (v' : Vault) q a b :
  createFolder v p = inr v' ->
  (exists cs, getAbstractFileByPath v q = Some (TFolder a b cs)) ->
  exists cs, getAbstractFileByPath v' q = Some (TFolder a b cs).
Proof.
  intros C (cs & Hq). rewrite (createFolder_resolve_other _ _ _ _ _ C Hq). cbn [graft].
  eexists. reflexivity.
Qed.

Lemma descendantFiles_are_files (n : TAbstractFile) :
  Forall (fun f => isFolder f = false) (descendantFiles n).
Proof.
  induction n as [p m | p m cs IH] using TAbstractFile_forall_ind; cbn [descendantFiles].
  - repeat constructor.
  - induction IH as [ | c cs Hc _ IHcs]; cbn [flat_map]; [ constructor | ].
    apply Forall_app. split; assumption.
Qed.

Lemma descendantFiles_nodes (n x : TAbstractFile) :
  In x (descendantFiles n) -> In x (nodes n).
Proof.
  induction n as [p m | p m cs IH] using TAbstractFile_forall_ind; cbn [descendantFiles nodes].
  - intros [<- | []]. left. reflexivity.
  - intros H. right. apply in_flat_map in H as (c & Hc & Hx). apply in_flat_map.
    exists c. split; [ exact Hc | ]. exact (proj1 (Forall_forall _ _) IH c Hc Hx).
Qed.

(** The files below the children of a folder that a path resolves to are
    entries of the tree. *)
Lemma descendants_in_tree (v : Vault) (p : string) (folder x : TAbstractFile) :
  getAbstractFileByPath v p = Some folder ->
  In x (flat_map descendantFiles (children folder)) ->
  In x (allNodes v).
Proof.
  intros Hp Hx. apply in_flat_map in Hx as (c & Hc & Hx).
  pose proof (resolve_children _ _ _ _ Hp Hc) as Hn.
  apply descendantFiles_nodes in Hx.
  unfold allNodes in *. apply in_flat_map in Hn as (t & Ht & Hn). apply in_flat_map.
  exists t. split; [ exact Ht | ].
  clear -Hn Hx. revert c Hn Hx.
  induction t as [a b | a b ts IH] using TAbstractFile_forall_ind; intros c Hn Hx.
  - destruct Hn as [<- | []]. exact Hx.
  - destruct Hn as [<- | Hn]; [ exact Hx | ]. right.
    apply in_flat_map in Hn as (d & Hd & Hn). apply in_flat_map. exists d.
    split; [ exact Hd | ]. exact (proj1 (Forall_forall _ _) IH d Hd c Hn Hx).
Qed.

(** ** Reading a trace that is an append *)

Lemma renameCalls_app (l1 l2 : list Event) :
  renameCalls (l1 ++ l2) = renameCalls l1 ++ renameCalls l2.
Proof. apply flat_map_app. Qed.

Lemma patternTests_app (l1 l2 : list Event) :
  patternTests (l1 ++ l2) = patternTests l1 ++ patternTests l2.
Proof. apply flat_map_app. Qed.

Lemma movedFrom_app (l1 l2 : list Event) :
  movedFrom (l1 ++ l2) = movedFrom l1 ++ movedFrom l2.
Proof. apply flat_map_app. Qed.

Lemma failedFrom_app (l1 l2 : list Event) :
  failedFrom (l1 ++ l2) = failedFrom l1 ++ failedFrom l2.
Proof. apply flat_map_app. Qed.

Lemma movedTo_app (l1 l2 : list Event) :
  movedTo (l1 ++ l2) = movedTo l1 ++ movedTo l2.
Proof. apply flat_map_app. Qed.

Lemma notices_app (l1 l2 : list Event) : notices (l1 ++ l2) = notices l1 ++ notices l2.
Proof. apply flat_map_app. Qed.

Lemma consoleLines_app (l1 l2 : list Event) :
  consoleLines (l1 ++ l2) = consoleLines l1 ++ consoleLines l2.
Proof. apply flat_map_app. Qed.

Lemma awaited_app (l1 l2 : list Event) : awaited (l1 ++ l2) = awaited l1 ++ awaited l2.
Proof. apply flat_map_app. Qed.

Lemma joinCount_app (l1 l2 : list Event) : joinCount (l1 ++ l2) = joinCount l1 + joinCount l2.
Proof. unfold joinCount. rewrite filter_app, length_app. reflexivity. Qed.

Lemma withoutNotices_app (l1 l2 : list Event) :
  withoutNotices (l1 ++ l2) = withoutNotices l1 ++ withoutNotices l2.
Proof. apply filter_app. Qed.

Lemma renameCalls_In (from to : string) (tr : list Event) :
  In (from, to) (renameCalls tr) -> exists ok, In (Rename from to ok) tr.
Proof.
  unfold renameCalls. rewrite in_flat_map. intros (e & He & H).
  destruct e as [ | | | | f t ok | | | ]; try contradiction.
  destruct H as [[= <- <-] | []]. exists ok. assumption.
Qed.

Lemma movedFrom_In (q : string) (tr : list Event) :
  In q (movedFrom tr) <-> exists to, In (Rename q to true) tr.
Proof.
  unfold movedFrom. rewrite in_flat_map. split.
  - intros (e & He & Hq). destruct e as [ | | | | f t [] | | | ]; try contradiction.
    destruct Hq as [<- | []]. exists t. assumption.
  - intros (to & H). exists (Rename q to true). split; [ assumption | left; reflexivity ].
Qed.

Lemma failedFrom_In (q to : string) (tr : list Event) :
  In (Rename q to false) tr -> In q (failedFrom tr).
Proof.
  intros H. unfold failedFrom. apply in_flat_map.
  exists (Rename q to false). split; [ assumption | left; reflexivity ].
Qed.

Lemma movedTo_In (t : string) (tr : list Event) :
  In t (movedTo tr) <-> exists from, In (Rename from t true) tr.
Proof.
  unfold movedTo. rewrite in_flat_map. split.
  - intros (e & He & Ht). destruct e as [ | | | | f t' [] | | | ]; try contradiction.
    destruct Ht as [<- | []]. exists f. assumption.
  - intros (from & H). exists (Rename from t true). split; [ assumption | left; reflexivity ].
Qed.


Lemma reportsFollow_app (show : bool) (t1 t2 : list Event) :
  reportsFollow show t1 -> reportsFollow show t2 -> reportsFollow show (t1 ++ t2).
Proof.
  intros H1 H2. induction t1 as [ | e t1 IH]; [ exact H2 | ].
  destruct e as [ | | | | f t ok | | | ]; cbn [reportsFollow app] in *;
    try (apply IH; assumption).
  destruct H1 as [Hr H1]. split; [ | apply IH; assumption ].
  destruct ok.
  - destruct Hr as (rest' & ->). exists (rest' ++ t2).
    rewrite <- app_assoc. reflexivity.
  - destruct Hr as (error & rest' & ->). exists error, (rest' ++ t2). reflexivity.
Qed.

Lemma app_eq_self {A : Type} (l x : list A) : l ++ x = l -> x = [].
Proof.
  intros H. apply (f_equal (@length A)) in H. rewrite length_app in H.
  destruct x; [ reflexivity | cbn in H; lia ].
Qed.

Lemma filter_nil_of_false {A : Type} (f : A -> bool) (l : list A) :
  (forall x, In x l -> f x = false) -> filter f l = [].
Proof.
  induction l as [ | a l IH]; intros H; [ reflexivity | ].
  cbn [filter]. rewrite (H a (or_introl eq_refl)). apply IH.
  intros x Hx. apply H. right. assumption.
Qed.

Lemma moveCalls_app (l1 l2 : list Event) :
  moveCalls (l1 ++ l2) = moveCalls l1 ++ moveCalls l2.
Proof. apply flat_map_app. Qed.

Lemma moveCalls_In (from to : string) (tr : list Event) :
  In (from, to) (moveCalls tr) <-> In (MoveFile from to) tr.
Proof.
  unfold moveCalls. rewrite in_flat_map. split.
  - intros (e & He & H). destruct e as [ | | | | | | | f t]; try contradiction.
    destruct H as [[= <- <-] | []]. assumption.
  - intros H. exists (MoveFile from to). split; [ assumption | left; reflexivity ].
Qed.

Lemma renameCalls_of (from to : string) (ok : bool) (tr : list Event) :
  In (Rename from to ok) tr -> In (from, to) (renameCalls tr).
Proof.
  intros H. unfold renameCalls. apply in_flat_map.
  exists (Rename from to ok). split; [ assumption | left; reflexivity ].
Qed.

(** ** The walk as a run of operations *)

Lemma world_eta (w : World) : mkWorld (vault w) (trace w) = w.
Proof. destruct w; reflexivity. Qed.

Section Runs.

Variable RegExp : Type.
Variable test : RegExp -> string -> bool.
Variable settings : FileMoverSettings.
Variable host : nat -> list Move -> list nat.
Variable pattern : RegExp.
Variable targetPath : string.

Local Abbreviation run := (performAll settings targetPath).
Local Abbreviation step := (perform settings targetPath).
Local Abbreviation walkFrom :=
  (fun budget folder => processFolderFrom test settings host budget folder pattern targetPath).

Lemma run_cons (a : Operation) (acts : list Operation) (st : list Move * Vault) :
  run (a :: acts) st
  = (fst (step a st) ++ fst (run acts (snd (step a st))), snd (run acts (snd (step a st)))).
Proof.
  cbn [performAll]. destruct (step a st) as [tr st']. cbn [fst snd].
  destruct (run acts st') as [tr' st'']. reflexivity.
Qed.

Lemma run_app (a1 a2 : list Operation) (st : list Move * Vault) :
  run (a1 ++ a2) st
  = (fst (run a1 st) ++ fst (run a2 (snd (run a1 st))), snd (run a2 (snd (run a1 st)))).
Proof.
  revert st. induction a1 as [ | a a1 IH]; intros st.
  - cbn [app performAll fst snd]. destruct (run a2 st); reflexivity.
  - cbn [app]. rewrite !run_cons, IH. cbn [fst snd]. rewrite app_assoc. reflexivity.
Qed.

Lemma allowed_app (a1 a2 : list Operation) (st : list Move * Vault) :
  allowed test settings pattern targetPath (a1 ++ a2) st <->
  allowed test settings pattern targetPath a1 st /\
  allowed test settings pattern targetPath a2 (snd (run a1 st)).
Proof.
  revert st. induction a1 as [ | a a1 IH]; intros st.
  - cbn [app allowed performAll snd]. tauto.
  - cbn [app allowed]. rewrite IH, run_cons. cbn [snd]. tauto.
Qed.

Lemma allowed_settles (picks : list nat) (st : list Move * Vault) :
  allowed test settings pattern targetPath (map Settle picks) st.
Proof.
  revert st. induction picks as [ | i picks IH]; intros st; cbn [map allowed].
  - exact I.
  - split; [ exact I | apply IH ].
Qed.

(** [moveFile], resumed, does what the settling of its move does. *)
Lemma moveFileResumed_settled (m : Move) (w : World) :
  moveFileResumed settings (moving m) (toPath m) w = (Normal tt, settled settings m w).
Proof.
  unfold moveFileResumed, tryCatch, bind, vault_rename, settled, moveEffect,
    newNotice, console_log, console_error, emit, ret.
  destruct (rename (vault w) (moving m) (toPath m)) as [e | [c' v']].
  - cbn [vault trace]. rewrite <- !app_assoc. reflexivity.
  - destruct (showMoveNotification settings); cbn [vault trace];
      rewrite <- !app_assoc; reflexivity.
Qed.

Lemma settleAt_run (i : nat) (q : list Move) (w : World) :
  settleAt settings i q w
  = (Normal (fst (snd (step (Settle i) (q, vault w)))),
     mkWorld (snd (snd (step (Settle i) (q, vault w))))
       (trace w ++ fst (step (Settle i) (q, vault w)))).
Proof.
  unfold settleAt. cbn [perform fst snd].
  destruct (nth_error q i) as [m | ].
  - unfold bind. rewrite moveFileResumed_settled. unfold settled, ret.
    destruct (moveEffect settings (moving m) (toPath m) (vault w)) as [tr v'].
    reflexivity.
  - unfold ret. cbn [fst snd]. rewrite app_nil_r, world_eta. reflexivity.
Qed.

Lemma settleEach_run (picks : list nat) (q : list Move) (w : World) :
  settleEach settings picks q w
  = (Normal (fst (snd (run (map Settle picks) (q, vault w)))),
     mkWorld (snd (snd (run (map Settle picks) (q, vault w))))
       (trace w ++ fst (run (map Settle picks) (q, vault w)))).
Proof.
  revert q w. induction picks as [ | i picks IH]; intros q w.
  - cbn [settleEach map performAll fst snd]. unfold ret.
    rewrite app_nil_r, world_eta. reflexivity.
  - cbn [settleEach map]. unfold bind. rewrite settleAt_run, IH, run_cons.
    cbn [vault trace fst snd]. rewrite <- surjective_pairing, app_assoc. reflexivity.
Qed.

(** The moves that are not awaited. *)
Lemma settleAwaited_run (ps : list string) (q kept : list Move) (w : World) :
  exists picks,
    settleAwaited settings ps q w
    = (Normal (filter (fun m => negb (existsb (String.eqb (path (moving m))) ps)) q),
       mkWorld (snd (snd (run (map Settle picks) (kept ++ q, vault w))))
         (trace w ++ fst (run (map Settle picks) (kept ++ q, vault w)))) /\
    fst (snd (run (map Settle picks) (kept ++ q, vault w)))
    = kept ++ filter (fun m => negb (existsb (String.eqb (path (moving m))) ps)) q.
Proof.
  revert kept w. induction q as [ | m q IH]; intros kept w.
  - exists []. cbn [settleAwaited map performAll filter fst snd]. unfold ret.
    rewrite app_nil_r, world_eta. split; reflexivity.
  - cbn [settleAwaited filter].
    destruct (existsb (String.eqb (path (moving m))) ps) eqn:E; cbn [negb].
    + unfold bind. rewrite moveFileResumed_settled.
      destruct (IH kept (settled settings m w)) as (picks & Hrun & Hq).
      exists (length kept :: picks). cbn [map]. rewrite run_cons.
      assert (Hstep : step (Settle (length kept)) (kept ++ m :: q, vault w)
                      = (fst (moveEffect settings (moving m) (toPath m) (vault w)),
                         (kept ++ q,
                          snd (moveEffect settings (moving m) (toPath m) (vault w))))).
      { cbn [perform fst snd].
        rewrite nth_error_app2, Nat.sub_diag by lia. cbn [nth_error].
        destruct (moveEffect settings (moving m) (toPath m) (vault w)) as [tr v'].
        cbn [fst snd]. rewrite firstn_app, Nat.sub_diag, firstn_all, firstn_O, app_nil_r.
        rewrite skipn_app, skipn_all2 by lia.
        replace (S (length kept) - length kept) with 1 by lia. reflexivity. }
      rewrite Hstep. cbn [fst snd].
      unfold settled in *.
      destruct (moveEffect settings (moving m) (toPath m) (vault w)) as [tr v'].
      cbn [vault trace fst snd] in *. rewrite Hrun, Hq, app_assoc. split; reflexivity.
    + unfold bind.
      destruct (IH (kept ++ [m]) w) as (picks & Hrun & Hq).
      rewrite <- app_assoc in Hrun, Hq. cbn [app] in Hrun, Hq.
      exists picks. rewrite Hrun. unfold ret. split; [ reflexivity | ].
      rewrite Hq, <- app_assoc. reflexivity.
Qed.

(** An [await Promise.all] is a run of settlings, then the return. *)
Lemma promise_all_run (ps : list string) (q : list Move) (w : World) :
  exists picks,
    promise_all settings host ps q w
    = (Normal (fst (snd (run (map Settle picks) (q, vault w)))),
       mkWorld (snd (snd (run (map Settle picks) (q, vault w))))
         (trace w ++ fst (run (map Settle picks) (q, vault w)) ++ [AwaitAll ps])) /\
    Forall (fun m => existsb (String.eqb (path (moving m))) ps = false)
      (fst (snd (run (map Settle picks) (q, vault w)))).
Proof.
  unfold promise_all, bind. rewrite settleEach_run.
  set (picks1 := host (joinCount (trace w)) q).
  set (r1 := run (map Settle picks1) (q, vault w)).
  destruct (settleAwaited_run ps (fst (snd r1)) []
              (mkWorld (snd (snd r1)) (trace w ++ fst r1))) as (picks2 & Hrun & Hq).
  cbn [app vault trace] in Hrun, Hq. rewrite <- surjective_pairing in Hrun, Hq.
  exists (picks1 ++ picks2). rewrite Hrun. unfold emit, ret. cbn [vault trace].
  rewrite map_app, run_app. fold r1. cbn [fst snd]. rewrite Hq, <- !app_assoc.
  split; [ reflexivity | ].
  apply Forall_forall. intros m Hm. apply filter_In in Hm as [_ Hm].
  apply negb_true_iff in Hm. exact Hm.
Qed.

End Runs.

(** ** Induction over a walk *)

Section WalkInduction.

Variable RegExp : Type.
Variable test : RegExp -> string -> bool.
Variable settings : FileMoverSettings.
Variable host : nat -> list Move -> list nat.
Variable pattern : RegExp.
Variable targetPath : string.

Local Abbreviation walkFrom :=
  (fun budget folder => processFolderFrom test settings host budget folder pattern targetPath).
Local Abbreviation destination := (fun child : TAbstractFile => targetPath +++ "/" +++ name child).

(** A property of walks: of the array [movePromises], the moves in flight
    and the world a walk starts from, and of what it leaves. *)
Variable P : list string -> list Move -> World -> Completion (list Move) * World -> Prop.

Hypothesis P_await : forall ps q w, P ps q w (promise_all settings host ps q w).

Hypothesis P_skip : forall child ps q w r,
  In child (allNodes (vault w)) ->
  isFolder child = false ->
  test pattern (name child) = false ->
  P ps q (mkWorld (vault w) (trace w ++ [PatternTest (path child) (name child)])) r ->
  P ps q w r.

Hypothesis P_move : forall child ps q w r,
  In child (allNodes (vault w)) ->
  isFolder child = false ->
  test pattern (name child) = true ->
  P (ps ++ [path child]) (q ++ [mkMove child (destination child)])
    (mkWorld (vault w)
       (trace w ++ [PatternTest (path child) (name child);
                    MoveFile (path child) (destination child)])) r ->
  P ps q w r.

Hypothesis P_overflow : forall ps q w,
  P ps q w (Abrupt "RangeError: Maximum call stack size exceeded", w).

Hypothesis P_enter : forall ps q w q1 w1 r,
  P [] q w (Normal q1, w1) -> P ps q1 w1 r -> P ps q w r.

Hypothesis P_throw : forall ps q w e w1,
  P [] q w (Abrupt e, w1) -> P ps q w (Abrupt e, w1).

Lemma processChildren_ind
    (walk : TAbstractFile -> nat -> list string -> list Move -> Async (list Move))
    (folder : TAbstractFile) :
  (forall f i ps q w, P ps q w (walk f i ps q w)) ->
  forall cs i ps q w,
    Forall (fun c => In c (allNodes (vault w))) cs ->
    P ps q w (processChildren test settings host walk folder pattern targetPath cs i ps q w).
Proof.
  intros Hwalk. induction cs as [ | child rest IH]; intros i ps q w Hcs.
  - apply P_await.
  - inversion Hcs as [ | c l Hc Hrest]; subst c l. destruct child as [p n | p n ds].
    + cbn [processChildren path name]. unfold bind at 1. unfold pattern_test, bind, emit, ret.
      destruct (test pattern n) eqn:T.
      * unfold moveFile, bind, emit, ret. cbn [vault trace path].
        apply (P_move (TFile p n)); [ exact Hc | reflexivity | exact T | ].
        cbn [path name]. rewrite <- app_assoc.
        apply IH. exact Hrest.
      * apply (P_skip (TFile p n)); [ exact Hc | reflexivity | exact T | ].
        apply IH. exact Hrest.
    + cbn [processChildren]. unfold bind.
      pose proof (Hwalk (TFolder p n ds) 0 [] q w) as H1.
      destruct (walk (TFolder p n ds) 0 [] q w) as [[q1 | e] w1].
      * exact (P_enter ps q w q1 w1 _ H1 (Hwalk folder (S i) ps q1 w1)).
      * exact (P_throw ps q w e w1 H1).
Qed.

Lemma walk_ind (budget : nat) :
  forall folder i ps q w, P ps q w (walkFrom budget folder i ps q w).
Proof.
  assert (Hcs : forall folder i w,
             Forall (fun c => In c (allNodes (vault w)))
               (skipn i (childrenOf (vault w) folder))).
  { intros folder i w. apply Forall_forall. intros c Hc.
    apply (childrenOf_nodes _ folder). rewrite <- (firstn_skipn i). apply in_or_app.
    right. exact Hc. }
  induction budget as [ | budget IH]; intros folder i ps q w.
  - cbn [processFolderFrom]. apply processChildren_ind; [ | apply Hcs ].
    intros f j ps' q' w'. apply P_overflow.
  - cbn [processFolderFrom]. apply processChildren_ind; [ | apply Hcs ].
    intros f j ps' q' w'. apply IH.
Qed.

End WalkInduction.

(** ** Every walk is a run *)

Section WalkRuns.

Variable RegExp : Type.
Variable test : RegExp -> string -> bool.
Variable settings : FileMoverSettings.
Variable host : nat -> list Move -> list nat.
Variable pattern : RegExp.
Variable targetPath : string.

Local Abbreviation run := (performAll settings targetPath).
Local Abbreviation runs := (runOf test settings pattern targetPath).
Local Abbreviation walkFrom :=
  (fun budget folder => processFolderFrom test settings host budget folder pattern targetPath).

Lemma runOf_app (acts1 acts2 : list Operation) (q : list Move) (w : World) q1 w1 r :
  runs acts1 q w (Normal q1, w1) -> runs acts2 q1 w1 r -> runs (acts1 ++ acts2) q w r.
Proof.
  intros (A1 & W1 & Q1) (A2 & W2 & Q2). cbn [fst snd] in *.
  specialize (Q1 q1 eq_refl). subst q1 w1. cbn [vault trace] in *.
  rewrite <- surjective_pairing in A2, W2, Q2.
  unfold runOf. rewrite run_app. cbn [fst snd].
  split; [ apply allowed_app; split; assumption | ].
  split; [ rewrite W2, app_assoc; reflexivity | exact Q2 ].
Qed.

Lemma walk_runs (budget : nat) (folder : TAbstractFile) (i : nat) (ps : list string)
    (q : list Move) (w : World) :
  exists acts, runs acts q w (walkFrom budget folder i ps q w).
Proof.
  apply (walk_ind _ test settings host pattern targetPath
           (fun ps q w r => exists acts, runs acts q w r)); clear.
  - intros ps q w. destruct (promise_all_run settings host targetPath ps q w)
      as (picks & Hrun & _).
    exists (map Settle picks ++ [Return ps]). rewrite Hrun. unfold runOf.
    rewrite run_app. cbn [performAll perform fst snd]. rewrite app_nil_r.
    split; [ | split ].
    + apply allowed_app. split; [ apply allowed_settles | ]. cbn. tauto.
    + reflexivity.
    + intros q' [= <-]. reflexivity.
  - intros child ps q w r Hc Hf T (acts & A & W & Q). exists (Test child :: acts).
    unfold runOf. rewrite run_cons. cbn [perform fst snd vault trace] in *.
    split; [ cbn; tauto | ]. split; [ rewrite W, <- app_assoc; reflexivity | exact Q ].
  - intros child ps q w r Hc Hf T (acts & A & W & Q).
    exists (Test child :: Call child :: acts).
    unfold runOf. rewrite !run_cons. cbn [perform fst snd vault trace] in *.
    split; [ cbn; tauto | ]. split; [ rewrite W, <- app_assoc; reflexivity | exact Q ].
  - intros ps q w. exists []. unfold runOf. cbn [performAll allowed fst snd].
    rewrite app_nil_r, world_eta. split; [ exact I | ]. split; [ reflexivity | discriminate ].
  - intros ps q w q1 w1 r (acts1 & H1) (acts2 & H2). exists (acts1 ++ acts2).
    exact (runOf_app _ _ _ _ _ _ _ H1 H2).
  - intros ps q w e w1 (acts1 & A & W & Q). exists acts1. split; [ exact A | ].
    split; [ exact W | discriminate ].
Qed.

End WalkRuns.

(** ** The rule runner, case by case *)

Section Runner.

Variable RegExp : Type.
Variable newRegExp : string -> Error + RegExp.
Variable settings : FileMoverSettings.
Variable walk : TAbstractFile -> RegExp -> string -> Async unit.

Local Abbreviation execute := (executeMoveRuleWith newRegExp walk).

Lemma ensureTargetFolder_outcome (rule : MoveRule) (w : World) :
  ensureTargetFolder rule w
  = (Normal (fst (targetFolderOutcome rule w)), snd (targetFolderOutcome rule w)).
Proof.
  unfold ensureTargetFolder, targetFolderOutcome, bind, vault_getAbstractFileByPath.
  destruct (getAbstractFileByPath (vault w) (targetPath rule)); [ reflexivity | ].
  unfold tryCatch, bind, vault_createFolder, newNotice, emit, ret.
  destruct (createFolder (vault w) (targetPath rule)) as [e | v']; cbn [vault trace fst snd].
  - rewrite <- app_assoc. reflexivity.
  - reflexivity.
Qed.

Lemma execute_disabled (rule : MoveRule) (w : World) :
  enabled rule = false ->
  execute rule w = (Normal tt, mkWorld (vault w) (trace w ++ [Notice (msgDisabled rule)])).
Proof. intros H. unfold executeMoveRuleWith. rewrite H. reflexivity. Qed.

Lemma execute_source_not_folder (rule : MoveRule) (w : World) :
  enabled rule = true ->
  (forall p n cs,
      getAbstractFileByPath (vault w) (sourcePath rule) <> Some (TFolder p n cs)) ->
  execute rule w
  = (Normal tt, mkWorld (vault w) (trace w ++ [Notice (msgSourceNotFound rule)])).
Proof.
  intros H Hsrc. unfold executeMoveRuleWith, bind, vault_getAbstractFileByPath. rewrite H.
  cbn [negb].
  destruct (getAbstractFileByPath (vault w) (sourcePath rule)) as [[p n | p n cs] | ] eqn:E;
    try reflexivity.
  exfalso. exact (Hsrc p n cs eq_refl).
Qed.

(** Past the source check, the invocation is the target-folder block
    followed, when that block lets it go on, by the guarded block. *)
Lemma execute_source_folder (rule : MoveRule) (w : World) p n cs :
  enabled rule = true ->
  getAbstractFileByPath (vault w) (sourcePath rule) = Some (TFolder p n cs) ->
  execute rule w
  = if fst (targetFolderOutcome rule w)
    then tryCatch
           (bind (compileRegExp newRegExp (filePattern rule))
                 (fun regex => walk (TFolder p n cs) regex (targetPath rule)))
           (fun error =>
              bind (newNotice (msgInvalidRegExp rule)) (fun _ => console_error error))
           (snd (targetFolderOutcome rule w))
    else (Normal tt, snd (targetFolderOutcome rule w)).
Proof.
  intros H Hsrc. unfold executeMoveRuleWith. rewrite H. cbn [negb].
  unfold bind at 1, vault_getAbstractFileByPath. rewrite Hsrc.
  unfold bind at 1. rewrite ensureTargetFolder_outcome.
  destruct (fst (targetFolderOutcome rule w)); reflexivity.
Qed.

Lemma guarded_compile_error (rule : MoveRule) (folder : TAbstractFile) (w : World) e :
  newRegExp (filePattern rule) = inl e ->
  tryCatch
    (bind (compileRegExp newRegExp (filePattern rule))
          (fun regex => walk folder regex (targetPath rule)))
    (fun error => bind (newNotice (msgInvalidRegExp rule)) (fun _ => console_error error)) w
  = (Normal tt,
     mkWorld (vault w) (trace w ++ [Notice (msgInvalidRegExp rule); ConsoleError e])).
Proof.
  intros H. unfold tryCatch, bind, compileRegExp, newNotice, console_error, emit.
  rewrite H. cbn [vault trace]. rewrite <- app_assoc. reflexivity.
Qed.

Lemma guarded_compiled (rule : MoveRule) (folder : TAbstractFile) (w : World) regex :
  newRegExp (filePattern rule) = inr regex ->
  tryCatch
    (bind (compileRegExp newRegExp (filePattern rule))
          (fun regex => walk folder regex (targetPath rule)))
    (fun error => bind (newNotice (msgInvalidRegExp rule)) (fun _ => console_error error)) w
  = match walk folder regex (targetPath rule) w with
    | (Normal a, w') => (Normal a, w')
    | (Abrupt e, w') =>
        (Normal tt,
         mkWorld (vault w') (trace w' ++ [Notice (msgInvalidRegExp rule); ConsoleError e]))
    end.
Proof.
  intros H. unfold tryCatch, bind, compileRegExp, newNotice, console_error, emit.
  rewrite H. destruct (walk folder regex (targetPath rule) w) as [[a | e] w'].
  - reflexivity.
  - cbn [vault trace]. rewrite <- app_assoc. reflexivity.
Qed.

(** Whatever the walk does, the invocation completes normally. *)
Lemma execute_completes (rule : MoveRule) (w : World) :
  exists w', execute rule w = (Normal tt, w').
Proof.
  destruct (enabled rule) eqn:En.
  2:{ eexists. apply execute_disabled. assumption. }
  destruct (getAbstractFileByPath (vault w) (sourcePath rule)) as [[p n | p n cs] | ] eqn:Src.
  - eexists. apply execute_source_not_folder; [ assumption | ]. congruence.
  - rewrite (execute_source_folder rule w p n cs En Src).
    destruct (fst (targetFolderOutcome rule w)); [ | eexists; reflexivity ].
    destruct (newRegExp (filePattern rule)) as [e | regex] eqn:C.
    + rewrite (guarded_compile_error rule _ _ e C). eexists; reflexivity.
    + rewrite (guarded_compiled rule _ _ regex C).
      destruct (walk (TFolder p n cs) regex (targetPath rule) (snd (targetFolderOutcome rule w)))
        as [[[] | e] w']; eexists; reflexivity.
  - eexists. apply execute_source_not_folder; [ assumption | ]. congruence.
Qed.

End Runner.

Lemma targetFolderOutcome_frame (rule : MoveRule) (w : World) q a m :
  getAbstractFileByPath (vault w) q = Some (TFile a m) ->
  getAbstractFileByPath (vault (snd (targetFolderOutcome rule w))) q = Some (TFile a m).
Proof.
  intros H. unfold targetFolderOutcome.
  destruct (getAbstractFileByPath (vault w) (targetPath rule)); [ exact H | ].
  destruct (createFolder (vault w) (targetPath rule)) as [e | v'] eqn:C; cbn [snd vault].
  - exact H.
  - apply (createFolder_resolve_file _ _ _ _ _ _ C H).
Qed.

(** Pruning a file removes it from the files listed below a folder. *)
Lemma descendantFiles_prune (p : string) (n : TAbstractFile) :
  isFolder n = true ->
  descendantFiles (prune p n)
  = filter (fun c => negb (isFileAt p c)) (descendantFiles n).
Proof.
  induction n as [q m | q m cs IH] using TAbstractFile_forall_ind; [ discriminate | ].
  intros _. cbn [prune descendantFiles].
  induction IH as [ | c cs Hc _ IHcs]; [ reflexivity | ].
  cbn [map filter flat_map]. rewrite filter_app, <- IHcs.
  destruct c as [r k | r k ds].
  - cbn [prune isFileAt descendantFiles filter].
    destruct (negb (String.eqb r p)); reflexivity.
  - change (isFileAt p (prune p (TFolder r k ds))) with false. cbn [negb flat_map].
    rewrite (Hc eq_refl). reflexivity.
Qed.

Lemma hasFolder_prune (t p : string) (n : TAbstractFile) :
  hasFolder t (prune p n) = hasFolder t n.
Proof.
  induction n as [q m | q m cs IH] using TAbstractFile_forall_ind; [ reflexivity | ].
  cbn [prune hasFolder]. f_equal.
  induction IH as [ | c cs Hc _ IHcs]; [ reflexivity | ].
  cbn [map filter existsb]. rewrite <- IHcs, <- Hc.
  destruct c as [r k | r k ds].
  - cbn [prune isFileAt]. destruct (negb (String.eqb r p)); reflexivity.
  - change (isFileAt p (prune p (TFolder r k ds))) with false. reflexivity.
Qed.

(** Grafting below a folder that is not there changes nothing. *)
Lemma graft_noop (par : string) (x n : TAbstractFile) :
  hasFolder par n = false -> graft par x n = n.
Proof.
  induction n as [q m | q m cs IH] using TAbstractFile_forall_ind; [ reflexivity | ].
  cbn [hasFolder graft]. intros H. apply orb_false_iff in H as [Hq Hcs].
  rewrite Hq. f_equal.
  induction IH as [ | c cs Hc _ IHcs]; [ reflexivity | ].
  cbn [existsb] in Hcs. apply orb_false_iff in Hcs as [H1 H2].
  cbn [map]. rewrite (Hc H1), (IHcs H2). reflexivity.
Qed.

Lemma hasFolder_graft_mono (t par : string) (x n : TAbstractFile) :
  hasFolder t n = true -> hasFolder t (graft par x n) = true.
Proof.
  induction n as [q m | q m cs IH] using TAbstractFile_forall_ind; [ discriminate | ].
  cbn [hasFolder graft]. intros H. apply orb_true_iff in H as [H | H].
  - rewrite H. reflexivity.
  - apply orb_true_iff. right.
    assert (E : existsb (hasFolder t) (map (graft par x) cs) = true).
    { induction IH as [ | c cs Hc _ IHcs]; [ discriminate | ].
      cbn [existsb map] in *. apply orb_true_iff in H as [H | H].
      - rewrite (Hc H). reflexivity.
      - rewrite (IHcs H). apply orb_true_r. }
    destruct (String.eqb q par); [ rewrite existsb_app, E; reflexivity | exact E ].
Qed.

(** The target-folder block keeps the source folder and the files below it. *)
Lemma targetFolderOutcome_source (rule : MoveRule) (w : World) a b cs :
  getAbstractFileByPath (vault w) (sourcePath rule) = Some (TFolder a b cs) ->
  exists cs1,
    getAbstractFileByPath (vault (snd (targetFolderOutcome rule w))) (sourcePath rule)
    = Some (TFolder a b cs1) /\
    descendantFiles (TFolder a b cs1) = descendantFiles (TFolder a b cs).
Proof.
  intros H. unfold targetFolderOutcome.
  destruct (getAbstractFileByPath (vault w) (targetPath rule));
    [ exists cs; split; [ exact H | reflexivity ] | ].
  destruct (createFolder (vault w) (targetPath rule)) as [e | v'] eqn:C; cbn [snd vault];
    [ exists cs; split; [ exact H | reflexivity ] | ].
  rewrite (createFolder_resolve_other _ _ _ _ _ C H).
  pose proof (descendantFiles_graft_empty (parentPath (targetPath rule))
                (TFolder (targetPath rule) (basename (targetPath rule)) [])
                (TFolder a b cs) eq_refl) as D.
  cbn [graft] in *. eexists. split; [ reflexivity | exact D ].
Qed.

Lemma targetFolderOutcome_trace (rule : MoveRule) (w : World) :
  exists pre,
    trace (snd (targetFolderOutcome rule w)) = trace w ++ pre /\
    renameCalls pre = [] /\ failedFrom pre = [].
Proof.
  unfold targetFolderOutcome.
  destruct (getAbstractFileByPath (vault w) (targetPath rule)).
  - exists []. rewrite app_nil_r. repeat split.
  - destruct (createFolder (vault w) (targetPath rule)); cbn [snd trace];
      eexists; repeat split.
Qed.

(** ** What holds along a run *)

Lemma removeAt_incl {A : Type} (i : nat) (l : list A) :
  incl (firstn i l ++ skipn (S i) l) l.
Proof.
  revert l. induction i as [ | i IH]; intros [ | a l]; cbn [firstn skipn app].
  - intros x [].
  - intros x Hx. right. exact Hx.
  - intros x [].
  - intros x [<- | Hx]; [ left; reflexivity | right; exact (IH l x Hx) ].
Qed.

Lemma removeAt_perm {A : Type} (i : nat) (l : list A) (m : A) :
  nth_error l i = Some m -> Permutation l (m :: firstn i l ++ skipn (S i) l).
Proof.
  revert l. induction i as [ | i IH]; intros [ | a l]; cbn [nth_error firstn skipn app];
    try discriminate.
  - intros [= <-]. reflexivity.
  - intros H. rewrite (IH l H) at 1. apply perm_swap.
Qed.

Lemma wellFormed_names (v : Vault) : wellFormed v -> namesFollowPaths v.
Proof. intros Wf x Hx. exact (proj2 (Wf x Hx)). Qed.

Lemma rename_names (v : Vault) (f : TAbstractFile) (np : string) f' v' :
  rename v f np = inr (f', v') -> namesFollowPaths v -> namesFollowPaths v'.
Proof.
  intros R Wf y Hy Hfile.
  destruct (rename_inr _ _ _ _ _ R) as (nm & a & m & _ & _ & _ & _ & Hf' & Hv').
  rewrite Hv' in Hy. apply allNodes_graftVault in Hy as [Hy | (x1 & Hx1 & ->)].
  - rewrite Hf' in Hy. destruct Hy as [<- | []]. reflexivity.
  - apply allNodes_pruneVault in Hx1 as (x & Hx & -> & _).
    destruct x as [q k | q k cs]; [ | discriminate ].
    exact (Wf _ Hx eq_refl).
Qed.

Section RunInvariants.

Variable RegExp : Type.
Variable test : RegExp -> string -> bool.
Variable settings : FileMoverSettings.
Variable pattern : RegExp.
Variable targetPath : string.

Local Abbreviation run := (performAll settings targetPath).
Local Abbreviation step := (perform settings targetPath).
Local Abbreviation ok := (allowed test settings pattern targetPath).
Local Abbreviation fromWalk := (walkMove test pattern targetPath).
Local Abbreviation destination := (fun child : TAbstractFile => targetPath +++ "/" +++ name child).
Local Abbreviation without := (fun (i : nat) (q : list Move) => firstn i q ++ skipn (S i) q).

(** What one operation does. *)
Lemma step_cases (a : Operation) (st : list Move * Vault) :
  (exists child,
      a = Test child /\ step a st = ([PatternTest (path child) (name child)], st)) \/
  (exists child,
      a = Call child /\
      step a st = ([MoveFile (path child) (destination child)],
                   (fst st ++ [mkMove child (destination child)], snd st))) \/
  (exists ps, a = Return ps /\ step a st = ([AwaitAll ps], st)) \/
  (exists i, a = Settle i /\ nth_error (fst st) i = None /\ step a st = ([], st)) \/
  (exists i m e,
      a = Settle i /\ nth_error (fst st) i = Some m /\
      rename (snd st) (moving m) (toPath m) = inl e /\
      step a st
      = ([Rename (path (moving m)) (toPath m) false;
          ConsoleError ("Failed to move file: " +++ path (moving m) +++ " " +++ e);
          Notice ("Failed to move file: " +++ path (moving m))],
         (without i (fst st), snd st))) \/
  (exists i m c' v',
      a = Settle i /\ nth_error (fst st) i = Some m /\
      rename (snd st) (moving m) (toPath m) = inr (c', v') /\
      step a st
      = (Rename (path (moving m)) (toPath m) true ::
         (if showMoveNotification settings
          then [Notice ("Moved file: " +++ toPath m +++ " -> " +++ toPath m)]
          else []) ++
         [ConsoleLog ("Moved file: " +++ toPath m +++ " -> " +++ toPath m)],
         (without i (fst st), v'))).
Proof.
  destruct a as [child | child | i | ps].
  - left. exists child. split; reflexivity.
  - right. left. exists child. split; reflexivity.
  - do 3 right. destruct (nth_error (fst st) i) as [m | ] eqn:E.
    + right.
      destruct (rename (snd st) (moving m) (toPath m)) as [e | [c' v']] eqn:R.
      * left. exists i, m, e. split; [ reflexivity | ]. split; [ exact E | ].
        split; [ exact R | ]. cbn [perform]. rewrite E. unfold moveEffect. rewrite R.
        reflexivity.
      * right. exists i, m, c', v'. split; [ reflexivity | ]. split; [ exact E | ].
        split; [ exact R | ]. cbn [perform]. rewrite E. unfold moveEffect. rewrite R.
        rewrite (rename_path_of_result _ _ _ _ _ R). reflexivity.
    + left. exists i. split; [ reflexivity | ]. split; [ exact E | ].
      cbn [perform]. rewrite E. reflexivity.
  - right. right. left. exists ps. split; reflexivity.
Qed.

(** Induction along a run, whatever the tree. *)
Lemma run_ind0 (P : list Event -> list Move * Vault -> Prop) :
  (forall tr st a, P tr st -> P (tr ++ fst (step a st)) (snd (step a st))) ->
  forall acts st, P [] st -> P (fst (run acts st)) (snd (run acts st)).
Proof.
  intros Hstep acts st H0.
  enough (G : forall tr, P tr st -> P (tr ++ fst (run acts st)) (snd (run acts st)))
    by exact (G [] H0).
  clear H0. revert st. induction acts as [ | a acts IH]; intros st tr H.
  - cbn [performAll fst snd]. rewrite app_nil_r. exact H.
  - rewrite run_cons. cbn [fst snd]. rewrite app_assoc. apply IH. apply Hstep. exact H.
Qed.

(** The moves in flight are moves made by the walk, and the names of the
    files follow their paths. *)
Lemma step_good (a : Operation) (st : list Move * Vault) :
  namesFollowPaths (snd st) -> Forall fromWalk (fst st) ->
  permitted test pattern a st ->
  namesFollowPaths (snd (snd (step a st))) /\ Forall fromWalk (fst (snd (step a st))).
Proof.
  intros Wf Hq Hp.
  assert (Hwithout : forall i, Forall fromWalk (without i (fst st))).
  { intros i. apply Forall_forall. intros m Hm.
    exact (proj1 (Forall_forall _ _) Hq m (removeAt_incl i _ m Hm)). }
  destruct (step_cases a st)
    as [(child & -> & E) | [(child & -> & E) | [(ps & -> & E) | [(i & -> & _ & E)
       | [(i & m & e & -> & _ & _ & E) | (i & m & c' & v' & -> & _ & R & E)]]]]];
    rewrite E; cbn [fst snd]; try (split; [ assumption | ]; try assumption; try apply Hwithout).
  - destruct Hp as (Hin & Hfile & T). apply Forall_app. split; [ assumption | ].
    constructor; [ | constructor ]. unfold walkMove. cbn [moving toPath].
    repeat split; try assumption. exact (Wf child Hin Hfile).
  - split; [ exact (rename_names _ _ _ _ _ R Wf) | apply Hwithout ].
Qed.

(** Induction along a run in a tree whose names follow the paths. *)
Lemma run_ind (P : list Event -> list Move * Vault -> Prop) :
  (forall tr st a,
      namesFollowPaths (snd st) -> Forall fromWalk (fst st) ->
      permitted test pattern a st ->
      P tr st -> P (tr ++ fst (step a st)) (snd (step a st))) ->
  forall acts st,
    namesFollowPaths (snd st) -> Forall fromWalk (fst st) -> ok acts st ->
    P [] st -> P (fst (run acts st)) (snd (run acts st)).
Proof.
  intros Hstep acts st Wf Hq Hok H0.
  enough (G : forall tr, P tr st -> P (tr ++ fst (run acts st)) (snd (run acts st)))
    by exact (G [] H0).
  clear H0. revert st Wf Hq Hok. induction acts as [ | a acts IH]; intros st Wf Hq Hok tr H.
  - cbn [performAll fst snd]. rewrite app_nil_r. exact H.
  - destruct Hok as [Hp Hok]. rewrite run_cons. cbn [fst snd]. rewrite app_assoc.
    destruct (step_good a st Wf Hq Hp) as [Wf' Hq'].
    apply IH; try assumption. apply Hstep; assumption.
Qed.

Lemma run_good (acts : list Operation) (st : list Move * Vault) :
  namesFollowPaths (snd st) -> Forall fromWalk (fst st) -> ok acts st ->
  namesFollowPaths (snd (snd (run acts st))) /\ Forall fromWalk (fst (snd (run acts st))).
Proof.
  intros Wf Hq Hok.
  apply (run_ind (fun _ st => namesFollowPaths (snd st) /\ Forall fromWalk (fst st)));
    try assumption; [ | split; assumption ].
  intros tr st' a Wf' Hq' Hp _. exact (step_good a st' Wf' Hq' Hp).
Qed.

End RunInvariants.

(** ** What the moves of a run do to the tree *)

Section MoveInvariants.

Variable RegExp : Type.
Variable test : RegExp -> string -> bool.
Variable settings : FileMoverSettings.
Variable pattern : RegExp.
Variable targetPath : string.

Local Abbreviation run := (performAll settings targetPath).
Local Abbreviation step := (perform settings targetPath).
Local Abbreviation ok := (allowed test settings pattern targetPath).
Local Abbreviation fromWalk := (walkMove test pattern targetPath).

Ltac step_cases a st :=
  destruct (step_cases settings targetPath a st)
    as [(?child & ?Ea & ?E) | [(?child & ?Ea & ?E) | [(?ps & ?Ea & ?E) | [(?i & ?Ea & ?Hnth & ?E)
       | [(?i & ?m & ?e & ?Ea & ?Hnth & ?R & ?E) | (?i & ?m & ?c' & ?v' & ?Ea & ?Hnth & ?R & ?E)]]]]];
  rewrite E in *; cbn [fst snd] in *.

(** A move of the walk goes to the target joined with the base name of the
    path it comes from. *)
Lemma walkMove_destination (m : Move) :
  fromWalk m ->
  toPath m = targetPath +++ "/" +++ basename (path (moving m)) /\
  test pattern (basename (path (moving m))) = true.
Proof. intros (_ & Hn & Ht & T). rewrite Hn in Ht, T. split; assumption. Qed.

(** No file leaves the target by a move of the walk: it would be moved onto
    itself, which the vault refuses. *)
Lemma no_departure (m : Move) (v : Vault) c' v' (n : string) :
  fromWalk m ->
  rename v (moving m) (toPath m) = inr (c', v') ->
  noSlash n = true ->
  targetPath +++ "/" +++ n <> path (moving m).
Proof.
  intros Hm R Hn E. destruct (walkMove_destination m Hm) as [Ht _].
  rewrite <- E, (basename_join targetPath n Hn) in Ht.
  apply rename_from_ne_to in R. apply R. rewrite Ht, E. reflexivity.
Qed.

(** What every successful rename keeps, a run keeps. *)
Lemma run_preserves (I : Vault -> Prop) :
  (forall v f np f' v', rename v f np = inr (f', v') -> I v -> I v') ->
  forall acts st, I (snd st) -> I (snd (snd (run acts st))).
Proof.
  intros Hren acts st H0.
  apply (run_ind0 settings targetPath (fun _ st => I (snd st))); [ | exact H0 ].
  clear H0 st. intros _ st a H. step_cases a st; try assumption.
  exact (Hren _ _ _ _ _ R H).
Qed.

(** Frame: a file at a path from which no move succeeds is still there. *)
Lemma run_frame (acts : list Operation) (st : list Move * Vault) q a m :
  getAbstractFileByPath (snd st) q = Some (TFile a m) ->
  ~ In q (movedFrom (fst (run acts st))) ->
  getAbstractFileByPath (snd (snd (run acts st))) q = Some (TFile a m).
Proof.
  intros H0.
  apply (run_ind0 settings targetPath
           (fun tr st => ~ In q (movedFrom tr) ->
                         getAbstractFileByPath (snd st) q = Some (TFile a m)));
    [ | intros _; exact H0 ].
  clear. intros tr st op H Hnot. rewrite movedFrom_app in Hnot.
  assert (H' : getAbstractFileByPath (snd st) q = Some (TFile a m)).
  { apply H. intros Hin. apply Hnot. apply in_or_app. left. exact Hin. }
  step_cases op st; try assumption.
  apply (rename_resolve_file _ _ _ _ _ _ _ _ R); [ | exact H' ].
  intros ->. apply Hnot. apply in_or_app. right. left. reflexivity.
Qed.

(** The events of a run are those of the walk: none is a [createFolder]
    call. *)
Lemma run_events (acts : list Operation) (st : list Move * Vault) (ev : Event) :
  In ev (fst (run acts st)) ->
  match ev with
  | CreateFolder _ => False
  | Notice msg =>
      (exists t, msg = "Moved file: " +++ t) \/ (exists f, msg = "Failed to move file: " +++ f)
  | _ => True
  end.
Proof.
  apply (run_ind0 settings targetPath
           (fun tr _ => In ev tr ->
              match ev with
              | CreateFolder _ => False
              | Notice msg =>
                  (exists t, msg = "Moved file: " +++ t) \/
                  (exists f, msg = "Failed to move file: " +++ f)
              | _ => True
              end)); [ | intros [] ].
  clear. intros tr st op H Hin. apply in_app_or in Hin as [Hin | Hin]; [ exact (H Hin) | ].
  clear H. step_cases op st.
  - destruct Hin as [<- | []]. exact I.
  - destruct Hin as [<- | []]. exact I.
  - destruct Hin as [<- | []]. exact I.
  - destruct Hin.
  - destruct Hin as [<- | [<- | [<- | []]]]; try exact I. right. eexists. reflexivity.
  - destruct Hin as [<- | Hin]; [ exact I | ].
    destruct (showMoveNotification settings); cbn [app] in Hin.
    + destruct Hin as [<- | [<- | []]]; try exact I. left. eexists. reflexivity.
    + destruct Hin as [<- | []]. exact I.
Qed.

(** Every move that is settled was called, and every move called is settled
    or still in flight. *)
Lemma run_conservation (acts : list Operation) (st : list Move * Vault) :
  Permutation
    (renameCalls (fst (run acts st)) ++ map callOf (fst (snd (run acts st))))
    (map callOf (fst st) ++ moveCalls (fst (run acts st))).
Proof.
  apply (run_ind0 settings targetPath
           (fun tr st' =>
              Permutation (renameCalls tr ++ map callOf (fst st'))
                (map callOf (fst st) ++ moveCalls tr))).
  2:{ cbn [renameCalls moveCalls flat_map app]. rewrite app_nil_r. reflexivity. }
  generalize (map callOf (fst st)). clear. intros q0 tr st op H.
  rewrite renameCalls_app, moveCalls_app.
  assert (Hsettle : forall i m,
             nth_error (fst st) i = Some m ->
             Permutation
               ((renameCalls tr ++ [callOf m]) ++
                map callOf (firstn i (fst st) ++ skipn (S i) (fst st)))
               (q0 ++ moveCalls tr ++ [])).
  { intros i m Hnth. rewrite app_nil_r.
    eapply Permutation_trans; [ | exact H ]. rewrite <- app_assoc.
    apply Permutation_app_head. cbn [app].
    change (callOf m :: map callOf (firstn i (fst st) ++ skipn (S i) (fst st)))
      with (map callOf (m :: firstn i (fst st) ++ skipn (S i) (fst st))).
    apply Permutation_map, Permutation_sym, removeAt_perm. exact Hnth. }
  step_cases op st; cbn [renameCalls moveCalls flat_map app]; rewrite ?app_nil_r.
  - exact H.
  - rewrite map_app, !app_assoc. apply Permutation_app_tail. exact H.
  - exact H.
  - exact H.
  - rewrite <- (app_nil_r (moveCalls tr)). exact (Hsettle i m Hnth).
  - destruct (showMoveNotification settings); cbn [flat_map app];
      exact (Hsettle i m Hnth).
Qed.

(** Each rename that is settled is followed at once by its report. *)
Lemma run_reports (acts : list Operation) (st : list Move * Vault) :
  reportsFollow (showMoveNotification settings) (fst (run acts st)).
Proof.
  apply (run_ind0 settings targetPath
           (fun tr _ => reportsFollow (showMoveNotification settings) tr)); [ | exact I ].
  clear. intros tr st op H. apply reportsFollow_app; [ exact H | ]. clear H.
  step_cases op st; cbn [reportsFollow]; try exact I.
  - split; [ | exact I ]. eexists _, _. reflexivity.
  - destruct (showMoveNotification settings); cbn [app reportsFollow];
      (split; [ | exact I ]); eexists; reflexivity.
Qed.

(** One console line for each rename settled, and the notices. *)
Lemma run_lines (acts : list Operation) (st : list Move * Vault) :
  length (consoleLines (fst (run acts st))) = length (renameCalls (fst (run acts st))) /\
  (showMoveNotification settings = true ->
   length (notices (fst (run acts st))) = length (renameCalls (fst (run acts st)))) /\
  (showMoveNotification settings = false ->
   notices (fst (run acts st))
   = map (fun f => "Failed to move file: " +++ f) (failedFrom (fst (run acts st)))).
Proof.
  apply (run_ind0 settings targetPath
           (fun tr _ =>
              length (consoleLines tr) = length (renameCalls tr) /\
              (showMoveNotification settings = true ->
               length (notices tr) = length (renameCalls tr)) /\
              (showMoveNotification settings = false ->
               notices tr = map (fun f => "Failed to move file: " +++ f) (failedFrom tr)))).
  2:{ repeat split; reflexivity. }
  clear. intros tr st op (H1 & H2 & H3).
  rewrite consoleLines_app, renameCalls_app, notices_app, failedFrom_app, map_app,
    !length_app.
  step_cases op st; cbn [consoleLines renameCalls notices failedFrom flat_map app map length];
    rewrite ?app_nil_r, ?Nat.add_0_r.
  1-4: repeat split; assumption.
  - split; [ lia | ]. split.
    + intros On. specialize (H2 On). lia.
    + intros Off. rewrite (H3 Off). reflexivity.
  - destruct (showMoveNotification settings);
      cbn [consoleLines renameCalls notices failedFrom flat_map app map length];
      rewrite ?app_nil_r.
    + split; [ lia | ]. split; [ intros _; specialize (H2 eq_refl); lia | discriminate ].
    + split; [ lia | ]. split; [ discriminate | ]. intros _. exact (H3 eq_refl).
Qed.

(** A rename that is settled goes to the target joined with the base name
    of the path it comes from, and that name passes the test. *)
Lemma run_shape (acts : list Operation) (st : list Move * Vault) :
  namesFollowPaths (snd st) -> Forall fromWalk (fst st) -> ok acts st ->
  forall from to okay,
    In (Rename from to okay) (fst (run acts st)) ->
    to = targetPath +++ "/" +++ basename from /\ test pattern (basename from) = true.
Proof.
  intros Wf Hq Hok.
  apply (run_ind _ test settings pattern targetPath
           (fun tr _ => forall from to okay,
                In (Rename from to okay) tr ->
                to = targetPath +++ "/" +++ basename from /\
                test pattern (basename from) = true));
    try assumption; [ | intros ? ? ? [] ].
  clear. intros tr st op _ Hq _ H from to okay Hin.
  apply in_app_or in Hin as [Hin | Hin]; [ exact (H _ _ _ Hin) | ]. clear H.
  step_cases op st.
  - destruct Hin as [Hin | []]. discriminate.
  - destruct Hin as [Hin | []]. discriminate.
  - destruct Hin as [Hin | []]. discriminate.
  - destruct Hin.
  - destruct Hin as [Hin | [Hin | [Hin | []]]]; try discriminate.
    injection Hin as <- <- <-. apply walkMove_destination.
    exact (proj1 (Forall_forall _ _) Hq m (nth_error_In _ _ Hnth)).
  - destruct Hin as [Hin | Hin].
    + injection Hin as <- <- <-. apply walkMove_destination.
      exact (proj1 (Forall_forall _ _) Hq m (nth_error_In _ _ Hnth)).
    + exfalso. destruct (showMoveNotification settings); cbn [app] in Hin.
      * destruct Hin as [Hin | [Hin | []]]; discriminate.
      * destruct Hin as [Hin | []]; discriminate.
Qed.

(** A move is called for a file whose name passes the test, to the target
    joined with the base name of its path. *)
Lemma run_calls (acts : list Operation) (st : list Move * Vault) :
  namesFollowPaths (snd st) -> Forall fromWalk (fst st) -> ok acts st ->
  forall from to,
    In (MoveFile from to) (fst (run acts st)) ->
    to = targetPath +++ "/" +++ basename from /\ test pattern (basename from) = true.
Proof.
  intros Wf Hq Hok.
  apply (run_ind _ test settings pattern targetPath
           (fun tr _ => forall from to,
                In (MoveFile from to) tr ->
                to = targetPath +++ "/" +++ basename from /\
                test pattern (basename from) = true));
    try assumption; [ | intros ? ? [] ].
  clear. intros tr st op Wf _ Hp H from to Hin.
  apply in_app_or in Hin as [Hin | Hin]; [ exact (H _ _ Hin) | ]. clear H.
  step_cases op st.
  - destruct Hin as [Hin | []]. discriminate.
  - destruct Hin as [Hin | []]. injection Hin as <- <-. subst op.
    destruct Hp as (Hc & Hfile & T). rewrite <- (Wf child Hc Hfile). split; [ reflexivity | exact T ].
  - destruct Hin as [Hin | []]. discriminate.
  - destruct Hin.
  - destruct Hin as [Hin | [Hin | [Hin | []]]]; discriminate.
  - destruct Hin as [Hin | Hin]; [ discriminate | ].
    exfalso. destruct (showMoveNotification settings); cbn [app] in Hin.
    + destruct Hin as [Hin | [Hin | []]]; discriminate.
    + destruct Hin as [Hin | []]; discriminate.
Qed.

End MoveInvariants.

(** ** Where the moved files are, and why a move fails *)

Lemma NoDup_snoc {A : Type} (l : list A) (x : A) :
  NoDup l -> ~ In x l -> NoDup (l ++ [x]).
Proof.
  intros Hl Hx. apply (Permutation_NoDup (l := x :: l)).
  - apply Permutation_cons_append.
  - constructor; assumption.
Qed.



Section Arrival.

Variable RegExp : Type.
Variable test : RegExp -> string -> bool.
Variable settings : FileMoverSettings.
Variable pattern : RegExp.
Variable targetPath : string.

Local Abbreviation run := (performAll settings targetPath).
Local Abbreviation step := (perform settings targetPath).
Local Abbreviation ok := (allowed test settings pattern targetPath).
Local Abbreviation fromWalk := (walkMove test pattern targetPath).

Ltac step_cases a st :=
  destruct (step_cases settings targetPath a st)
    as [(?child & ?Ea & ?E) | [(?child & ?Ea & ?E) | [(?ps & ?Ea & ?E) | [(?i & ?Ea & ?Hnth & ?E)
       | [(?i & ?m & ?e & ?Ea & ?Hnth & ?R & ?E) | (?i & ?m & ?c' & ?v' & ?Ea & ?Hnth & ?R & ?E)]]]]];
  rewrite E in *; cbn [fst snd] in *.

(** The successful renames among the events of one operation. *)
Lemma step_moved (op : Operation) (st : list Move * Vault) (from to : string) :
  In (Rename from to true) (fst (step op st)) ->
  exists i m c',
    op = Settle i /\ nth_error (fst st) i = Some m /\
    rename (snd st) (moving m) (toPath m) = inr (c', snd (snd (step op st))) /\
    from = path (moving m) /\ to = toPath m.
Proof.
  intros Hin. step_cases op st.
  - destruct Hin as [Hin | []]. discriminate.
  - destruct Hin as [Hin | []]. discriminate.
  - destruct Hin as [Hin | []]. discriminate.
  - destruct Hin.
  - destruct Hin as [Hin | [Hin | [Hin | []]]]; discriminate.
  - destruct Hin as [Hin | Hin].
    + injection Hin as <- <-. exists i, m, c'. repeat split; assumption.
    + exfalso. destruct (showMoveNotification settings); cbn [app] in Hin.
      * destruct Hin as [Hin | [Hin | []]]; discriminate.
      * destruct Hin as [Hin | []]; discriminate.
Qed.

(** When no rename of an operation succeeds the tree is as it was. *)
Lemma step_still (op : Operation) (st : list Move * Vault) :
  movedTo (fst (step op st)) = [] -> snd (snd (step op st)) = snd st.
Proof.
  intros H. step_cases op st; try reflexivity. discriminate.
Qed.

Lemma step_movedTo (op : Operation) (st : list Move * Vault) (to : string) :
  In to (movedTo (fst (step op st))) <->
  exists from, In (Rename from to true) (fst (step op st)).
Proof. apply movedTo_In. Qed.

(** Arrival: a file whose move has succeeded is a direct child of the folder
    part of its new path, under that path. *)
Lemma run_arrival (acts : list Operation) (st : list Move * Vault) :
  namesFollowPaths (snd st) -> Forall fromWalk (fst st) -> ok acts st ->
  forall from to,
    In (Rename from to true) (fst (run acts st)) ->
    to = targetPath +++ "/" +++ basename from /\
    getAbstractFileByPath (snd (snd (run acts st))) to = Some (TFile to (basename to)) /\
    childOf (snd (snd (run acts st))) (parentPath to) (TFile to (basename to)).
Proof.
  intros Wf Hq Hok.
  apply (run_ind _ test settings pattern targetPath
           (fun tr st =>
              forall from to,
                In (Rename from to true) tr ->
                to = targetPath +++ "/" +++ basename from /\
                getAbstractFileByPath (snd st) to = Some (TFile to (basename to)) /\
                childOf (snd st) (parentPath to) (TFile to (basename to))));
    try assumption; [ | intros ? ? [] ].
  clear. intros tr st op _ Hq _ H from to Hin.
  apply in_app_or in Hin as [Hin | Hin].
  - destruct (H _ _ Hin) as (Hto & Hres & Hchild). split; [ exact Hto | ].
    destruct (movedTo (fst (step op st))) as [ | t ts] eqn:Em.
    + rewrite (step_still op st Em). split; assumption.
    + assert (Ht : In t (movedTo (fst (step op st)))) by (rewrite Em; left; reflexivity).
      apply step_movedTo in Ht as (f & Ht).
      apply step_moved in Ht as (i & m & c' & _ & Hnth & R & _ & _).
      assert (Hm : fromWalk m)
        by exact (proj1 (Forall_forall _ _) Hq m (nth_error_In _ _ Hnth)).
      assert (Hne : to <> path (moving m)).
      { rewrite Hto. exact (no_departure _ test pattern targetPath m _ _ _ _ Hm R
                              (noSlash_basename from)). }
      split.
      * exact (rename_resolve_file _ _ _ _ _ _ _ _ R Hne Hres).
      * exact (rename_childOf_other _ _ _ _ _ _ _ _ R Hne Hchild).
  - apply step_moved in Hin as (i & m & c' & _ & Hnth & R & -> & ->).
    assert (Hm : fromWalk m)
      by exact (proj1 (Forall_forall _ _) Hq m (nth_error_In _ _ Hnth)).
    split; [ exact (proj1 (walkMove_destination _ test pattern targetPath m Hm)) | ].
    split; [ exact (rename_resolve_new _ _ _ _ _ R) | ].
    pose proof (rename_childOf_new _ _ _ _ _ R) as C.
    apply rename_inr in R as (_ & _ & _ & _ & _ & _ & _ & -> & _). exact C.
Qed.

(** A move of the walk never replaces an entry. *)
Lemma run_never_overwrites (acts : list Operation) (st : list Move * Vault) :
  namesFollowPaths (snd st) -> Forall fromWalk (fst st) -> ok acts st ->
  (forall from to,
      In (Rename from to true) (fst (run acts st)) ->
      getAbstractFileByPath (snd st) to = None) /\
  NoDup (movedTo (fst (run acts st))).
Proof.
  intros Wf Hq Hok.
  enough (G : (forall from to,
                  In (Rename from to true) (fst (run acts st)) ->
                  getAbstractFileByPath (snd st) to = None) /\
              NoDup (movedTo (fst (run acts st))) /\
              (forall n,
                  noSlash n = true ->
                  getAbstractFileByPath (snd st) (targetPath +++ "/" +++ n) <> None \/
                  In (targetPath +++ "/" +++ n) (movedTo (fst (run acts st))) ->
                  getAbstractFileByPath (snd (snd (run acts st))) (targetPath +++ "/" +++ n)
                  <> None)) by tauto.
  apply (run_ind _ test settings pattern targetPath
           (fun tr st' =>
              (forall from to,
                  In (Rename from to true) tr ->
                  getAbstractFileByPath (snd st) to = None) /\
              NoDup (movedTo tr) /\
              (forall n,
                  noSlash n = true ->
                  getAbstractFileByPath (snd st) (targetPath +++ "/" +++ n) <> None \/
                  In (targetPath +++ "/" +++ n) (movedTo tr) ->
                  getAbstractFileByPath (snd st') (targetPath +++ "/" +++ n) <> None)));
    try assumption.
  2:{ split; [ intros ? ? [] | ]. split; [ constructor | ].
      intros n _ [H | []]. exact H. }
  generalize (snd st) as v0. clear. intros v0 tr st op _ Hq _ (H1 & H2 & H3).
  destruct (movedTo (fst (step op st))) as [ | t ts] eqn:Em.
  - rewrite movedTo_app, Em, app_nil_r, (step_still op st Em).
    split; [ | split; assumption ].
    intros from to Hin. apply in_app_or in Hin as [Hin | Hin]; [ exact (H1 _ _ Hin) | ].
    exfalso. assert (Hto : In to (movedTo (fst (step op st))))
      by (apply movedTo_In; exists from; exact Hin).
    rewrite Em in Hto. destruct Hto.
  - assert (Ht : In t (movedTo (fst (step op st)))) by (rewrite Em; left; reflexivity).
    apply step_movedTo in Ht as (f & Ht).
    apply step_moved in Ht as (i & m & c' & Eop & Hnth & R & _ & _).
    assert (Hm : fromWalk m)
      by exact (proj1 (Forall_forall _ _) Hq m (nth_error_In _ _ Hnth)).
    destruct (walkMove_destination _ test pattern targetPath m Hm) as [Hto _].
    assert (Hev : movedTo (fst (step op st)) = [toPath m]).
    { clear -Eop Hnth R. subst op. step_cases (Settle i) st; try discriminate.
      - injection Ea as <-. congruence.
      - injection Ea as <-. rewrite Hnth in Hnth0. injection Hnth0 as <-. congruence.
      - injection Ea as <-. rewrite Hnth in Hnth0. injection Hnth0 as <-.
        destruct (showMoveNotification settings); reflexivity. }
    assert (Hfree : getAbstractFileByPath (snd st) (toPath m) = None)
      by (apply rename_inr in R as (_ & _ & _ & _ & _ & Hnp & _); exact Hnp).
    assert (Hnew : getAbstractFileByPath v0 (toPath m) = None /\ ~ In (toPath m) (movedTo tr)).
    { rewrite Hto in Hfree |- *. split.
      - destruct (getAbstractFileByPath v0 (targetPath +++ "/" +++ basename (path (moving m))))
          eqn:E0; [ exfalso | reflexivity ].
        apply (H3 (basename (path (moving m))) (noSlash_basename _));
          [ left; rewrite E0; discriminate | exact Hfree ].
      - intros Hin. apply (H3 (basename (path (moving m))) (noSlash_basename _));
          [ right; exact Hin | exact Hfree ]. }
    rewrite movedTo_app, Hev. split; [ | split ].
    + intros from to Hin. apply in_app_or in Hin as [Hin | Hin]; [ exact (H1 _ _ Hin) | ].
      apply step_moved in Hin as (i' & m' & c'' & Eop' & Hnth' & _ & _ & ->).
      rewrite Eop in Eop'. injection Eop' as <-. rewrite Hnth in Hnth'.
      injection Hnth' as <-. exact (proj1 Hnew).
    + apply NoDup_snoc; [ exact H2 | exact (proj2 Hnew) ].
    + intros n Hn Hor.
      destruct (String.eqb_spec (targetPath +++ "/" +++ n) (toPath m)) as [En | En].
      * rewrite En, (rename_resolve_new _ _ _ _ _ R). discriminate.
      * assert (Hold : getAbstractFileByPath (snd st) (targetPath +++ "/" +++ n) <> None).
        { apply (H3 n Hn). destruct Hor as [Hor | Hor]; [ left; exact Hor | right ].
          apply in_app_or in Hor as [Hor | [Hor | []]]; [ exact Hor | congruence ]. }
        destruct (getAbstractFileByPath (snd st) (targetPath +++ "/" +++ n)) as [x | ] eqn:Ex;
          [ | contradiction ].
        rewrite (rename_resolve_other _ _ _ _ _ _ _ R
                   (no_departure _ test pattern targetPath m _ _ _ n Hm R Hn) Ex).
        discriminate.
Qed.

End Arrival.

(** ** A move fails only when its destination is taken *)

Section Isolation.

Variable RegExp : Type.
Variable test : RegExp -> string -> bool.
Variable settings : FileMoverSettings.
Variable pattern : RegExp.
Variable targetPath : string.

Local Abbreviation run := (performAll settings targetPath).
Local Abbreviation step := (perform settings targetPath).
Local Abbreviation ok := (allowed test settings pattern targetPath).
Local Abbreviation fromWalk := (walkMove test pattern targetPath).

Ltac step_cases a st :=
  destruct (step_cases settings targetPath a st)
    as [(?child & ?Ea & ?E) | [(?child & ?Ea & ?E) | [(?ps & ?Ea & ?E) | [(?i & ?Ea & ?Hnth & ?E)
       | [(?i & ?m & ?e & ?Ea & ?Hnth & ?R & ?E) | (?i & ?m & ?c' & ?v' & ?Ea & ?Hnth & ?R & ?E)]]]]];
  rewrite E in *; cbn [fst snd] in *.

Lemma run_wellFormed (acts : list Operation) (st : list Move * Vault) :
  wellFormed (snd st) -> wellFormed (snd (snd (run acts st))).
Proof.
  apply (run_preserves settings targetPath wellFormed).
  intros v f np f' v' R. exact (rename_wellFormed _ _ _ _ _ R).
Qed.




End Isolation.

(** ** The shape of a walk: tests, calls and awaits *)

Lemma existsb_eqb_In (f : string) (l : list string) :
  existsb (String.eqb f) l = true <-> In f l.
Proof.
  rewrite existsb_exists. split.
  - intros (x & Hx & E). apply String.eqb_eq in E. subst x. exact Hx.
  - intros H. exists f. split; [ exact H | apply String.eqb_refl ].
Qed.

Lemma everyMoveAwaitedBut_all (others : list string) (tr : list Event) :
  (forall f t okay, In (Rename f t okay) tr -> In f others) ->
  everyMoveAwaitedBut others tr = true.
Proof.
  induction tr as [ | e tr IH]; intros H; [ reflexivity | ].
  assert (IH' : everyMoveAwaitedBut others tr = true).
  { apply IH. intros f t okay Hin. apply (H f t okay). right. exact Hin. }
  destruct e as [ | | | | f t okay | | | ]; cbn [everyMoveAwaitedBut]; try exact IH'.
  rewrite IH'. rewrite (proj2 (existsb_eqb_In f others) (H f t okay (or_introl eq_refl))).
  rewrite orb_true_r. reflexivity.
Qed.

Lemma everyMoveAwaitedBut_app (others : list string) (t1 t2 : list Event) :
  everyMoveAwaitedBut others t1 = true ->
  everyMoveAwaitedBut others t2 = true ->
  everyMoveAwaitedBut others (t1 ++ t2) = true.
Proof.
  intros H1 H2. induction t1 as [ | e t1 IH]; [ exact H2 | ].
  destruct e as [ | | | | f t okay | | | ]; cbn [everyMoveAwaitedBut app] in *;
    try (apply IH; exact H1).
  apply andb_true_iff in H1 as [Ha H1]. rewrite (IH H1), existsb_app.
  apply orb_true_iff in Ha as [Ha | Ha]; rewrite Ha; cbn; rewrite ?orb_true_r; reflexivity.
Qed.

(** A move left aside is awaited after all when the trace ends with the
    return of a [Promise.all] that waits for it. *)
Lemma everyMoveAwaitedBut_end (o1 o2 ps : list string) (pre : list Event) :
  everyMoveAwaitedBut o1 (pre ++ [AwaitAll ps]) = true ->
  (forall f, In f o1 -> In f o2 \/ In f ps) ->
  everyMoveAwaitedBut o2 (pre ++ [AwaitAll ps]) = true.
Proof.
  intros H Ho. induction pre as [ | e pre IH]; [ reflexivity | ].
  destruct e as [ | | | | f t okay | | | ]; cbn [everyMoveAwaitedBut app] in *;
    try (apply IH; exact H).
  apply andb_true_iff in H as [Ha H]. rewrite (IH H), andb_true_r.
  apply orb_true_iff in Ha as [Ha | Ha]; [ rewrite Ha; reflexivity | ].
  apply existsb_eqb_In in Ha. destruct (Ho f Ha) as [Hf | Hf].
  - rewrite (proj2 (existsb_eqb_In f o2) Hf). apply orb_true_r.
  - rewrite existsb_app. cbn [existsb awaits].
    rewrite (proj2 (existsb_eqb_In f ps) Hf). cbn. rewrite orb_true_r. reflexivity.
Qed.

Section Settlings.

Variable settings : FileMoverSettings.
Variable targetPath : string.

Local Abbreviation run := (performAll settings targetPath).
Local Abbreviation step := (perform settings targetPath).

(** A run of settlings: the moves left were in flight, and the events are
    renames of moves that were in flight, and reports. *)
Lemma settlings (picks : list nat) (st : list Move * Vault) :
  incl (fst (snd (run (map Settle picks) st))) (fst st) /\
  (forall f t okay,
      In (Rename f t okay) (fst (run (map Settle picks) st)) ->
      In f (map (fun m => path (moving m)) (fst st))) /\
  awaited (fst (run (map Settle picks) st)) = [] /\
  moveCalls (fst (run (map Settle picks) st)) = [] /\
  patternTests (fst (run (map Settle picks) st)) = [] /\
  joinCount (fst (run (map Settle picks) st)) = 0.
Proof.
  revert st. induction picks as [ | i picks IH]; intros st.
  - cbn [map performAll fst snd]. split; [ apply incl_refl | ]. split; [ intros ? ? ? [] | ].
    repeat split; reflexivity.
  - cbn [map]. rewrite run_cons. cbn [fst snd].
    destruct (IH (snd (step (Settle i) st))) as (Hq & Hr & Ha & Hm & Hp & Hj).
    rewrite awaited_app, moveCalls_app, patternTests_app, joinCount_app, Ha, Hm, Hp, Hj.
    assert (Hstep : incl (fst (snd (step (Settle i) st))) (fst st) /\
                    (forall f t okay,
                        In (Rename f t okay) (fst (step (Settle i) st)) ->
                        In f (map (fun m => path (moving m)) (fst st))) /\
                    awaited (fst (step (Settle i) st)) = [] /\
                    moveCalls (fst (step (Settle i) st)) = [] /\
                    patternTests (fst (step (Settle i) st)) = [] /\
                    joinCount (fst (step (Settle i) st)) = 0).
    { destruct (step_cases settings targetPath (Settle i) st)
        as [(child & Ea & E) | [(child & Ea & E) | [(ps & Ea & E) | [(j & Ea & Hnth & E)
           | [(j & m & e & Ea & Hnth & R & E) | (j & m & c' & v' & Ea & Hnth & R & E)]]]]];
        try discriminate; rewrite E; cbn [fst snd].
      - split; [ apply incl_refl | ]. split; [ intros ? ? ? [] | ]. repeat split; reflexivity.
      - split; [ apply removeAt_incl | ]. split; [ | repeat split; reflexivity ].
        intros f t okay [Hin | [Hin | [Hin | []]]]; try discriminate.
        injection Hin as <- _ _. apply (in_map (fun m : Move => path (moving m))). exact (nth_error_In _ _ Hnth).
      - split; [ apply removeAt_incl | ].
        split; [ | destruct (showMoveNotification settings); repeat split; reflexivity ].
        intros f t okay [Hin | Hin].
        + injection Hin as <- _ _. apply (in_map (fun m : Move => path (moving m))). exact (nth_error_In _ _ Hnth).
        + exfalso. destruct (showMoveNotification settings); cbn [app] in Hin.
          * destruct Hin as [Hin | [Hin | []]]; discriminate.
          * destruct Hin as [Hin | []]; discriminate. }
    destruct Hstep as (Hq1 & Hr1 & Ha1 & Hm1 & Hp1 & Hj1).
    rewrite Ha1, Hm1, Hp1, Hj1.
    split; [ exact (incl_tran Hq Hq1) | ]. split; [ | repeat split; reflexivity ].
    intros f t okay Hin. apply in_app_or in Hin as [Hin | Hin]; [ exact (Hr1 _ _ _ Hin) | ].
    apply Hr in Hin. apply in_map_iff in Hin as (m & <- & Hm'). apply (in_map (fun m : Move => path (moving m))).
    exact (Hq1 m Hm').
Qed.

End Settlings.

Section Structure.

Variable RegExp : Type.
Variable test : RegExp -> string -> bool.
Variable settings : FileMoverSettings.
Variable host : nat -> list Move -> list nat.
Variable pattern : RegExp.
Variable targetPath : string.

Local Abbreviation walkFrom :=
  (fun budget folder => processFolderFrom test settings host budget folder pattern targetPath).
Local Abbreviation matched :=
  (fun tr : list Event =>
     map (fun t : string * string => (fst t, targetPath +++ "/" +++ snd t))
       (filter (fun t : string * string => test pattern (snd t)) (patternTests tr))).
Local Abbreviation paths := (map (fun m : Move => path (moving m))).

(** The events of a walk.  A move is called for each test that answers
    true, and for nothing else.  When the walk returns: the moves left in
    flight were in flight before, and none of them is in [movePromises];
    every rename settled is followed by the return of a [Promise.all] that
    waits for it, the moves that were in flight before apart; the last event
    is the return of the [Promise.all] of the folder, which waits for
    [movePromises] at least; and the promises waited for are [movePromises]
    and the moves called. *)
Lemma walk_structure (budget : nat) (folder : TAbstractFile) (i : nat) (ps : list string)
    (q : list Move) (w : World) :
  exists tr,
    trace (snd (walkFrom budget folder i ps q w)) = trace w ++ tr /\
    moveCalls tr = matched tr /\
    forall q',
      fst (walkFrom budget folder i ps q w) = Normal q' ->
      (forall m, In m q' ->
                 In m q /\ existsb (String.eqb (path (moving m))) ps = false) /\
      everyMoveAwaitedBut (paths q) tr = true /\
      (exists pre ps', tr = pre ++ [AwaitAll ps'] /\ incl ps ps') /\
      Permutation (awaited tr) (ps ++ map fst (moveCalls tr)).
Proof.
  apply (walk_ind _ test settings host pattern targetPath
           (fun ps q w r =>
              exists tr,
                trace (snd r) = trace w ++ tr /\
                moveCalls tr = matched tr /\
                forall q',
                  fst r = Normal q' ->
                  (forall m, In m q' ->
                             In m q /\ existsb (String.eqb (path (moving m))) ps = false) /\
                  everyMoveAwaitedBut (paths q) tr = true /\
                  (exists pre ps', tr = pre ++ [AwaitAll ps'] /\ incl ps ps') /\
                  Permutation (awaited tr) (ps ++ map fst (moveCalls tr)))); clear.
  - (* await *)
    intros ps q w. destruct (promise_all_run settings host targetPath ps q w)
      as (picks & Hrun & Hleft).
    destruct (settlings settings targetPath picks (q, vault w))
      as (Hq & Hr & Ha & Hm & Hp & _). cbn [fst snd] in *.
    rewrite Hrun.
    exists (fst (performAll settings targetPath (map Settle picks) (q, vault w))
            ++ [AwaitAll ps]).
    cbn [fst snd trace]. split; [ reflexivity | ].
    rewrite moveCalls_app, patternTests_app, awaited_app, Ha, Hm, Hp.
    split; [ reflexivity | ].
    intros q' [= <-]. split; [ | split; [ | split ] ].
    + intros m Hin. split; [ exact (Hq m Hin) | ].
      exact (proj1 (Forall_forall _ _) Hleft m Hin).
    + apply everyMoveAwaitedBut_all. intros f t okay Hin.
      apply in_app_or in Hin as [Hin | [Hin | []]]; [ | discriminate ].
      exact (Hr _ _ _ Hin).
    + eexists _, ps. split; [ reflexivity | apply incl_refl ].
    + cbn. rewrite !app_nil_r. reflexivity.
  - (* a file that does not match *)
    intros child ps q w r _ _ T (tr & Htr & Hcalls & Hn). cbn [trace] in Htr.
    exists (PatternTest (path child) (name child) :: tr).
    split; [ rewrite Htr, <- app_assoc; reflexivity | ].
    split.
    { cbn [moveCalls patternTests flat_map app filter snd]. rewrite T. exact Hcalls. }
    intros q' Hq'. destruct (Hn q' Hq') as (H1 & H2 & (pre & ps' & -> & H3) & H4).
    split; [ exact H1 | ]. split; [ exact H2 | ].
    split; [ exists (PatternTest (path child) (name child) :: pre), ps';
             split; [ reflexivity | exact H3 ] | ].
    exact H4.
  - (* a file that matches *)
    intros child ps q w r _ _ T (tr & Htr & Hcalls & Hn). cbn [trace] in Htr.
    exists (PatternTest (path child) (name child) ::
            MoveFile (path child) (targetPath +++ "/" +++ name child) :: tr).
    split; [ rewrite Htr, <- app_assoc; reflexivity | ].
    split.
    { cbn [moveCalls patternTests flat_map app filter snd map fst]. rewrite T.
      cbn [map fst snd]. f_equal. exact Hcalls. }
    intros q' Hq'. destruct (Hn q' Hq') as (H1 & H2 & (pre & ps' & -> & H3) & H4).
    split; [ | split; [ | split ] ].
    + intros m Hin. destruct (H1 m Hin) as [Hm Hp].
      rewrite existsb_app in Hp. apply orb_false_iff in Hp as [Hp Hp'].
      split; [ | exact Hp ].
      apply in_app_or in Hm as [Hm | [<- | []]]; [ exact Hm | ].
      cbn [moving existsb] in Hp'. rewrite String.eqb_refl in Hp'. discriminate.
    + cbn [everyMoveAwaitedBut].
      apply (everyMoveAwaitedBut_end (paths (q ++ [mkMove child
                                                     (targetPath +++ "/" +++ name child)])));
        [ exact H2 | ].
      intros f Hf. rewrite map_app in Hf. apply in_app_or in Hf as [Hf | [<- | []]].
      * left. exact Hf.
      * right. apply H3. apply in_or_app. right. left. reflexivity.
    + exists (PatternTest (path child) (name child) ::
              MoveFile (path child) (targetPath +++ "/" +++ name child) :: pre), ps'.
      split; [ reflexivity | ]. intros x Hx. apply H3. apply in_or_app. left. exact Hx.
    + cbn [awaited moveCalls flat_map app map fst] in *.
      rewrite <- app_assoc in H4. exact H4.
  - (* the call stack is exhausted *)
    intros ps q w. exists []. cbn [fst snd]. rewrite app_nil_r.
    split; [ reflexivity | ]. split; [ reflexivity | discriminate ].
  - (* a folder child, walked to its end *)
    intros ps q w q1 w1 r (tr1 & Htr1 & Hcalls1 & Hn1) (tr2 & Htr2 & Hcalls2 & Hn2).
    cbn [fst snd] in *.
    destruct (Hn1 q1 eq_refl) as (A1 & A2 & _ & A4).
    exists (tr1 ++ tr2). split; [ rewrite Htr2, Htr1, app_assoc; reflexivity | ].
    split.
    { rewrite moveCalls_app, patternTests_app, filter_app, map_app, Hcalls1, Hcalls2.
      reflexivity. }
    intros q' Hq'. destruct (Hn2 q' Hq') as (B1 & B2 & (pre & ps' & -> & B3) & B4).
    split; [ | split; [ | split ] ].
    + intros m Hin. destruct (B1 m Hin) as [Hm Hp]. split; [ | exact Hp ].
      exact (proj1 (A1 m Hm)).
    + apply everyMoveAwaitedBut_app; [ exact A2 | ].
      apply (everyMoveAwaitedBut_end (paths q1)); [ exact B2 | ].
      intros f Hf. left. apply in_map_iff in Hf as (m & <- & Hm). apply (in_map (fun m : Move => path (moving m))).
      exact (proj1 (A1 m Hm)).
    + exists (tr1 ++ pre), ps'. split; [ rewrite app_assoc; reflexivity | exact B3 ].
    + rewrite awaited_app, moveCalls_app, map_app. cbn [app] in A4.
      rewrite (Permutation_app A4 B4). apply Permutation_app_swap_app.
  - (* a folder child whose walk throws *)
    intros ps q w e w1 (tr1 & Htr1 & Hcalls1 & _). exists tr1. cbn [fst snd] in *.
    split; [ exact Htr1 | ]. split; [ exact Hcalls1 | discriminate ].
Qed.

End Structure.

(** ** The folders of a tree stay, and the walk returns *)

Lemma folderCount_prune (p : string) (n : TAbstractFile) :
  folderCount (prune p n) = folderCount n.
Proof.
  induction n as [q m | q m cs IH] using TAbstractFile_forall_ind; [ reflexivity | ].
  cbn [prune folderCount]. f_equal.
  induction IH as [ | c cs Hc _ IHcs]; [ reflexivity | ].
  cbn [map filter].
  destruct (isFileAt p (prune p c)) eqn:E; cbn [negb map list_sum fold_right].
  - destruct (prune p c); [ | discriminate ]. rewrite <- Hc. cbn [folderCount].
    exact IHcs.
  - change (list_sum (folderCount (prune p c) ::
                      map folderCount (filter (fun c0 => negb (isFileAt p c0))
                                         (map (prune p) cs)))
            = list_sum (folderCount c :: map folderCount cs)).
    cbn [list_sum fold_right]. fold (list_sum (map folderCount cs)).
    fold (list_sum (map folderCount (filter (fun c0 => negb (isFileAt p c0))
                                       (map (prune p) cs)))).
    rewrite Hc, IHcs. reflexivity.
Qed.

Lemma list_sum_cons (a : nat) (l : list nat) : list_sum (a :: l) = a + list_sum l.
Proof. reflexivity. Qed.

Lemma folderCount_graft (par : string) (x n : TAbstractFile) :
  isFolder x = false -> folderCount (graft par x n) = folderCount n.
Proof.
  intros Hx.
  induction n as [q m | q m cs IH] using TAbstractFile_forall_ind; [ reflexivity | ].
  cbn [graft folderCount]. f_equal.
  assert (E : list_sum (map folderCount (map (graft par x) cs))
              = list_sum (map folderCount cs)).
  { induction IH as [ | c cs Hc _ IHcs]; [ reflexivity | ].
    cbn [map]. rewrite !list_sum_cons, Hc, IHcs. reflexivity. }
  destruct (String.eqb q par); [ | exact E ].
  rewrite map_app, list_sum_app, E. destruct x; [ | discriminate ]. cbn. lia.
Qed.

Lemma foldersFrom_S (k : nat) (cs : list TAbstractFile) :
  foldersFrom (S k) cs <= foldersFrom k cs.
Proof.
  unfold foldersFrom. revert k. induction cs as [ | c cs IH]; intros k.
  - destruct k; cbn; lia.
  - destruct k as [ | k].
    + cbn [skipn map]. rewrite list_sum_cons. lia.
    + cbn [skipn]. apply IH.
Qed.

Lemma foldersFrom_map (g : TAbstractFile -> TAbstractFile) (k : nat)
    (cs : list TAbstractFile) :
  (forall c, folderCount (g c) = folderCount c) ->
  foldersFrom k (map g cs) = foldersFrom k cs.
Proof.
  intros Hg. unfold foldersFrom. rewrite skipn_map, map_map. f_equal.
  apply map_ext. exact Hg.
Qed.

Lemma foldersFrom_filter (keep : TAbstractFile -> bool) (k : nat) (cs : list TAbstractFile) :
  (forall c, keep c = false -> folderCount c = 0) ->
  foldersFrom k (filter keep cs) <= foldersFrom k cs.
Proof.
  intros Hk. revert k. induction cs as [ | c cs IH]; intros k; [ reflexivity | ].
  cbn [filter]. destruct (keep c) eqn:E.
  - destruct k as [ | k].
    + specialize (IH 0). unfold foldersFrom in *. cbn [skipn map] in *.
      rewrite !list_sum_cons. lia.
    + exact (IH k).
  - destruct k as [ | k].
    + specialize (IH 0). unfold foldersFrom in *. cbn [skipn map] in *.
      rewrite list_sum_cons. lia.
    + pose proof (foldersFrom_S k (filter keep cs)). specialize (IH k).
      change (foldersFrom (S k) (c :: cs)) with (foldersFrom k cs). lia.
Qed.

Lemma foldersFrom_snoc_file (k : nat) (cs : list TAbstractFile) (x : TAbstractFile) :
  isFolder x = false -> foldersFrom k (cs ++ [x]) = foldersFrom k cs.
Proof.
  intros Hx. unfold foldersFrom. rewrite skipn_app, map_app, list_sum_app.
  destruct x; [ | discriminate ].
  destruct (k - length cs) as [ | [ | j]]; cbn [skipn map list_sum fold_right folderCount];
    lia.
Qed.

(** A move leaves every folder where it is, with no more folders among its
    children from any index on than before. *)
Lemma rename_folder_children (v : Vault) (f : TAbstractFile) (np : string) f' v' p a b cs :
  rename v f np = inr (f', v') ->
  getAbstractFileByPath v p = Some (TFolder a b cs) ->
  exists cs',
    getAbstractFileByPath v' p = Some (TFolder a b cs') /\
    forall k, foldersFrom k cs' <= foldersFrom k cs.
Proof.
  intros R Hp.
  destruct (rename_inr _ _ _ _ _ R) as (nm & x & y & _ & Hf & _ & _ & Hf' & _).
  assert (Hne : p <> path f) by (intros ->; congruence).
  rewrite (rename_resolve_other _ _ _ _ _ _ _ R Hne Hp). cbn [prune graft].
  eexists. split; [ reflexivity | ]. intros k.
  assert (Hfile : isFolder f' = false) by (rewrite Hf'; reflexivity).
  assert (E : foldersFrom k (map (graft (parentPath np) f')
                               (filter (fun c => negb (isFileAt (path f) c))
                                  (map (prune (path f)) cs)))
              <= foldersFrom k cs).
  { rewrite foldersFrom_map by (intros c; apply folderCount_graft; exact Hfile).
    etransitivity; [ apply foldersFrom_filter | ].
    - intros [q m | q m ds]; [ reflexivity | discriminate ].
    - rewrite foldersFrom_map by (intros c; apply folderCount_prune). reflexivity. }
  destruct (String.eqb a (parentPath np)); [ | exact E ].
  rewrite foldersFrom_snoc_file by exact Hfile. exact E.
Qed.

Lemma skipn_cons_S {A : Type} (i : nat) (l : list A) (a : A) (rest : list A) :
  skipn i l = a :: rest -> skipn (S i) l = rest.
Proof.
  revert l. induction i as [ | i IH]; intros [ | b l]; cbn [skipn]; try discriminate.
  - intros [= _ <-]. reflexivity.
  - intros H. destruct l as [ | c l]; [ destruct i; discriminate | ].
    exact (IH (c :: l) H).
Qed.

Section Termination.

Variable RegExp : Type.
Variable test : RegExp -> string -> bool.
Variable settings : FileMoverSettings.
Variable host : nat -> list Move -> list nat.
Variable pattern : RegExp.
Variable targetPath : string.

Local Abbreviation walkFrom :=
  (fun budget folder => processFolderFrom test settings host budget folder pattern targetPath).

(** What a walk leaves of the tree: the tree is well formed again, and every
    folder is where it was, with no more folders among its children from any
    index on. *)
Lemma walk_keeps_folders (budget : nat) (folder : TAbstractFile) (i : nat)
    (ps : list string) (q : list Move) (w : World) :
  wellFormed (vault w) ->
  wellFormed (vault (snd (walkFrom budget folder i ps q w))) /\
  forall p a b cs,
    getAbstractFileByPath (vault w) p = Some (TFolder a b cs) ->
    exists cs',
      getAbstractFileByPath (vault (snd (walkFrom budget folder i ps q w))) p
      = Some (TFolder a b cs') /\
      forall k, foldersFrom k cs' <= foldersFrom k cs.
Proof.
  intros Wf.
  destruct (walk_runs _ test settings host pattern targetPath budget folder i ps q w)
    as (acts & _ & Hw & _).
  rewrite Hw. cbn [vault]. split.
  - exact (run_wellFormed settings targetPath acts (q, vault w) Wf).
  - intros p a b cs Hp.
    apply (run_preserves settings targetPath
             (fun v => exists cs',
                  getAbstractFileByPath v p = Some (TFolder a b cs') /\
                  forall k, foldersFrom k cs' <= foldersFrom k cs)).
    + intros v f np f' v' R (cs1 & H1 & L1).
      destruct (rename_folder_children _ _ _ _ _ _ _ _ _ R H1) as (cs2 & H2 & L2).
      exists cs2. split; [ exact H2 | ]. intros k. specialize (L1 k). specialize (L2 k). lia.
    + exists cs. split; [ exact Hp | ]. intros k. lia.
Qed.

(** With a call stack that can take the folders among the children still to
    come, and below them, the walk of a well-formed tree returns. *)
Lemma walk_returns (budget : nat) :
  forall folder i ps q w,
    wellFormed (vault w) ->
    foldersFrom i (childrenOf (vault w) folder) <= budget ->
    exists q' w', walkFrom budget folder i ps q w = (Normal q', w').
Proof.
  assert (Inner : forall bound walk folder,
             (forall f j ps q w,
                 wellFormed (vault w) ->
                 S (foldersFrom j (childrenOf (vault w) f)) <= bound ->
                 exists q' w', walk f j ps q w = (Normal q', w')) ->
             (forall f j ps q w,
                 wellFormed (vault w) ->
                 wellFormed (vault (snd (walk f j ps q w))) /\
                 forall p a b cs,
                   getAbstractFileByPath (vault w) p = Some (TFolder a b cs) ->
                   exists cs',
                     getAbstractFileByPath (vault (snd (walk f j ps q w))) p
                     = Some (TFolder a b cs') /\
                     forall k, foldersFrom k cs' <= foldersFrom k cs) ->
             forall rest i ps q w,
               wellFormed (vault w) ->
               skipn i (childrenOf (vault w) folder) = rest ->
               list_sum (map folderCount rest) <= bound ->
               exists q' w',
                 processChildren test settings host walk folder pattern targetPath
                   rest i ps q w = (Normal q', w')).
  { intros bound walk folder Hret Hkeep.
    induction rest as [ | child rest IH]; intros i ps q w Wf Hcs Hb.
    - cbn [processChildren].
      destruct (promise_all_run settings host targetPath ps q w) as (picks & Hrun & _).
      rewrite Hrun. eexists _, _. reflexivity.
    - pose proof (skipn_cons_S _ _ _ _ Hcs) as Hcs'.
      cbn [map] in Hb. rewrite list_sum_cons in Hb.
      destruct child as [p n | p n ds].
      + cbn [processChildren]. unfold bind at 1. unfold pattern_test, bind, emit, ret.
        destruct (test pattern (name (TFile p n))).
        * unfold moveFile, bind, emit, ret. cbn [vault trace].
          apply IH; cbn [vault]; [ exact Wf | exact Hcs' | lia ].
        * apply IH; cbn [vault]; [ exact Wf | exact Hcs' | lia ].
      + cbn [processChildren]. unfold bind.
        assert (Hin : In (TFolder p n ds) (childrenOf (vault w) folder)).
        { rewrite <- (firstn_skipn i). apply in_or_app. right. rewrite Hcs. left. reflexivity. }
        pose proof (wellFormed_child _ _ _ Wf Hin) as Hres. cbn [path] in Hres.
        assert (Hchild : childrenOf (vault w) (TFolder p n ds) = ds).
        { unfold childrenOf. cbn [path]. rewrite Hres. reflexivity. }
        cbn [folderCount] in Hb.
        destruct (Hret (TFolder p n ds) 0 [] q w Wf) as (q1 & w1 & H1).
        { rewrite Hchild. unfold foldersFrom. cbn [skipn]. lia. }
        destruct (Hkeep (TFolder p n ds) 0 [] q w Wf) as [Wf1 Hk1].
        rewrite H1 in *. cbn [snd] in *.
        destruct (childrenOf (vault w) folder) as [ | c0 cs0] eqn:Ecs; [ destruct Hin | ].
        unfold childrenOf in Ecs.
        destruct (getAbstractFileByPath (vault w) (path folder)) as [[a b | a b cs] | ] eqn:Ef;
          try discriminate.
        subst cs. destruct (Hk1 _ _ _ _ Ef) as (cs' & Ef' & Hle).
        apply Hret; [ exact Wf1 | ].
        unfold childrenOf. rewrite Ef'. specialize (Hle (S i)).
        unfold foldersFrom in Hle at 2. rewrite Hcs' in Hle. lia. }
  induction budget as [ | budget IH]; intros folder i ps q w Wf Hb.
  - cbn [processFolderFrom].
    apply (Inner 0); try assumption; [ | | reflexivity ].
    + intros f j ps' q' w' _ H. lia.
    + intros f j ps' q' w' Wf'. cbn [stackOverflow throw snd]. split; [ exact Wf' | ].
      intros p a b cs Hp. exists cs. split; [ exact Hp | ]. intros k. lia.
  - cbn [processFolderFrom].
    apply (Inner (S budget)); try assumption; [ | | reflexivity ].
    + intros f j ps' q' w' Wf' H. apply IH; [ exact Wf' | lia ].
    + intros f j ps' q' w' Wf'. exact (walk_keeps_folders budget f j ps' q' w' Wf').
Qed.

End Termination.

(** ** A folder that holds files only *)

Lemma noCallAfterSettle_app (t1 t2 : list Event) :
  renameCalls t1 = [] ->
  noCallAfterSettle (t1 ++ t2) = noCallAfterSettle t2.
Proof.
  intros H. induction t1 as [ | e t1 IH]; [ reflexivity | ].
  destruct e as [ | | | | f t okay | | | ]; cbn [app noCallAfterSettle];
    try (apply IH; exact H).
  discriminate.
Qed.

Lemma noCallAfterSettle_none (tr : list Event) :
  moveCalls tr = [] -> noCallAfterSettle tr = true.
Proof.
  intros H.
  assert (F : forallb (fun e => negb (isMoveFile e)) tr = true).
  { induction tr as [ | e tr IH]; [ reflexivity | ].
    destruct e as [ | | | | | | | f t]; cbn [forallb isMoveFile negb andb];
      try (apply IH; exact H).
    discriminate. }
  clear H. induction tr as [ | e tr IH]; [ reflexivity | ].
  cbn [forallb] in F. apply andb_true_iff in F as [_ F].
  destruct e as [ | | | | f t okay | | | ]; cbn [noCallAfterSettle];
    try (apply IH; exact F).
  exact F.
Qed.

Lemma noMoveIssuedAfterAwait_end (pre : list Event) (ps : list string) :
  joinCount pre = 0 -> noMoveIssuedAfterAwait (pre ++ [AwaitAll ps]) = true.
Proof.
  intros H. induction pre as [ | e pre IH].
  - destruct ps; reflexivity.
  - destruct e as [ | | | | | | ps' | ]; cbn [app noMoveIssuedAfterAwait];
      try (apply IH; exact H).
    discriminate.
Qed.

Section Flat.

Variable RegExp : Type.
Variable test : RegExp -> string -> bool.
Variable settings : FileMoverSettings.
Variable host : nat -> list Move -> list nat.
Variable pattern : RegExp.
Variable targetPath : string.

Local Abbreviation walkFrom :=
  (fun budget folder => processFolderFrom test settings host budget folder pattern targetPath).
Local Abbreviation matches := (fun c : TAbstractFile => test pattern (name c)).
Local Abbreviation destination := (fun c : TAbstractFile => targetPath +++ "/" +++ name c).
Local Abbreviation visits :=
  (flat_map (fun c : TAbstractFile =>
               PatternTest (path c) (name c) ::
               (if test pattern (name c) then [MoveFile (path c) (destination c)] else []))).

(** Files are gone through without anything being awaited. *)
Lemma processChildren_files
    (walk : TAbstractFile -> nat -> list string -> list Move -> Async (list Move))
    (folder : TAbstractFile) (cs : list TAbstractFile) :
  Forall (fun c => isFolder c = false) cs ->
  forall i ps q w,
    processChildren test settings host walk folder pattern targetPath cs i ps q w
    = promise_all settings host
        (ps ++ map path (filter matches cs))
        (q ++ map (fun c => mkMove c (destination c)) (filter matches cs))
        (mkWorld (vault w) (trace w ++ visits cs)).
Proof.
  induction 1 as [ | c cs Hc _ IH]; intros i ps q w.
  - cbn [processChildren filter map flat_map]. rewrite !app_nil_r, world_eta. reflexivity.
  - destruct c as [p n | p n ds]; [ | discriminate ].
    cbn [processChildren path name filter flat_map]. unfold bind at 1.
    unfold pattern_test, bind, emit, ret. destruct (test pattern n) eqn:T.
    + unfold moveFile, bind, emit, ret. cbn [vault trace path map].
      rewrite IH. cbn [vault trace]. rewrite <- !app_assoc. reflexivity.
    + rewrite IH. cbn [vault trace]. rewrite <- !app_assoc. reflexivity.
Qed.

Lemma visits_events (cs : list TAbstractFile) :
  patternTests (visits cs) = map (fun c => (path c, name c)) cs /\
  moveCalls (visits cs) = map (fun c => (path c, destination c)) (filter matches cs) /\
  renameCalls (visits cs) = [] /\
  joinCount (visits cs) = 0.
Proof.
  induction cs as [ | c cs (H1 & H2 & H3 & H4)]; [ repeat split; reflexivity | ].
  cbn [flat_map filter].
  rewrite patternTests_app, moveCalls_app, renameCalls_app, joinCount_app, H1, H2, H3, H4.
  destruct (test pattern (name c)); repeat split; reflexivity.
Qed.

(** The walk of a folder whose children, from the index on, are files: every
    child is tested, a move is called for each that matches, and only then
    are the moves settled and awaited. *)
Lemma flat_walk (budget : nat) (folder : TAbstractFile) (i : nat) (ps : list string)
    (q : list Move) (w : World) :
  Forall (fun c => isFolder c = false) (skipn i (childrenOf (vault w) folder)) ->
  exists q' v' ev,
    walkFrom budget folder i ps q w
    = (Normal q',
       mkWorld v'
         (trace w ++ visits (skipn i (childrenOf (vault w) folder)) ++ ev ++
          [AwaitAll (ps ++ map path (filter matches (skipn i (childrenOf (vault w) folder))))])) /\
    moveCalls ev = [] /\ patternTests ev = [] /\ joinCount ev = 0.
Proof.
  intros Hflat.
  assert (E : walkFrom budget folder i ps q w
              = promise_all settings host
                  (ps ++ map path (filter matches (skipn i (childrenOf (vault w) folder))))
                  (q ++ map (fun c => mkMove c (destination c))
                          (filter matches (skipn i (childrenOf (vault w) folder))))
                  (mkWorld (vault w)
                     (trace w ++ visits (skipn i (childrenOf (vault w) folder))))).
  { destruct budget; cbn [processFolderFrom]; apply processChildren_files; exact Hflat. }
  cbv beta in E |- *. rewrite E. clear E.
  destruct (promise_all_run settings host targetPath
              (ps ++ map path (filter matches (skipn i (childrenOf (vault w) folder))))
              (q ++ map (fun c => mkMove c (destination c))
                      (filter matches (skipn i (childrenOf (vault w) folder))))
              (mkWorld (vault w) (trace w ++ visits (skipn i (childrenOf (vault w) folder)))))
    as (picks & Hrun & _).
  rewrite Hrun. cbn [vault trace].
  destruct (settlings settings targetPath picks
              (q ++ map (fun c => mkMove c (destination c))
                      (filter matches (skipn i (childrenOf (vault w) folder))), vault w))
    as (_ & _ & _ & Hm & Hp & Hj).
  eexists _, _, _. split; [ rewrite <- app_assoc; reflexivity | ].
  split; [ exact Hm | ]. split; [ exact Hp | exact Hj ].
Qed.



End Flat.

(** ** A walk in which no move succeeds *)

Section Static.

Variable RegExp : Type.
Variable test : RegExp -> string -> bool.
Variable settings : FileMoverSettings.
Variable host : nat -> list Move -> list nat.
Variable pattern : RegExp.
Variable targetPath : string.

Local Abbreviation run := (performAll settings targetPath).
Local Abbreviation step := (perform settings targetPath).
Local Abbreviation walkFrom :=
  (fun budget folder => processFolderFrom test settings host budget folder pattern targetPath).
Local Abbreviation destination := (fun c : TAbstractFile => targetPath +++ "/" +++ name c).
Local Abbreviation stuck :=
  (fun (v : Vault) (m : Move) => exists e, rename v (moving m) (toPath m) = inl e).
Local Abbreviation static :=
  (fun (r : Completion (list Move) * World) (q : list Move) (w : World)
       (files : list TAbstractFile) =>
     exists q' tr,
       r = (Normal q', mkWorld (vault w) (trace w ++ tr)) /\
       patternTests tr = map (fun f => (path f, name f)) files /\
       (forall m, In m q' -> stuck (vault w) m) /\
       movedFrom tr = []).

Lemma settlings_stuck (picks : list nat) (q : list Move) (v : Vault) :
  (forall m, In m q -> stuck v m) ->
  snd (snd (run (map Settle picks) (q, v))) = v /\
  movedFrom (fst (run (map Settle picks) (q, v))) = [].
Proof.
  revert q. induction picks as [ | i picks IH]; intros q Hq; [ split; reflexivity | ].
  cbn [map]. rewrite run_cons. cbn [fst snd]. rewrite movedFrom_app.
  destruct (step_cases settings targetPath (Settle i) (q, v))
    as [(child & Ea & E) | [(child & Ea & E) | [(ps & Ea & E) | [(j & Ea & Hnth & E)
       | [(j & m & e & Ea & Hnth & R & E) | (j & m & c' & v' & Ea & Hnth & R & E)]]]]];
    try discriminate; rewrite E; cbn [fst snd] in *.
  - exact (IH q Hq).
  - apply IH. intros m' Hm'. apply Hq. exact (removeAt_incl _ _ _ Hm').
  - exfalso. destruct (Hq m (nth_error_In _ _ Hnth)) as (e & He). congruence.
Qed.

Lemma promise_all_stuck (ps : list string) (q : list Move) (w : World) :
  (forall m, In m q -> stuck (vault w) m) ->
  exists q' ev,
    promise_all settings host ps q w
    = (Normal q', mkWorld (vault w) (trace w ++ ev ++ [AwaitAll ps])) /\
    incl q' q /\ movedFrom ev = [] /\ patternTests ev = [].
Proof.
  intros Hq. destruct (promise_all_run settings host targetPath ps q w) as (picks & Hrun & _).
  destruct (settlings_stuck picks q (vault w) Hq) as [Hv Hm].
  destruct (settlings settings targetPath picks (q, vault w)) as (Hincl & _ & _ & _ & Hp & _).
  rewrite Hrun, Hv. eexists _, _. split; [ reflexivity | ].
  split; [ exact Hincl | ]. split; [ exact Hm | exact Hp ].
Qed.

Lemma static_children (bound : nat)
    (walk : TAbstractFile -> nat -> list string -> list Move -> Async (list Move))
    (p n : string) (cs : list TAbstractFile) :
  (forall p' n' cs' j ps q w,
      wellFormed (vault w) ->
      getAbstractFileByPath (vault w) p' = Some (TFolder p' n' cs') ->
      S (foldersFrom j cs') <= bound ->
      (forall m, In m q -> stuck (vault w) m) ->
      (forall f, In f (flat_map descendantFiles (skipn j cs')) ->
                 test pattern (name f) = true ->
                 stuck (vault w) (mkMove f (destination f))) ->
      static (walk (TFolder p' n' cs') j ps q w) q w
        (flat_map descendantFiles (skipn j cs'))) ->
  forall rest i ps q w,
    wellFormed (vault w) ->
    getAbstractFileByPath (vault w) p = Some (TFolder p n cs) ->
    skipn i cs = rest ->
    list_sum (map folderCount rest) <= bound ->
    (forall m, In m q -> stuck (vault w) m) ->
    (forall f, In f (flat_map descendantFiles rest) ->
               test pattern (name f) = true ->
               stuck (vault w) (mkMove f (destination f))) ->
    static (processChildren test settings host walk (TFolder p n cs) pattern targetPath
              rest i ps q w) q w (flat_map descendantFiles rest).
Proof.
  intros Hwalk. induction rest as [ | child rest IH]; intros i ps q w Wf Hp Hcs Hb Hq Hf.
  - cbn [processChildren flat_map map].
    destruct (promise_all_stuck ps q w Hq) as (q' & ev & Hrun & Hincl & Hm & Hpt).
    exists q', (ev ++ [AwaitAll ps]). split; [ exact Hrun | ].
    rewrite patternTests_app, movedFrom_app, Hm, Hpt.
    split; [ reflexivity | ]. split; [ | reflexivity ].
    intros m Hin. apply Hq, Hincl, Hin.
  - pose proof (skipn_cons_S _ _ _ _ Hcs) as Hcs'.
    cbn [map] in Hb. rewrite list_sum_cons in Hb.
    destruct child as [a b | a b ds].
    + cbn [processChildren path name]. unfold bind at 1. unfold pattern_test, bind, emit, ret.
      cbn [flat_map descendantFiles app map path name] in *.
      assert (Hb' : list_sum (map folderCount rest) <= bound) by lia.
      assert (Hf' : forall f, In f (flat_map descendantFiles rest) ->
                              test pattern (name f) = true ->
                              stuck (vault w) (mkMove f (destination f))).
      { intros f Hin. apply Hf. right. exact Hin. }
      destruct (test pattern b) eqn:T.
      * unfold moveFile, bind, emit, ret. cbn [vault trace path].
        assert (Hq'' : forall m,
                   In m (q ++ [mkMove (TFile a b) (targetPath +++ "/" +++ b)]) ->
                   stuck (vault w) m).
        { intros m Hin. apply in_app_or in Hin as [Hin | [<- | []]]; [ exact (Hq m Hin) | ].
          exact (Hf (TFile a b) (or_introl eq_refl) T). }
        destruct (IH (S i) (ps ++ [a]) (q ++ [mkMove (TFile a b) (targetPath +++ "/" +++ b)])
                    (mkWorld (vault w)
                       ((trace w ++ [PatternTest a b]) ++
                        [MoveFile a (targetPath +++ "/" +++ b)]))
                    Wf Hp Hcs' Hb' Hq'' Hf')
          as (q' & tr & Hrun & Hpt & Hq' & Hm).
        exists q', (PatternTest a b :: MoveFile a (targetPath +++ "/" +++ b) :: tr).
        split; [ rewrite Hrun; cbn [vault trace]; rewrite <- !app_assoc; reflexivity | ].
        split; [ cbn [patternTests flat_map app]; fold (patternTests tr);
                 rewrite Hpt; reflexivity | ].
        split; [ exact Hq' | exact Hm ].
      * destruct (IH (S i) ps q (mkWorld (vault w) (trace w ++ [PatternTest a b]))
                    Wf Hp Hcs' Hb' Hq Hf')
          as (q' & tr & Hrun & Hpt & Hq' & Hm).
        exists q', (PatternTest a b :: tr).
        split; [ rewrite Hrun; cbn [vault trace]; rewrite <- !app_assoc; reflexivity | ].
        split; [ cbn [patternTests flat_map app]; fold (patternTests tr);
                 rewrite Hpt; reflexivity | ].
        split; [ exact Hq' | exact Hm ].
    + cbn [processChildren]. unfold bind. cbn [folderCount] in Hb.
      assert (Hin : In (TFolder a b ds) cs).
      { rewrite <- (firstn_skipn i). apply in_or_app. right. rewrite Hcs. left. reflexivity. }
      assert (Hres : getAbstractFileByPath (vault w) a = Some (TFolder a b ds)).
      { exact (proj1 (Wf _ (resolve_children _ _ _ _ Hp Hin))). }
      cbn [flat_map descendantFiles] in *.
      assert (Hb1 : S (foldersFrom 0 ds) <= bound) by (unfold foldersFrom; cbn [skipn]; lia).
      assert (Hf1 : forall f, In f (flat_map descendantFiles (skipn 0 ds)) ->
                              test pattern (name f) = true ->
                              stuck (vault w) (mkMove f (destination f))).
      { intros f Hfin. apply Hf. apply in_or_app. left. exact Hfin. }
      destruct (Hwalk a b ds 0 [] q w Wf Hres Hb1 Hq Hf1)
        as (q1 & tr1 & H1 & Hpt1 & Hq1 & Hm1).
      rewrite H1.
      assert (Hb2 : S (foldersFrom (S i) cs) <= bound) by (unfold foldersFrom; rewrite Hcs'; lia).
      assert (Hf2 : forall f, In f (flat_map descendantFiles (skipn (S i) cs)) ->
                              test pattern (name f) = true ->
                              stuck (vault w) (mkMove f (destination f))).
      { rewrite Hcs'. intros f Hfin. apply Hf. apply in_or_app. right. exact Hfin. }
      destruct (Hwalk p n cs (S i) ps q1 (mkWorld (vault w) (trace w ++ tr1))
                  Wf Hp Hb2 Hq1 Hf2)
        as (q2 & tr2 & H2 & Hpt2 & Hq2 & Hm2).
      cbn [vault trace] in H2.
      exists q2, (tr1 ++ tr2). split; [ rewrite H2, <- app_assoc; reflexivity | ].
      rewrite patternTests_app, movedFrom_app, Hpt1, Hpt2, Hm1, Hm2, Hcs', map_app.
      cbn [skipn]. split; [ reflexivity | ]. split; [ exact Hq2 | reflexivity ].
Qed.

(** The walk of a folder in a well-formed tree, with a call stack that can
    take its folders, when every move that is in flight or will be called
    fails: the tree stays as it is, and the files below the folder are
    tested depth first, each once. *)
Lemma static_walk (budget : nat) :
  forall p n cs i ps q w,
    wellFormed (vault w) ->
    getAbstractFileByPath (vault w) p = Some (TFolder p n cs) ->
    foldersFrom i cs <= budget ->
    (forall m, In m q -> stuck (vault w) m) ->
    (forall f, In f (flat_map descendantFiles (skipn i cs)) ->
               test pattern (name f) = true ->
               stuck (vault w) (mkMove f (destination f))) ->
    static (walkFrom budget (TFolder p n cs) i ps q w) q w
      (flat_map descendantFiles (skipn i cs)).
Proof.
  induction budget as [ | budget IH]; intros p n cs i ps q w Wf Hp Hb Hq Hf.
  - cbn [processFolderFrom]. unfold childrenOf. cbn [path]. rewrite Hp.
    apply (static_children 0); try assumption; [ | reflexivity ].
    intros p' n' cs' j ps' q' w' _ _ H. lia.
  - cbn [processFolderFrom]. unfold childrenOf. cbn [path]. rewrite Hp.
    apply (static_children (S budget)); try assumption; [ | reflexivity ].
    intros p' n' cs' j ps' q' w' Wf' Hp' H Hq' Hf'.
    apply IH; try assumption. lia.
Qed.

End Static.

(** ** What the settings can change *)

Lemma joinCount_withoutNotices (tr : list Event) :
  joinCount (withoutNotices tr) = joinCount tr.
Proof.
  unfold joinCount, withoutNotices. induction tr as [ | e tr IH]; [ reflexivity | ].
  destruct e; cbn [filter isNotice isAwait negb length]; rewrite ?IH; reflexivity.
Qed.

Section TwoSettings.

Variable RegExp : Type.
Variable newRegExp : string -> Error + RegExp.
Variable test : RegExp -> string -> bool.
Variable s1 s2 : FileMoverSettings.
Variable host : nat -> list Move -> list nat.

(** Two worlds with the same tree and, notices apart, the same events. *)
Local Abbreviation alike :=
  (fun w1 w2 : World =>
     vault w1 = vault w2 /\ withoutNotices (trace w1) = withoutNotices (trace w2)).
Local Abbreviation agree :=
  (fun r1 r2 : Completion (list Move) * World =>
     fst r1 = fst r2 /\ alike (snd r1) (snd r2)).

Lemma alike_step (w1 w2 : World) (v1 v2 : Vault) (ev1 ev2 : list Event) :
  alike w1 w2 -> v1 = v2 -> withoutNotices ev1 = withoutNotices ev2 ->
  alike (mkWorld v1 (trace w1 ++ ev1)) (mkWorld v2 (trace w2 ++ ev2)).
Proof.
  intros [_ Ht] Hv He. cbn [vault trace]. rewrite !withoutNotices_app, Ht, He.
  split; [ exact Hv | reflexivity ].
Qed.

Lemma agree_bind (m1 m2 : Async (list Move)) (k1 k2 : list Move -> Async (list Move))
    (w1 w2 : World) :
  agree (m1 w1) (m2 w2) ->
  (forall a w1' w2', alike w1' w2' -> agree (k1 a w1') (k2 a w2')) ->
  agree (bind m1 k1 w1) (bind m2 k2 w2).
Proof.
  intros [Hc Hw] Hk. unfold bind.
  destruct (m1 w1) as [[a1 | e1] w1'], (m2 w2) as [[a2 | e2] w2']; cbn [fst snd] in *;
    try discriminate.
  - injection Hc as <-. apply Hk. exact Hw.
  - injection Hc as <-. split; [ reflexivity | exact Hw ].
Qed.

Lemma moveEffect_settings (child : TAbstractFile) (np : string) (v : Vault) :
  snd (moveEffect s1 child np v) = snd (moveEffect s2 child np v) /\
  withoutNotices (fst (moveEffect s1 child np v))
  = withoutNotices (fst (moveEffect s2 child np v)).
Proof.
  unfold moveEffect. destruct (rename v child np) as [e | [c' v']].
  - split; reflexivity.
  - destruct (showMoveNotification s1), (showMoveNotification s2); split; reflexivity.
Qed.

Lemma settleAt_settings (i : nat) (q : list Move) (w1 w2 : World) :
  alike w1 w2 -> agree (settleAt s1 i q w1) (settleAt s2 i q w2).
Proof.
  intros Hw. unfold settleAt. destruct (nth_error q i) as [m | ].
  - unfold bind. rewrite !moveFileResumed_settled. unfold ret, settled. cbn [fst snd].
    destruct (moveEffect_settings (moving m) (toPath m) (vault w2)) as [Hv He].
    destruct Hw as [Ev Et]. rewrite Ev.
    destruct (moveEffect s1 (moving m) (toPath m) (vault w2)) as [tr1 v1].
    destruct (moveEffect s2 (moving m) (toPath m) (vault w2)) as [tr2 v2].
    cbn [fst snd] in *. split; [ reflexivity | ].
    apply alike_step; [ split; assumption | exact Hv | exact He ].
  - split; [ reflexivity | exact Hw ].
Qed.

Lemma settleEach_settings (picks : list nat) :
  forall q w1 w2, alike w1 w2 -> agree (settleEach s1 picks q w1) (settleEach s2 picks q w2).
Proof.
  induction picks as [ | i picks IH]; intros q w1 w2 Hw.
  - split; [ reflexivity | exact Hw ].
  - cbn [settleEach]. apply agree_bind; [ apply settleAt_settings; exact Hw | ].
    intros a w1' w2' Hw'. apply IH. exact Hw'.
Qed.

Lemma settleAwaited_settings (ps : list string) (q : list Move) :
  forall w1 w2, alike w1 w2 -> agree (settleAwaited s1 ps q w1) (settleAwaited s2 ps q w2).
Proof.
  induction q as [ | m q IH]; intros w1 w2 Hw.
  - split; [ reflexivity | exact Hw ].
  - cbn [settleAwaited]. destruct (existsb (String.eqb (path (moving m))) ps).
    + unfold bind. rewrite !moveFileResumed_settled. apply IH.
      unfold settled.
      destruct (moveEffect_settings (moving m) (toPath m) (vault w2)) as [Hv He].
      destruct Hw as [Ev Et]. rewrite Ev.
      destruct (moveEffect s1 (moving m) (toPath m) (vault w2)) as [tr1 v1].
      destruct (moveEffect s2 (moving m) (toPath m) (vault w2)) as [tr2 v2].
      cbn [fst snd] in *. apply alike_step; [ split; assumption | exact Hv | exact He ].
    + apply agree_bind; [ apply IH; exact Hw | ].
      intros a w1' w2' Hw'. split; [ reflexivity | exact Hw' ].
Qed.

Lemma promise_all_settings (ps : list string) (q : list Move) (w1 w2 : World) :
  alike w1 w2 -> agree (promise_all s1 host ps q w1) (promise_all s2 host ps q w2).
Proof.
  intros Hw. unfold promise_all.
  assert (Ej : joinCount (trace w1) = joinCount (trace w2)).
  { rewrite <- (joinCount_withoutNotices (trace w1)), (proj2 Hw).
    apply joinCount_withoutNotices. }
  rewrite Ej.
  apply agree_bind; [ apply settleEach_settings; exact Hw | ].
  intros q1 w1' w2' Hw'.
  apply agree_bind; [ apply settleAwaited_settings; exact Hw' | ].
  intros q2 w1'' w2'' Hw''. unfold bind, emit, ret. cbn [fst snd].
  split; [ reflexivity | ]. apply alike_step; [ exact Hw'' | exact (proj1 Hw'') | reflexivity ].
Qed.

Lemma processChildren_settings
    (walk1 walk2 : TAbstractFile -> nat -> list string -> list Move -> Async (list Move))
    (folder : TAbstractFile) (pattern : RegExp) (targetPath : string) :
  (forall f i ps q w1 w2, alike w1 w2 -> agree (walk1 f i ps q w1) (walk2 f i ps q w2)) ->
  forall cs i ps q w1 w2,
    alike w1 w2 ->
    agree (processChildren test s1 host walk1 folder pattern targetPath cs i ps q w1)
          (processChildren test s2 host walk2 folder pattern targetPath cs i ps q w2).
Proof.
  intros Hwalk. induction cs as [ | child rest IH]; intros i ps q w1 w2 Hw.
  - apply promise_all_settings. exact Hw.
  - destruct child as [p n | p n ds].
    + cbn [processChildren]. unfold bind at 1 3. unfold pattern_test, bind, emit, ret.
      destruct (test pattern (name (TFile p n))).
      * unfold moveFile, bind, emit, ret. apply IH. cbn [vault trace].
        rewrite <- !app_assoc.
        apply alike_step; [ exact Hw | exact (proj1 Hw) | reflexivity ].
      * apply IH. apply alike_step; [ exact Hw | exact (proj1 Hw) | reflexivity ].
    + cbn [processChildren]. apply agree_bind; [ apply Hwalk; exact Hw | ].
      intros a w1' w2' Hw'. apply Hwalk. exact Hw'.
Qed.

Lemma walk_settings (pattern : RegExp) (targetPath : string) (budget : nat) :
  forall folder i ps q w1 w2,
    alike w1 w2 ->
    agree (processFolderFrom test s1 host budget folder pattern targetPath i ps q w1)
          (processFolderFrom test s2 host budget folder pattern targetPath i ps q w2).
Proof.
  induction budget as [ | budget IH]; intros folder i ps q w1 w2 Hw;
    cbn [processFolderFrom]; rewrite (proj1 Hw); apply processChildren_settings;
    try exact Hw.
  - intros f j ps' q' w1' w2' Hw'. split; [ reflexivity | exact Hw' ].
  - intros f j ps' q' w1' w2' Hw'. apply IH. exact Hw'.
Qed.

Lemma execute_settings (stack : nat) (rule : MoveRule) (w : World) :
  vault (snd (executeMoveRule newRegExp test s1 host stack rule w))
  = vault (snd (executeMoveRule newRegExp test s2 host stack rule w)) /\
  withoutNotices (trace (snd (executeMoveRule newRegExp test s1 host stack rule w)))
  = withoutNotices (trace (snd (executeMoveRule newRegExp test s2 host stack rule w))).
Proof.
  unfold executeMoveRule.
  destruct (enabled rule) eqn:En.
  2:{ rewrite !(execute_disabled _ newRegExp _ rule w En). split; reflexivity. }
  destruct (getAbstractFileByPath (vault w) (sourcePath rule)) as [[p n | p n cs] | ] eqn:Src.
  1,3: rewrite !(execute_source_not_folder _ newRegExp _ rule w En)
         by (rewrite Src; discriminate);
       split; reflexivity.
  rewrite !(execute_source_folder _ newRegExp _ rule w p n cs En Src).
  destruct (fst (targetFolderOutcome rule w)); [ | split; reflexivity ].
  destruct (newRegExp (filePattern rule)) as [e | regex] eqn:C.
  - rewrite !(guarded_compile_error _ newRegExp _ rule _ _ e C). split; reflexivity.
  - rewrite !(guarded_compiled _ newRegExp _ rule _ _ regex C).
    unfold processFolder, bind, ret.
    destruct (walk_settings regex (targetPath rule) stack (TFolder p n cs) 0 [] []
                (snd (targetFolderOutcome rule w)) (snd (targetFolderOutcome rule w))
                (conj eq_refl eq_refl)) as [Hc [Hv Ht]].
    destruct (processFolderFrom test s1 host stack (TFolder p n cs) regex (targetPath rule)
                0 [] [] (snd (targetFolderOutcome rule w))) as [[a1 | e1] w1'],
             (processFolderFrom test s2 host stack (TFolder p n cs) regex (targetPath rule)
                0 [] [] (snd (targetFolderOutcome rule w))) as [[a2 | e2] w2'];
      cbn [fst snd vault trace] in *; try discriminate.
    + split; assumption.
    + injection Hc as <-. rewrite !withoutNotices_app, Ht. split; [ exact Hv | reflexivity ].
Qed.

End TwoSettings.

(** ** A whole walk, and a whole invocation *)

Section Invocation.

Variable RegExp : Type.
Variable newRegExp : string -> Error + RegExp.
Variable test : RegExp -> string -> bool.
Variable settings : FileMoverSettings.
Variable host : nat -> list Move -> list nat.
Variable stack : nat.

Local Abbreviation run := (fun targetPath => performAll settings targetPath).
Local Abbreviation walk := (processFolder test settings host stack).
Local Abbreviation matched :=
  (fun (pattern : RegExp) (targetPath : string) (tr : list Event) =>
     map (fun t : string * string => (fst t, targetPath +++ "/" +++ snd t))
       (filter (fun t : string * string => test pattern (snd t)) (patternTests tr))).

(** The walk of a folder is a run that begins with no move in flight.  When
    it returns, no move is in flight: every move called has been settled,
    each before the return of a [Promise.all] that waits for it. *)
Lemma processFolder_spec (folder : TAbstractFile) (pattern : RegExp) (targetPath : string)
    (w : World) :
  exists acts,
    allowed test settings pattern targetPath acts ([], vault w) /\
    snd (walk folder pattern targetPath w)
    = mkWorld (snd (snd (run targetPath acts ([], vault w))))
        (trace w ++ fst (run targetPath acts ([], vault w))) /\
    moveCalls (fst (run targetPath acts ([], vault w)))
    = matched pattern targetPath (fst (run targetPath acts ([], vault w))) /\
    (fst (walk folder pattern targetPath w) = Normal tt ->
     everyMoveAwaited (fst (run targetPath acts ([], vault w))) = true /\
     (exists pre ps, fst (run targetPath acts ([], vault w)) = pre ++ [AwaitAll ps]) /\
     Permutation (awaited (fst (run targetPath acts ([], vault w))))
       (map fst (moveCalls (fst (run targetPath acts ([], vault w))))) /\
     Permutation (renameCalls (fst (run targetPath acts ([], vault w))))
       (moveCalls (fst (run targetPath acts ([], vault w))))).
Proof.
  destruct (walk_runs _ test settings host pattern targetPath stack folder 0 [] [] w)
    as (acts & Hok & Hw & Hq).
  destruct (walk_structure _ test settings host pattern targetPath stack folder 0 [] [] w)
    as (tr & Htr & Hcalls & Hn).
  cbv beta in *.
  assert (E : tr = fst (performAll settings targetPath acts ([], vault w))).
  { rewrite Hw in Htr. cbn [trace] in Htr. apply app_inv_head in Htr. symmetry. exact Htr. }
  subst tr. exists acts. split; [ exact Hok | ].
  unfold processFolder, bind, ret.
  destruct (processFolderFrom test settings host stack folder pattern targetPath 0 [] [] w)
    as [[q' | e] w'] eqn:Ew; cbn [fst snd] in *.
  - split; [ exact Hw | ]. split; [ exact Hcalls | ]. intros _.
    destruct (Hn q' eq_refl) as (H1 & H2 & (pre & ps' & H3 & _) & H4).
    assert (Eq : q' = []).
    { destruct q' as [ | m q']; [ reflexivity | ].
      destruct (H1 m (or_introl eq_refl)) as [[] _]. }
    split; [ exact H2 | ]. split; [ exists pre, ps'; exact H3 | ]. split; [ exact H4 | ].
    pose proof (run_conservation settings targetPath acts ([], vault w)) as Hc.
    rewrite <- (Hq q' eq_refl), Eq in Hc. cbn [map fst app] in Hc.
    rewrite app_nil_r in Hc. exact Hc.
  - split; [ exact Hw | ]. split; [ exact Hcalls | discriminate ].
Qed.

(** In a well-formed tree, with a call stack that can take the folders
    below the folder, the walk returns. *)
Lemma processFolder_returns (folder : TAbstractFile) (pattern : RegExp) (targetPath : string)
    (w : World) :
  wellFormed (vault w) ->
  foldersFrom 0 (childrenOf (vault w) folder) <= stack ->
  fst (walk folder pattern targetPath w) = Normal tt.
Proof.
  intros Wf Hb.
  destruct (walk_returns _ test settings host pattern targetPath stack folder 0 [] [] w Wf Hb)
    as (q' & w' & H).
  unfold processFolder, bind, ret. cbv beta in H. rewrite H. reflexivity.
Qed.

Lemma targetFolderOutcome_wellFormed (rule : MoveRule) (w : World) :
  wellFormed (vault w) -> wellFormed (vault (snd (targetFolderOutcome rule w))).
Proof.
  intros Wf. unfold targetFolderOutcome.
  destruct (getAbstractFileByPath (vault w) (targetPath rule)); [ exact Wf | ].
  destruct (createFolder (vault w) (targetPath rule)) as [e | v'] eqn:C; cbn [snd vault].
  - exact Wf.
  - exact (createFolder_wellFormed _ _ _ C Wf).
Qed.

(** When the target-folder block lets the invocation go on, the target path
    resolves. *)
Lemma targetFolderOutcome_resolves (rule : MoveRule) (w : World) :
  fst (targetFolderOutcome rule w) = true ->
  getAbstractFileByPath (vault (snd (targetFolderOutcome rule w))) (targetPath rule) <> None.
Proof.
  unfold targetFolderOutcome.
  destruct (getAbstractFileByPath (vault w) (targetPath rule)) eqn:E;
    [ intros _; cbn [snd]; rewrite E; discriminate | ].
  destruct (createFolder (vault w) (targetPath rule)) as [e | v'] eqn:C; cbn [fst snd vault].
  - discriminate.
  - intros _. rewrite (createFolder_resolve_new _ _ _ C). discriminate.
Qed.

(** An enabled rule with a folder as source, a target that exists or is
    created and a pattern that compiles: the invocation is the walk of the
    folder, started in the world the target-folder block leaves, with the
    invalid-pattern report if the walk throws. *)
Lemma execute_walks (rule : MoveRule) (w : World) p n cs w1 regex :
  enabled rule = true ->
  getAbstractFileByPath (vault w) (sourcePath rule) = Some (TFolder p n cs) ->
  ensureTargetFolder rule w = (Normal true, w1) ->
  newRegExp (filePattern rule) = inr regex ->
  w1 = snd (targetFolderOutcome rule w) /\
  fst (targetFolderOutcome rule w) = true /\
  executeMoveRule newRegExp test settings host stack rule w
  = match walk (TFolder p n cs) regex (targetPath rule) w1 with
    | (Normal a, w') => (Normal a, w')
    | (Abrupt e, w') =>
        (Normal tt,
         mkWorld (vault w') (trace w' ++ [Notice (msgInvalidRegExp rule); ConsoleError e]))
    end.
Proof.
  intros En Src Tgt C. unfold executeMoveRule.
  rewrite (execute_source_folder _ newRegExp _ rule w p n cs En Src).
  rewrite ensureTargetFolder_outcome in Tgt. injection Tgt as -> <-.
  split; [ reflexivity | ]. split; [ reflexivity | ].
  exact (guarded_compiled _ newRegExp _ rule _ _ regex C).
Qed.

Section Preservation.

(** A property of the tree kept by every successful [rename]. *)
Variable I : Vault -> Prop.
Hypothesis I_rename :
  forall v f np f' v', rename v f np = inr (f', v') -> I v -> I v'.

Lemma processFolder_preserves (folder : TAbstractFile) (pattern : RegExp)
    (targetPath : string) (w : World) :
  I (vault w) -> I (vault (snd (walk folder pattern targetPath w))).
Proof.
  intros Hw. destruct (processFolder_spec folder pattern targetPath w) as (acts & _ & E & _).
  rewrite E. cbn [vault].
  exact (run_preserves settings targetPath I I_rename acts ([], vault w) Hw).
Qed.

(** The tree an invocation leaves is the tree the target-folder block
    leaves, or comes from it by the moves of a walk. *)
Lemma execute_after_target (rule : MoveRule) (w : World) :
  I (vault w) ->
  I (vault (snd (targetFolderOutcome rule w))) ->
  I (vault (snd (executeMoveRule newRegExp test settings host stack rule w))).
Proof.
  intros Hw Hw1. unfold executeMoveRule.
  destruct (enabled rule) eqn:En.
  2:{ rewrite (execute_disabled _ newRegExp _ rule w En). exact Hw. }
  destruct (getAbstractFileByPath (vault w) (sourcePath rule)) as [[p n | p n cs] | ] eqn:Src.
  1,3: rewrite (execute_source_not_folder _ newRegExp _ rule w En)
         by (rewrite Src; discriminate);
       exact Hw.
  rewrite (execute_source_folder _ newRegExp _ rule w p n cs En Src).
  destruct (fst (targetFolderOutcome rule w)); [ | exact Hw1 ].
  destruct (newRegExp (filePattern rule)) as [e | regex] eqn:C.
  - rewrite (guarded_compile_error _ newRegExp _ rule _ _ e C). exact Hw1.
  - rewrite (guarded_compiled _ newRegExp _ rule _ _ regex C).
    pose proof (processFolder_preserves (TFolder p n cs) regex (targetPath rule) _ Hw1) as H.
    destruct (walk (TFolder p n cs) regex (targetPath rule) (snd (targetFolderOutcome rule w)))
      as [[a | e] w']; exact H.
Qed.

(** A property of the tree kept by every successful [createFolder] and
    [rename] is kept by an invocation. *)
Lemma execute_preserves (rule : MoveRule) (w : World) :
  (forall v p v', createFolder v p = inr v' -> I v -> I v') ->
  I (vault w) ->
  I (vault (snd (executeMoveRule newRegExp test settings host stack rule w))).
Proof.
  intros I_create Hw. apply execute_after_target; [ exact Hw | ].
  unfold targetFolderOutcome.
  destruct (getAbstractFileByPath (vault w) (targetPath rule)); [ exact Hw | ].
  destruct (createFolder (vault w) (targetPath rule)) as [e | v'] eqn:C; cbn [snd vault].
  - exact Hw.
  - exact (I_create _ _ _ C Hw).
Qed.

End Preservation.

End Invocation.

(** ** The host that settles the moves in the order of the calls *)

Section InOrder.

Variable RegExp : Type.
Variable test : RegExp -> string -> bool.
Variable settings : FileMoverSettings.
Variable pattern : RegExp.
Variable targetPath : string.

Local Abbreviation run := (performAll settings targetPath).
Local Abbreviation step := (perform settings targetPath).

Lemma settle_all (q : list Move) (v : Vault) :
  fst (snd (run (map Settle (map (fun _ => 0) q)) (q, v))) = [] /\
  renameCalls (fst (run (map Settle (map (fun _ => 0) q)) (q, v))) = map callOf q.
Proof.
  revert v. induction q as [ | m q IH]; intros v; [ split; reflexivity | ].
  cbn [map]. rewrite run_cons. cbn [fst snd]. rewrite renameCalls_app.
  destruct (step_cases settings targetPath (Settle 0) (m :: q, v))
    as [(child & Ea & E) | [(child & Ea & E) | [(ps & Ea & E) | [(j & Ea & Hnth & E)
       | [(j & m' & e & Ea & Hnth & R & E) | (j & m' & c' & v' & Ea & Hnth & R & E)]]]]];
    try discriminate; injection Ea as <-; cbn [fst snd nth_error firstn skipn app] in *;
    try discriminate; injection Hnth as <-; rewrite E; cbn [fst snd].
  - destruct (IH v) as [H1 H2]. rewrite H1, H2. split; reflexivity.
  - destruct (IH v') as [H1 H2]. rewrite H1, H2.
    destruct (showMoveNotification settings); split; reflexivity.
Qed.

Lemma promise_all_inOrder (ps : list string) (q : list Move) (w : World) :
  exists tr w',
    promise_all settings inOrder ps q w = (Normal [], w') /\
    trace w' = trace w ++ tr /\
    renameCalls tr = map callOf q /\ moveCalls tr = [].
Proof.
  unfold promise_all, bind. rewrite (settleEach_run settings targetPath). unfold inOrder.
  destruct (settle_all q (vault w)) as [Hq Hr].
  destruct (settlings settings targetPath (map (fun _ => 0) q) (q, vault w))
    as (_ & _ & _ & Hm & _).
  rewrite Hq. cbn [settleAwaited]. unfold ret, emit. cbn [vault trace].
  eexists _, _. split; [ reflexivity | ]. cbn [trace]. rewrite <- app_assoc.
  split; [ reflexivity | ].
  rewrite renameCalls_app, moveCalls_app, Hr, Hm. split; [ apply app_nil_r | reflexivity ].
Qed.

(** Under this host the renames are settled in the order of the calls, and
    a walk that returns leaves no move in flight. *)
Lemma walk_inOrder (budget : nat) (folder : TAbstractFile) (i : nat) (ps : list string)
    (q : list Move) (w : World) :
  exists tr,
    trace (snd (processFolderFrom test settings inOrder budget folder pattern targetPath
                  i ps q w)) = trace w ++ tr /\
    forall q',
      fst (processFolderFrom test settings inOrder budget folder pattern targetPath
             i ps q w) = Normal q' ->
      q' = [] /\ renameCalls tr = map callOf q ++ moveCalls tr.
Proof.
  apply (walk_ind _ test settings inOrder pattern targetPath
           (fun ps q w r =>
              exists tr,
                trace (snd r) = trace w ++ tr /\
                forall q', fst r = Normal q' ->
                           q' = [] /\ renameCalls tr = map callOf q ++ moveCalls tr));
    clear budget folder i ps q w.
  - intros ps q w. destruct (promise_all_inOrder ps q w) as (tr & w' & Hrun & Htr & Hr & Hm).
    rewrite Hrun. exists tr. split; [ exact Htr | ]. intros q' [= <-].
    split; [ reflexivity | ]. rewrite Hr, Hm, app_nil_r. reflexivity.
  - intros child ps q w r _ _ _ (tr & Htr & Hn). cbn [trace] in Htr.
    exists (PatternTest (path child) (name child) :: tr).
    split; [ rewrite Htr, <- app_assoc; reflexivity | ]. exact Hn.
  - intros child ps q w r _ _ _ (tr & Htr & Hn). cbn [trace] in Htr.
    exists (PatternTest (path child) (name child) ::
            MoveFile (path child) (targetPath +++ "/" +++ name child) :: tr).
    split; [ rewrite Htr, <- app_assoc; reflexivity | ].
    intros q' Hq'. destruct (Hn q' Hq') as [-> H]. split; [ reflexivity | ].
    cbn [renameCalls moveCalls flat_map app]. fold (renameCalls tr). fold (moveCalls tr).
    rewrite H, map_app, <- app_assoc. reflexivity.
  - intros ps q w. exists []. cbn [fst snd]. rewrite app_nil_r.
    split; [ reflexivity | discriminate ].
  - intros ps q w q1 w1 r (tr1 & Htr1 & Hn1) (tr2 & Htr2 & Hn2). cbn [fst snd] in *.
    destruct (Hn1 q1 eq_refl) as [-> H1].
    exists (tr1 ++ tr2). split; [ rewrite Htr2, Htr1, app_assoc; reflexivity | ].
    intros q' Hq'. destruct (Hn2 q' Hq') as [-> H2]. split; [ reflexivity | ].
    cbn [map app] in H2. rewrite renameCalls_app, moveCalls_app, H1, H2, app_assoc.
    reflexivity.
  - intros ps q w e w1 (tr1 & Htr1 & _). exists tr1. cbn [fst snd] in *.
    split; [ exact Htr1 | discriminate ].
Qed.

End InOrder.

(** ** The source folder after a walk *)

Lemma resolve_path (v : Vault) (q : string) (x : TAbstractFile) :
  getAbstractFileByPath v q = Some x -> path x = q.
Proof.
  rewrite getAbstractFileByPath_root. intros H. exact (findNode_path _ _ _ H).
Qed.

Lemma targetFolderOutcome_existing (rule : MoveRule) (w : World) :
  getAbstractFileByPath (vault w) (targetPath rule) <> None ->
  targetFolderOutcome rule w = (true, w).
Proof.
  intros H. unfold targetFolderOutcome.
  destruct (getAbstractFileByPath (vault w) (targetPath rule)); [ reflexivity | ].
  contradiction.
Qed.

Section Source.

Variable RegExp : Type.
Variable test : RegExp -> string -> bool.
Variable settings : FileMoverSettings.
Variable pattern : RegExp.
Variable targetPath : string.

Local Abbreviation run := (performAll settings targetPath).
Local Abbreviation step := (perform settings targetPath).
Local Abbreviation ok := (allowed test settings pattern targetPath).
Local Abbreviation fromWalk := (walkMove test pattern targetPath).

Ltac step_cases a st :=
  destruct (step_cases settings targetPath a st)
    as [(?child & ?Ea & ?E) | [(?child & ?Ea & ?E) | [(?ps & ?Ea & ?E) | [(?i & ?Ea & ?Hnth & ?E)
       | [(?i & ?m & ?e & ?Ea & ?Hnth & ?R & ?E) | (?i & ?m & ?c' & ?v' & ?Ea & ?Hnth & ?R & ?E)]]]]];
  rewrite E in *; cbn [fst snd] in *.

(** A move of the walk goes into the target folder. *)
Lemma walkMove_parent (m : Move) :
  fromWalk m -> parentPath (toPath m) = targetPath.
Proof.
  intros Hm. rewrite (proj1 (walkMove_destination _ test pattern targetPath m Hm)).
  apply parentPath_join, noSlash_basename.
Qed.

(** With the target neither the source folder nor below it, the files below
    the source folder after a run were below it before, and no move has
    succeeded from the path of any of them. *)
Lemma run_source (acts : list Operation) (st : list Move * Vault) (src : string) a b cs :
  namesFollowPaths (snd st) -> Forall fromWalk (fst st) -> ok acts st ->
  getAbstractFileByPath (snd st) src = Some (TFolder a b cs) ->
  hasFolder targetPath (TFolder a b cs) = false ->
  exists cs',
    getAbstractFileByPath (snd (snd (run acts st))) src = Some (TFolder a b cs') /\
    forall f,
      In f (descendantFiles (TFolder a b cs')) ->
      In f (descendantFiles (TFolder a b cs)) /\
      ~ In (path f) (movedFrom (fst (run acts st))).
Proof.
  intros Wf Hq Hok Hsrc Hout.
  enough (G : exists cs',
             getAbstractFileByPath (snd (snd (run acts st))) src = Some (TFolder a b cs') /\
             hasFolder targetPath (TFolder a b cs') = false /\
             forall f,
               In f (descendantFiles (TFolder a b cs')) ->
               In f (descendantFiles (TFolder a b cs)) /\
               ~ In (path f) (movedFrom (fst (run acts st)))).
  { destruct G as (cs' & H1 & _ & H2). exists cs'. split; assumption. }
  apply (run_ind _ test settings pattern targetPath
           (fun tr st' =>
              exists cs',
                getAbstractFileByPath (snd st') src = Some (TFolder a b cs') /\
                hasFolder targetPath (TFolder a b cs') = false /\
                forall f,
                  In f (descendantFiles (TFolder a b cs')) ->
                  In f (descendantFiles (TFolder a b cs)) /\ ~ In (path f) (movedFrom tr)));
    try assumption.
  2:{ exists cs. split; [ exact Hsrc | ]. split; [ exact Hout | ].
      intros f Hf. split; [ exact Hf | intros [] ]. }
  clear. intros tr st op _ Hq _ (cs' & Hsrc & Hout & Hfiles). rewrite movedFrom_app.
  assert (Hsame : movedFrom (fst (step op st)) = [] ->
                  snd (snd (step op st)) = snd st ->
                  exists cs'0,
                    getAbstractFileByPath (snd (snd (step op st))) src
                    = Some (TFolder a b cs'0) /\
                    hasFolder targetPath (TFolder a b cs'0) = false /\
                    forall f,
                      In f (descendantFiles (TFolder a b cs'0)) ->
                      In f (descendantFiles (TFolder a b cs)) /\
                      ~ In (path f) (movedFrom tr ++ movedFrom (fst (step op st)))).
  { intros Em Ev. rewrite Em, Ev, app_nil_r. exists cs'. repeat split; try assumption;
      apply Hfiles; assumption. }
  step_cases op st; try (apply Hsame; reflexivity). clear Hsame.
  assert (Hm : fromWalk m) by exact (proj1 (Forall_forall _ _) Hq m (nth_error_In _ _ Hnth)).
  destruct (rename_inr _ _ _ _ _ R) as (nm & x & y & _ & Hp & _ & _ & _ & _).
  assert (Hne : src <> path (moving m)) by (intros ->; congruence).
  rewrite (rename_resolve_other _ _ _ _ _ _ _ R Hne Hsrc), (walkMove_parent m Hm).
  assert (Hout' : hasFolder targetPath (prune (path (moving m)) (TFolder a b cs')) = false)
    by (rewrite hasFolder_prune; exact Hout).
  rewrite (graft_noop _ _ _ Hout'). cbn [prune] in *.
  eexists. split; [ reflexivity | ]. split; [ exact Hout' | ].
  intros f Hf.
  change (TFolder a b (filter (fun c => negb (isFileAt (path (moving m)) c))
                         (map (prune (path (moving m))) cs')))
    with (prune (path (moving m)) (TFolder a b cs')) in Hf.
  rewrite (descendantFiles_prune (path (moving m)) (TFolder a b cs') eq_refl) in Hf. apply filter_In in Hf as [Hf Hkeep].
  destruct (Hfiles f Hf) as [Hin Hnot]. split; [ exact Hin | ].
  intros H. apply in_app_or in H as [H | H]; [ exact (Hnot H) | ].
  assert (Ef : path f = path (moving m)).
  { destruct (showMoveNotification settings); cbn in H; destruct H as [H | []];
      symmetry; exact H. }
  pose proof (proj1 (Forall_forall _ _) (descendantFiles_are_files (TFolder a b cs')) f Hf)
    as Hfile.
  destruct f as [fp fn | fp fn fds]; [ | discriminate ].
  cbn [isFileAt path] in *. rewrite Ef, String.eqb_refl in Hkeep. discriminate.
Qed.

(** The target path resolves after a run if it did before. *)
Lemma run_target_resolves (acts : list Operation) (st : list Move * Vault) :
  namesFollowPaths (snd st) -> Forall fromWalk (fst st) -> ok acts st ->
  getAbstractFileByPath (snd st) targetPath <> None ->
  getAbstractFileByPath (snd (snd (run acts st))) targetPath <> None.
Proof.
  intros Wf Hq Hok H0.
  apply (run_ind _ test settings pattern targetPath
           (fun _ st' => getAbstractFileByPath (snd st') targetPath <> None));
    try assumption.
  clear. intros _ st op _ Hq _ H. step_cases op st; try assumption.
  assert (Hm : fromWalk m) by exact (proj1 (Forall_forall _ _) Hq m (nth_error_In _ _ Hnth)).
  destruct (rename_inr _ _ _ _ _ R) as (nm & x & y & _ & Hp & _ & Hpar & _ & _).
  apply parentIsFolder_true in Hpar as (pn & pcs & Hpar). rewrite (walkMove_parent m Hm) in Hpar.
  assert (Hne : targetPath <> path (moving m)) by (intros E'; rewrite E' in Hpar; congruence).
  rewrite (rename_resolve_other _ _ _ _ _ _ _ R Hne Hpar). discriminate.
Qed.

End Source.

(** ** A walk that leaves the tree as it is *)

Lemma filter_map_commute {A B : Type} (f : B -> bool) (g : A -> B) (l : list A) :
  filter f (map g l) = map g (filter (fun a => f (g a)) l).
Proof.
  induction l as [ | a l IH]; [ reflexivity | ].
  cbn [map filter]. destruct (f (g a)); cbn [map]; rewrite IH; reflexivity.
Qed.

Lemma failedFrom_all (tr : list Event) :
  movedFrom tr = [] -> failedFrom tr = map fst (renameCalls tr).
Proof.
  induction tr as [ | e tr IH]; [ reflexivity | ].
  destruct e as [ | | | | f t [] | | | ]; cbn [movedFrom failedFrom renameCalls flat_map app map fst];
    try exact IH.
  - discriminate.
  - intros H. fold (failedFrom tr). fold (renameCalls tr).
    rewrite (IH H). reflexivity.
Qed.

Lemma events_silent (tr : list Event) :
  moveCalls tr = [] -> renameCalls tr = [] -> consoleLines tr = [] -> notices tr = [] ->
  (forall p, ~ In (CreateFolder p) tr) ->
  forallb isSilent tr = true.
Proof.
  induction tr as [ | e tr IH]; intros Hm Hr Hc Hn Hf; [ reflexivity | ].
  assert (Hf' : forall p, ~ In (CreateFolder p) tr)
    by (intros p H; apply (Hf p); right; exact H).
  destruct e as [ | | | p | | | | ];
    cbn [moveCalls renameCalls consoleLines notices flat_map app] in Hm, Hr, Hc, Hn;
    try discriminate; cbn [forallb isSilent andb].
  - exfalso. apply (Hf p). left. reflexivity.
  - exact (IH Hm Hr Hc Hn Hf').
  - exact (IH Hm Hr Hc Hn Hf').
Qed.

(** With a plain file where the target folder should be, every move into
    the target fails. *)
Lemma rename_into_file (targetPath : string) (v : Vault) (child : TAbstractFile) a m :
  getAbstractFileByPath v targetPath = Some (TFile a m) ->
  name child = basename (path child) ->
  exists e, rename v child (targetPath +++ "/" +++ name child) = inl e.
Proof.
  intros Ht W.
  destruct (rename v child (targetPath +++ "/" +++ name child)) as [e | [c' v']] eqn:R;
    [ exists e; reflexivity | exfalso ].
  apply rename_inr in R as (_ & _ & _ & _ & _ & _ & Hpar & _).
  unfold parentIsFolder in Hpar.
  rewrite W, (parentPath_join targetPath _ (noSlash_basename _)), Ht in Hpar. discriminate.
Qed.

Section Still.

Variable RegExp : Type.
Variable test : RegExp -> string -> bool.
Variable settings : FileMoverSettings.
Variable host : nat -> list Move -> list nat.
Variable stack : nat.

Local Abbreviation walk := (processFolder test settings host stack).

(** The walk of a folder of a well-formed tree, with a call stack that can
    take its folders, when the move of every matching file below it fails:
    the walk returns and the tree is as it was; every file below the folder
    has been tested, depth first and once; a move has been called for every
    file of the match set, and each has been settled. *)
Lemma still_walk (p n : string) (cs : list TAbstractFile) (pattern : RegExp)
    (targetPath : string) (w : World) :
  wellFormed (vault w) ->
  getAbstractFileByPath (vault w) p = Some (TFolder p n cs) ->
  foldersFrom 0 cs <= stack ->
  (forall f,
      In f (descendantFiles (TFolder p n cs)) ->
      test pattern (name f) = true ->
      exists e, rename (vault w) f (targetPath +++ "/" +++ name f) = inl e) ->
  exists tr,
    walk (TFolder p n cs) pattern targetPath w
    = (Normal tt, mkWorld (vault w) (trace w ++ tr)) /\
    patternTests tr = map (fun f => (path f, name f)) (descendantFiles (TFolder p n cs)) /\
    moveCalls tr
    = map (fun f => (path f, targetPath +++ "/" +++ name f))
        (matchSet test pattern (TFolder p n cs)) /\
    movedFrom tr = [] /\
    Permutation (renameCalls tr) (moveCalls tr) /\
    (forall ev, In ev tr -> match ev with CreateFolder _ => False | _ => True end) /\
    length (consoleLines tr) = length (renameCalls tr) /\
    (renameCalls tr = [] -> notices tr = []).
Proof.
  intros Wf Hp Hb Hstuck.
  destruct (static_walk _ test settings host pattern targetPath stack p n cs 0 [] [] w
              Wf Hp Hb) as (q' & tr & Hrun & Hpt & _ & Hmoved).
  { intros m []. }
  { exact Hstuck. }
  destruct (processFolder_spec _ test settings host stack (TFolder p n cs) pattern
              targetPath w) as (acts & _ & Hw & Hcalls & Hn).
  cbv beta in *.
  assert (Hres : walk (TFolder p n cs) pattern targetPath w
                 = (Normal tt, mkWorld (vault w) (trace w ++ tr))).
  { unfold processFolder, bind, ret. rewrite Hrun. reflexivity. }
  rewrite Hres in Hw, Hn. cbn [fst snd] in Hw, Hn. injection Hw as Hv Ht.
  apply app_inv_head in Ht.
  pose proof (run_lines settings targetPath acts ([], vault w)) as (L1 & L2 & L3).
  pose proof (run_events settings targetPath acts ([], vault w)) as Hev.
  rewrite <- Ht in Hcalls, Hn, L1, L2, L3, Hev.
  exists tr. split; [ exact Hres | ]. split; [ exact Hpt | ].
  split.
  { rewrite Hcalls, Hpt, filter_map_commute, map_map. reflexivity. }
  split; [ exact Hmoved | ].
  destruct (Hn eq_refl) as (_ & _ & _ & Hperm).
  split; [ exact Hperm | ].
  split.
  { intros ev Hin. specialize (Hev ev Hin). destruct ev; try exact I. exact Hev. }
  split; [ exact L1 | ].
  intros Hr. destruct (showMoveNotification settings).
  - specialize (L2 eq_refl). rewrite Hr in L2. destruct (notices tr); [ reflexivity | discriminate ].
  - rewrite (L3 eq_refl), (failedFrom_all tr Hmoved), Hr. reflexivity.
Qed.

End Still.

(** ** What a walk can say *)

Section WalkEvents.

Variable RegExp : Type.
Variable test : RegExp -> string -> bool.
Variable settings : FileMoverSettings.
Variable host : nat -> list Move -> list nat.
Variable stack : nat.

Local Abbreviation walk := (processFolder test settings host stack).

(** A walk adds events to the trace; none is a [createFolder] call or the
    notice of a folder that could not be created. *)
Lemma walk_events (folder : TAbstractFile) (pattern : RegExp) (targetPath : string)
    (w : World) :
  exists tr,
    trace (snd (walk folder pattern targetPath w)) = trace w ++ tr /\
    Forall (fun e => isCreateFolder e = false) tr /\
    (forall t, ~ In (Notice ("Failed to create target folder: " +++ t)) tr) /\
    moveCalls tr
    = map (fun t : string * string => (fst t, targetPath +++ "/" +++ snd t))
        (filter (fun t : string * string => test pattern (snd t)) (patternTests tr)).
Proof.
  destruct (processFolder_spec _ test settings host stack folder pattern targetPath w)
    as (acts & _ & Hw & Hcalls & _).
  cbv beta in *. rewrite Hw. cbn [trace]. eexists. split; [ reflexivity | ].
  pose proof (run_events settings targetPath acts ([], vault w)) as Hev.
  split; [ | split; [ | exact Hcalls ] ].
  - apply Forall_forall. intros e He. specialize (Hev e He).
    destruct e; try reflexivity. contradiction.
  - intros t Hin. specialize (Hev _ Hin). cbn in Hev.
    destruct Hev as [(x & H) | (x & H)]; discriminate.
Qed.

End WalkEvents.

(** ** What a walk leaves *)

Section Outcome.

Variable RegExp : Type.
Variable test : RegExp -> string -> bool.
Variable settings : FileMoverSettings.
Variable host : nat -> list Move -> list nat.
Variable stack : nat.

Local Abbreviation walk := (processFolder test settings host stack).


Lemma arrival_landedIn (v : Vault) (targetPath from to : string) :
  to = targetPath +++ "/" +++ basename from ->
  getAbstractFileByPath v to = Some (TFile to (basename to)) ->
  childOf v (parentPath to) (TFile to (basename to)) ->
  landedIn v targetPath (TFile from (basename from)).
Proof.
  intros -> Hres Hchild.
  rewrite (basename_join _ _ (noSlash_basename from)) in Hres, Hchild.
  rewrite (parentPath_join _ _ (noSlash_basename from)) in Hchild.
  split; assumption.
Qed.

(** The events of a walk in a tree whose names follow the paths, and the
    tree it leaves, whether the walk returns or throws. *)
Lemma walk_outcome (folder : TAbstractFile) (pattern : RegExp) (targetPath : string)
    (w : World) (tr : list Event) :
  namesFollowPaths (vault w) ->
  trace (snd (walk folder pattern targetPath w)) = trace w ++ tr ->
  (forall from to,
      In (MoveFile from to) tr ->
      to = targetPath +++ "/" +++ basename from /\ test pattern (basename from) = true) /\
  (forall from to okay, In (Rename from to okay) tr -> In (MoveFile from to) tr) /\
  (forall from to,
      In (Rename from to true) tr ->
      landedIn (vault (snd (walk folder pattern targetPath w))) targetPath
        (TFile from (basename from))) /\
  (forall q a m,
      getAbstractFileByPath (vault w) q = Some (TFile a m) ->
      ~ In q (movedFrom tr) ->
      getAbstractFileByPath (vault (snd (walk folder pattern targetPath w))) q
      = Some (TFile a m)) /\
  (forall from to,
      In (Rename from to true) tr -> getAbstractFileByPath (vault w) to = None) /\
  NoDup (movedTo tr) /\
  reportsFollow (showMoveNotification settings) tr /\
  length (consoleLines tr) = length (renameCalls tr) /\
  (showMoveNotification settings = true -> length (notices tr) = length (renameCalls tr)) /\
  (showMoveNotification settings = false ->
   notices tr = map (fun f => "Failed to move file: " +++ f) (failedFrom tr)).
Proof.
  intros Wf Htr.
  destruct (processFolder_spec _ test settings host stack folder pattern targetPath w)
    as (acts & Hok & Hw & _ & _).
  cbv beta in *. rewrite Hw in Htr |- *. cbn [vault trace] in Htr |- *.
  apply app_inv_head in Htr. subst tr.
  assert (Hq : Forall (walkMove test pattern targetPath) (fst (@nil Move, vault w)))
    by constructor.
  split; [ exact (run_calls _ test settings pattern targetPath acts ([], vault w) Wf Hq Hok) | ].
  split.
  { intros from to okay Hin. apply moveCalls_In.
    pose proof (run_conservation settings targetPath acts ([], vault w)) as Hc.
    cbn [fst map app] in Hc.
    apply (Permutation_in (from, to) Hc). apply in_or_app. left.
    exact (renameCalls_of _ _ _ _ Hin). }
  split.
  { intros from to Hin.
    destruct (run_arrival _ test settings pattern targetPath acts ([], vault w) Wf Hq Hok
                from to Hin) as (Hto & Hres & Hchild).
    exact (arrival_landedIn _ _ _ _ Hto Hres Hchild). }
  split; [ intros q a m; exact (run_frame settings targetPath acts ([], vault w) q a m) | ].
  destruct (run_never_overwrites _ test settings pattern targetPath acts ([], vault w)
              Wf Hq Hok) as [H1 H2].
  split; [ exact H1 | ]. split; [ exact H2 | ].
  split; [ exact (run_reports settings targetPath acts ([], vault w)) | ].
  exact (run_lines settings targetPath acts ([], vault w)).
Qed.

(** What a walk says, whatever the tree. *)
Lemma walk_lines (folder : TAbstractFile) (pattern : RegExp) (targetPath : string)
    (w : World) (tr : list Event) :
  trace (snd (walk folder pattern targetPath w)) = trace w ++ tr ->
  length (consoleLines tr) = length (renameCalls tr) /\
  (showMoveNotification settings = true -> length (notices tr) = length (renameCalls tr)) /\
  (showMoveNotification settings = false ->
   notices tr = map (fun f => "Failed to move file: " +++ f) (failedFrom tr)).
Proof.
  intros Htr.
  destruct (processFolder_spec _ test settings host stack folder pattern targetPath w)
    as (acts & _ & Hw & _ & _).
  cbv beta in *. rewrite Hw in Htr. cbn [trace] in Htr. apply app_inv_head in Htr. subst tr.
  exact (run_lines settings targetPath acts ([], vault w)).
Qed.

(** When the walk returns, every move called has been settled, each before
    the return of a [Promise.all] that waits for it, and the walk ends with
    the return of a [Promise.all]. *)
Lemma walk_awaits (folder : TAbstractFile) (pattern : RegExp) (targetPath : string)
    (w : World) (tr : list Event) :
  fst (walk folder pattern targetPath w) = Normal tt ->
  trace (snd (walk folder pattern targetPath w)) = trace w ++ tr ->
  Permutation (renameCalls tr) (moveCalls tr) /\
  everyMoveAwaited tr = true /\
  (exists pre ps, tr = pre ++ [AwaitAll ps]) /\
  Permutation (awaited tr) (map fst (moveCalls tr)).
Proof.
  intros Hn Htr.
  destruct (processFolder_spec _ test settings host stack folder pattern targetPath w)
    as (acts & _ & Hw & _ & H).
  cbv beta in *. rewrite Hw in Htr. cbn [trace] in Htr. apply app_inv_head in Htr. subst tr.
  destruct (H Hn) as (H1 & H2 & H3 & H4). repeat split; assumption.
Qed.


(** The source folder after a walk, when the target is neither the source
    nor below it: the files below it were below it before, and none has been
    moved; the folder has no more folders than before; the target path
    resolves as before; and the tree is well formed as before. *)
Lemma walk_source (folder : TAbstractFile) (pattern : RegExp) (targetPath : string)
    (w : World) (tr : list Event) (src : string) a b cs :
  wellFormed (vault w) ->
  getAbstractFileByPath (vault w) src = Some (TFolder a b cs) ->
  hasFolder targetPath (TFolder a b cs) = false ->
  trace (snd (walk folder pattern targetPath w)) = trace w ++ tr ->
  wellFormed (vault (snd (walk folder pattern targetPath w))) /\
  (getAbstractFileByPath (vault w) targetPath <> None ->
   getAbstractFileByPath (vault (snd (walk folder pattern targetPath w))) targetPath
   <> None) /\
  exists cs',
    getAbstractFileByPath (vault (snd (walk folder pattern targetPath w))) src
    = Some (TFolder a b cs') /\
    (forall f,
        In f (descendantFiles (TFolder a b cs')) ->
        In f (descendantFiles (TFolder a b cs)) /\ ~ In (path f) (movedFrom tr)) /\
    forall k, foldersFrom k cs' <= foldersFrom k cs.
Proof.
  intros Wf Hsrc Hout Htr.
  destruct (processFolder_spec _ test settings host stack folder pattern targetPath w)
    as (acts & Hok & Hw & _ & _).
  cbv beta in *. rewrite Hw in Htr |- *. cbn [vault trace] in Htr |- *.
  apply app_inv_head in Htr. subst tr.
  assert (Hq : Forall (walkMove test pattern targetPath) (fst (@nil Move, vault w)))
    by constructor.
  split; [ exact (run_wellFormed settings targetPath acts ([], vault w) Wf) | ].
  split.
  { exact (run_target_resolves _ test settings pattern targetPath acts ([], vault w)
             (wellFormed_names _ Wf) Hq Hok). }
  destruct (run_source _ test settings pattern targetPath acts ([], vault w) src a b cs
              (wellFormed_names _ Wf) Hq Hok Hsrc Hout) as (cs' & Hsrc' & Hfiles).
  exists cs'. split; [ exact Hsrc' | ]. split; [ exact Hfiles | ].
  assert (G : exists cs'',
             getAbstractFileByPath
               (snd (snd (performAll settings targetPath acts ([], vault w)))) src
             = Some (TFolder a b cs'') /\
             forall k, foldersFrom k cs'' <= foldersFrom k cs).
  { apply (run_preserves settings targetPath
             (fun v => exists cs'',
                  getAbstractFileByPath v src = Some (TFolder a b cs'') /\
                  forall k, foldersFrom k cs'' <= foldersFrom k cs)).
    - intros v f np f' v' R (c1 & H1 & L1).
      destruct (rename_folder_children _ _ _ _ _ _ _ _ _ R H1) as (c2 & H2 & L2).
      exists c2. split; [ exact H2 | ]. intros k. specialize (L1 k). specialize (L2 k). lia.
    - exists cs. split; [ exact Hsrc | ]. intros k. lia. }
  destruct G as (cs'' & H1 & L). cbn [snd] in Hsrc'. rewrite Hsrc' in H1.
  injection H1 as <-. exact L.
Qed.

End Outcome.

(** ** The spec's example, run *)

Ltac check_tree :=
  intros x Hx; cbn in Hx;
  repeat (destruct Hx as [<- | Hx];
          [ split; [ reflexivity | intros E; first [ discriminate E | reflexivity ] ] | ]);
  destruct Hx.

Lemma inbox_wellFormed : wellFormed Sample.inbox.
Proof. check_tree. Qed.

Lemma nested_wellFormed : wellFormed Sample.nested.
Proof. check_tree. Qed.

Lemma twins_wellFormed : wellFormed Sample.twins.
Proof. check_tree. Qed.

Lemma around_wellFormed : wellFormed Sample.around.
Proof. check_tree. Qed.

Lemma targetIsFile_wellFormed : wellFormed Sample.targetIsFile.
Proof. check_tree. Qed.

Example pattern_compiles :
  Fragment.newRegExp "\.pdf$" = inr Sample.pdfRegExp.
Proof. reflexivity. Qed.

Example pattern_tests :
  map (Fragment.test Sample.pdfRegExp) ["a.pdf"; "b.txt"; "a.pdf.bak"; "pdf"]
  = [true; false; false; false].
Proof. reflexivity. Qed.

Example unbalanced_bracket_is_refused :
  exists e, Fragment.newRegExp "[" = inl e.
Proof. eexists. reflexivity. Qed.

(** The rule [{Inbox, \.pdf$, Inbox/PDFs}] on [Inbox/a.pdf], [Inbox/b.txt]
    and [Inbox/Archive/c.pdf], with the host that settles the moves as soon
    as it can: the folder is created, the two PDF files are moved into it,
    [b.txt] stays.  The two moves are settled while the walk waits for the
    one of [Archive]; the folder [Inbox/PDFs] has by then moved up in the
    children of [Inbox], to the index that the loop has just left, and is
    not walked. *)
Example spec_example :
  Sample.run DEFAULT_SETTINGS Sample.pdfRule Sample.inbox
  = (Normal tt,
     mkWorld
       [TFolder "Inbox" "Inbox"
          [TFile "Inbox/b.txt" "b.txt";
           TFolder "Inbox/Archive" "Archive" [];
           TFolder "Inbox/PDFs" "PDFs"
             [TFile "Inbox/PDFs/a.pdf" "a.pdf";
              TFile "Inbox/PDFs/c.pdf" "c.pdf"]]]
       [CreateFolder "Inbox/PDFs";
        PatternTest "Inbox/a.pdf" "a.pdf";
        MoveFile "Inbox/a.pdf" "Inbox/PDFs/a.pdf";
        PatternTest "Inbox/b.txt" "b.txt";
        PatternTest "Inbox/Archive/c.pdf" "c.pdf";
        MoveFile "Inbox/Archive/c.pdf" "Inbox/PDFs/c.pdf";
        Rename "Inbox/a.pdf" "Inbox/PDFs/a.pdf" true;
        Notice "Moved file: Inbox/PDFs/a.pdf -> Inbox/PDFs/a.pdf";
        ConsoleLog "Moved file: Inbox/PDFs/a.pdf -> Inbox/PDFs/a.pdf";
        Rename "Inbox/Archive/c.pdf" "Inbox/PDFs/c.pdf" true;
        Notice "Moved file: Inbox/PDFs/c.pdf -> Inbox/PDFs/c.pdf";
        ConsoleLog "Moved file: Inbox/PDFs/c.pdf -> Inbox/PDFs/c.pdf";
        AwaitAll ["Inbox/Archive/c.pdf"];
        AwaitAll ["Inbox/a.pdf"]]).
Proof. reflexivity. Qed.

(** The same with the host that settles a move only when it is awaited: the
    move of [a.pdf] is still in flight when the walk comes to [Inbox/PDFs],
    which it walks, and the file [c.pdf] that has just arrived there is
    tested again and moved onto itself, which fails. *)
Example spec_example_settled_late :
  Sample.runBy onlyAwaited 16 DEFAULT_SETTINGS Sample.pdfRule Sample.inbox
  = (Normal tt,
     mkWorld
       [TFolder "Inbox" "Inbox"
          [TFile "Inbox/b.txt" "b.txt";
           TFolder "Inbox/Archive" "Archive" [];
           TFolder "Inbox/PDFs" "PDFs"
             [TFile "Inbox/PDFs/c.pdf" "c.pdf";
              TFile "Inbox/PDFs/a.pdf" "a.pdf"]]]
       [CreateFolder "Inbox/PDFs";
        PatternTest "Inbox/a.pdf" "a.pdf";
        MoveFile "Inbox/a.pdf" "Inbox/PDFs/a.pdf";
        PatternTest "Inbox/b.txt" "b.txt";
        PatternTest "Inbox/Archive/c.pdf" "c.pdf";
        MoveFile "Inbox/Archive/c.pdf" "Inbox/PDFs/c.pdf";
        Rename "Inbox/Archive/c.pdf" "Inbox/PDFs/c.pdf" true;
        Notice "Moved file: Inbox/PDFs/c.pdf -> Inbox/PDFs/c.pdf";
        ConsoleLog "Moved file: Inbox/PDFs/c.pdf -> Inbox/PDFs/c.pdf";
        AwaitAll ["Inbox/Archive/c.pdf"];
        PatternTest "Inbox/PDFs/c.pdf" "c.pdf";
        MoveFile "Inbox/PDFs/c.pdf" "Inbox/PDFs/c.pdf";
        Rename "Inbox/PDFs/c.pdf" "Inbox/PDFs/c.pdf" false;
        ConsoleError
          "Failed to move file: Inbox/PDFs/c.pdf Destination file already exists!";
        Notice "Failed to move file: Inbox/PDFs/c.pdf";
        AwaitAll ["Inbox/PDFs/c.pdf"];
        Rename "Inbox/a.pdf" "Inbox/PDFs/a.pdf" true;
        Notice "Moved file: Inbox/PDFs/a.pdf -> Inbox/PDFs/a.pdf";
        ConsoleLog "Moved file: Inbox/PDFs/a.pdf -> Inbox/PDFs/a.pdf";
        AwaitAll ["Inbox/a.pdf"]]).
Proof. reflexivity. Qed.

(** A source path that is a file. *)
Example file_as_source :
  Sample.run DEFAULT_SETTINGS Sample.fileSourceRule Sample.inbox
  = (Normal tt,
     mkWorld Sample.inbox [Notice (msgSourceNotFound Sample.fileSourceRule)]).
Proof. reflexivity. Qed.

(** A target path that is a plain file: no folder is created, the move is
    called for a path below it and the rename is refused. *)
Example file_as_target :
  trace (snd (Sample.run DEFAULT_SETTINGS Sample.outRule Sample.targetIsFile))
  = [PatternTest "Inbox/a.pdf" "a.pdf";
     MoveFile "Inbox/a.pdf" "Out/a.pdf";
     Rename "Inbox/a.pdf" "Out/a.pdf" false;
     ConsoleError "Failed to move file: Inbox/a.pdf ENOENT: no such file or directory";
     Notice "Failed to move file: Inbox/a.pdf";
     AwaitAll ["Inbox/a.pdf"]].
Proof. reflexivity. Qed.

(** A call stack that cannot take a single folder child: the walk throws at
    [Inbox/Archive], and the invocation reports an invalid pattern. *)
Example call_stack_exhausted :
  Sample.runBy inOrder 0 DEFAULT_SETTINGS Sample.outRule Sample.nested
  = (Normal tt,
     mkWorld Sample.nested
       [Notice "Invalid regular expression: \.pdf$";
        ConsoleError "RangeError: Maximum call stack size exceeded"]).
Proof. reflexivity. Qed.

(** * The plugin in its host: saving, registering, editing *)

Section LifecycleFacts.

Import Lifecycle.

Lemma addCommands_eq (rs : list MoveRule) (p : Plugin) :
  fold_left (fun p rule => addCommand (commandOf rule) p) rs p
  = mkPlugin (settings p) (isCommandExecuting p) (defaultRules p) (sharesDefaultRules p)
      (data p) (modifyListeners p) (commands p ++ map commandOf rs) (settingTabs p) (app p).
Proof.
  revert p. induction rs as [ | rule rs IH]; intros p.
  - destruct p. cbn. rewrite app_nil_r. reflexivity.
  - cbn [fold_left]. rewrite IH. unfold addCommand. cbn. rewrite <- app_assoc. reflexivity.
Qed.

(** [onload], field by field. *)
Lemma onload_eq (p : Plugin) :
  onload p
  = mkPlugin (settings (loadSettings p)) (isCommandExecuting p) (defaultRules p)
      (sharesDefaultRules (loadSettings p)) (data p) (S (modifyListeners p))
      (commands p ++ map commandOf (rules (settings (loadSettings p))))
      (S (settingTabs p)) (app p).
Proof.
  unfold onload. rewrite addCommands_eq. unfold addSettingTab, registerEvent.
  destruct p as [s e dr sh d ml cs st w]. unfold loadSettings. cbn.
  destruct d as [[[rs | ] show] | ]; reflexivity.
Qed.

(** After a save, [loadSettings] gives back the settings that were saved. *)
Lemma loadSettings_saveData (p : Plugin) :
  loadSettings (saveData p) = setSettings (settings p) false (saveData p).
Proof.
  unfold loadSettings, saveData. cbn. destruct (settings p). reflexivity.
Qed.

(** [saveSettings], field by field. *)
Lemma saveSettings_eq (p : Plugin) :
  saveSettings p
  = mkPlugin (settings p) (isCommandExecuting p) (defaultRules p) false
      (Some (mkData (Some (rules (settings p)))
                    (Some (showMoveNotification (settings p)))))
      (S (modifyListeners p))
      (commands p ++ map commandOf (rules (settings p)))
      (S (settingTabs p)) (app p).
Proof.
  unfold saveSettings. rewrite onload_eq, loadSettings_saveData. reflexivity.
Qed.

(** After [k] saves in a row. *)
Lemma saves_eq (k : nat) (p : Plugin) :
  settings (Nat.iter k saveSettings p) = settings p /\
  modifyListeners (Nat.iter k saveSettings p) = k + modifyListeners p /\
  settingTabs (Nat.iter k saveSettings p) = k + settingTabs p /\
  commands (Nat.iter k saveSettings p)
  = commands p ++ concat (repeat (map commandOf (rules (settings p))) k).
Proof.
  induction k as [ | k (Hs & Hl & Ht & Hc)].
  - cbn. rewrite app_nil_r. repeat split.
  - rewrite !Nat.iter_succ, saveSettings_eq. cbn [settings modifyListeners settingTabs commands].
    rewrite Hs, Hl, Ht, Hc. repeat split.
    rewrite <- app_assoc. f_equal.
    change (S k) with (1 + k). rewrite Nat.add_comm, repeat_app, concat_app.
    cbn. rewrite app_nil_r. reflexivity.
Qed.

(** The listeners called one after the other. *)
Lemma listeners_eq (file : TAbstractFile) (n : nat) (p : Plugin) :
  settings (Nat.iter n (modifyListener file) p) = settings p /\
  isCommandExecuting (Nat.iter n (modifyListener file) p) = isCommandExecuting p /\
  vault (app (Nat.iter n (modifyListener file) p)) = vault (app p) /\
  trace (app (Nat.iter n (modifyListener file) p))
  = trace (app p) ++
    (if isCommandExecuting p && showMoveNotification (settings p)
     then repeat (Notice ("File moved: " +++ path file)) n
     else []).
Proof.
  induction n as [ | n (Hs & He & Hv & Ht)].
  - cbn. repeat split.
    destruct (isCommandExecuting p && showMoveNotification (settings p));
      rewrite app_nil_r; reflexivity.
  - rewrite !Nat.iter_succ. unfold modifyListener at 1 3 5 7. rewrite Hs, He.
    destruct (isCommandExecuting p && showMoveNotification (settings p)).
    + cbn. rewrite Hs, He, Hv, Ht. repeat split.
      rewrite <- app_assoc. f_equal. symmetry. apply (repeat_cons n).
    + rewrite Hs, He, Hv, Ht. repeat split.
Qed.

(** *** Lists of rules *)

Lemma assign_id (a : Assignment) (rule : MoveRule) : id (assign a rule) = id rule.
Proof. destruct a; reflexivity. Qed.

Lemma updateAt_ids (index : nat) (a : Assignment) (rs : list MoveRule) :
  map id (updateAt index (assign a) rs) = map id rs.
Proof.
  revert index. induction rs as [ | rule rs IH]; intros index;
    [ destruct index; reflexivity | ].
  destruct index as [ | index]; cbn [updateAt map].
  - rewrite assign_id. reflexivity.
  - rewrite IH. reflexivity.
Qed.

Lemma updateAt_here (index : nat) (f : MoveRule -> MoveRule) (rs : list MoveRule) :
  nth_error (updateAt index f rs) index = option_map f (nth_error rs index).
Proof.
  revert index. induction rs as [ | rule rs IH]; intros index.
  - destruct index; reflexivity.
  - destruct index as [ | index]; cbn [updateAt nth_error]; [ reflexivity | apply IH ].
Qed.

Lemma updateAt_elsewhere (index j : nat) (f : MoveRule -> MoveRule) (rs : list MoveRule) :
  j <> index -> nth_error (updateAt index f rs) j = nth_error rs j.
Proof.
  revert index j. induction rs as [ | rule rs IH]; intros index j H.
  - destruct index; reflexivity.
  - destruct index as [ | index], j as [ | j]; cbn [updateAt nth_error];
      try reflexivity; [ contradiction | apply IH; congruence ].
Qed.

Lemma splice_last (rs : list MoveRule) (rule : MoveRule) :
  splice (length rs) (rs ++ [rule]) = rs.
Proof.
  unfold splice. rewrite firstn_app, firstn_all, Nat.sub_diag. cbn [firstn].
  rewrite skipn_all2 by (rewrite length_app; cbn; lia).
  rewrite !app_nil_r. reflexivity.
Qed.

Lemma splice_length (index : nat) (rs : list MoveRule) :
  length (splice index rs) = if (index <? length rs)%nat then pred (length rs) else length rs.
Proof.
  unfold splice. rewrite length_app, length_firstn, length_skipn.
  destruct (Nat.ltb_spec index (length rs)); lia.
Qed.

Lemma append_injective (s a b : string) : s +++ a = s +++ b -> a = b.
Proof.
  induction s as [ | c s IH]; cbn; [ trivial | ]. intros [= H]. apply IH. exact H.
Qed.

Lemma commandIds_NoDup (rs : list MoveRule) :
  NoDup (map commandId (map commandOf rs)) <-> NoDup (map id rs).
Proof.
  rewrite map_map. cbn [commandOf commandId].
  rewrite <- (map_map id (fun s => "execute-move-rule-" +++ s)). split.
  - apply NoDup_map_inv.
  - apply NoDup_map_NoDup_ForallPairs. intros a b _ _. apply append_injective.
Qed.

Lemma NoDup_twice_at_end (A : Type) (l : list A) (a : A) : ~ NoDup (l ++ [a; a]).
Proof.
  intros H. apply NoDup_app_remove_l in H. inversion H as [ | ? ? Hin _ ].
  apply Hin. left. reflexivity.
Qed.

Lemma splice_incl (index : nat) (rs : list MoveRule) (rule : MoveRule) :
  In rule (splice index rs) -> In rule rs.
Proof.
  unfold splice. intros H. apply in_app_or in H as [H | H].
  - rewrite <- (firstn_skipn index rs). apply in_or_app. left. exact H.
  - rewrite <- (firstn_skipn (S index) rs). apply in_or_app. right. exact H.
Qed.

(** *** The handlers *)

(** A handler that returns has saved: it has registered once more. *)
Lemma handle_registers (act : Action) (p p' : Plugin) :
  handle act p = inr p' ->
  commands p' = commands p ++ map commandOf (rules (settings p')) /\
  modifyListeners p' = S (modifyListeners p) /\
  settingTabs p' = S (settingTabs p) /\
  data p' = Some (mkData (Some (rules (settings p')))
                         (Some (showMoveNotification (settings p')))).
Proof.
  destruct act as [value | a index | index | now]; cbn [handle].
  - intros [= <-]. unfold onChangeShowMoveNotification. rewrite saveSettings_eq.
    repeat split.
  - unfold onChange. destruct (nth_error (rules (settings p)) index); [ | discriminate ].
    intros [= <-]. rewrite saveSettings_eq. repeat split.
  - intros [= <-]. unfold onClickDelete. rewrite saveSettings_eq. repeat split.
  - intros [= <-]. unfold onClickAdd. rewrite saveSettings_eq. repeat split.
Qed.

(** The identifier of a rule after a handler is the identifier of a rule
    before it, or the clock reading of [Add Rule]. *)
Lemma handle_ids (act : Action) (p p' : Plugin) (i : string) :
  handle act p = inr p' ->
  In i (map id (rules (settings p'))) ->
  In i (map id (rules (settings p))) \/ act = Add i.
Proof.
  destruct act as [value | a index | index | now]; cbn [handle].
  - intros [= <-]. unfold onChangeShowMoveNotification. rewrite saveSettings_eq.
    cbn. tauto.
  - unfold onChange. destruct (nth_error (rules (settings p)) index); [ | discriminate ].
    intros [= <-]. rewrite saveSettings_eq. cbn [settings updateRules rules].
    rewrite updateAt_ids. tauto.
  - intros [= <-]. unfold onClickDelete. rewrite saveSettings_eq.
    cbn [settings updateRules rules]. rewrite !in_map_iff.
    intros (rule & E & H). left. exists rule. split; [ exact E | ].
    exact (splice_incl _ _ _ H).
  - intros [= <-]. unfold onClickAdd. rewrite saveSettings_eq.
    cbn [settings updateRules rules]. rewrite map_app, in_app_iff. cbn.
    intros [H | [<- | []]]; [ left; exact H | right; reflexivity ].
Qed.

End LifecycleFacts.

(** * Properties of the rule runner *)

Section Claims.

Variable RegExp : Type.
Variable newRegExp : string -> Error + RegExp.
Variable test : RegExp -> string -> bool.
Variable settings : FileMoverSettings.
Variable host : nat -> list Move -> list nat.
Variable stack : nat.

Local Abbreviation runRule := (executeMoveRule newRegExp test settings host stack).
Local Abbreviation walk := (processFolder test settings host stack).

(** C5.  A rule with [enabled = false] changes nothing in the tree: the
    invocation completes with the tree it started from and its only event
    is the notice that the rule is disabled (no folder is created, no file
    is moved). *)
Theorem disabled_rule_changes_nothing (rule : MoveRule) (w : World) :
  enabled rule = false ->
  runRule rule w
  = (Normal tt, mkWorld (vault w) (trace w ++ [Notice (msgDisabled rule)])).
Proof. apply execute_disabled. Qed.

(** C8.  When the source path does not resolve to a folder (it resolves to
    nothing, or to a file), the invocation leaves the tree as it was and
    adds a single notice, no call to the vault that could change the tree;
    for an enabled rule that notice is the source-not-found one. *)
Theorem source_not_folder_aborts (rule : MoveRule) (w : World) :
  (forall p n cs,
      getAbstractFileByPath (vault w) (sourcePath rule) <> Some (TFolder p n cs)) ->
  exists msg,
    runRule rule w = (Normal tt, mkWorld (vault w) (trace w ++ [Notice msg])) /\
    (enabled rule = true -> msg = msgSourceNotFound rule).
Proof.
  intros Hsrc. destruct (enabled rule) eqn:En.
  - exists (msgSourceNotFound rule). split; [ | reflexivity ].
    apply execute_source_not_folder; assumption.
  - exists (msgDisabled rule). split; [ | discriminate ].
    apply execute_disabled. assumption.
Qed.

(** C9.  The invocation never completes abruptly, whatever its walk does;
    an error thrown by the walk, and not only one thrown by [new RegExp],
    ends the invocation with the invalid-regular-expression notice. *)
Theorem invocation_never_throws
  (walk : TAbstractFile -> RegExp -> string -> Async unit)
  (rule : MoveRule) (w : World) :
  (exists w', runRule rule w = (Normal tt, w')) /\
  (exists w', executeMoveRuleWith newRegExp walk rule w = (Normal tt, w')) /\
  (forall p n cs w1 regex e w2,
      enabled rule = true ->
      getAbstractFileByPath (vault w) (sourcePath rule) = Some (TFolder p n cs) ->
      ensureTargetFolder rule w = (Normal true, w1) ->
      newRegExp (filePattern rule) = inr regex ->
      walk (TFolder p n cs) regex (targetPath rule) w1 = (Abrupt e, w2) ->
      executeMoveRuleWith newRegExp walk rule w
      = (Normal tt,
         mkWorld (vault w2) (trace w2 ++ [Notice (msgInvalidRegExp rule); ConsoleError e]))) /\
  (forall p n cs w1 e,
      enabled rule = true ->
      getAbstractFileByPath (vault w) (sourcePath rule) = Some (TFolder p n cs) ->
      ensureTargetFolder rule w = (Normal true, w1) ->
      newRegExp (filePattern rule) = inl e ->
      executeMoveRuleWith newRegExp walk rule w
      = (Normal tt,
         mkWorld (vault w1) (trace w1 ++ [Notice (msgInvalidRegExp rule); ConsoleError e]))).
Proof.
  split; [ apply execute_completes | ].
  split; [ apply execute_completes | ].
  split.
  - intros p n cs w1 regex e w2 En Src Tgt C W.
    rewrite (execute_source_folder _ newRegExp walk rule w p n cs En Src).
    rewrite ensureTargetFolder_outcome in Tgt. injection Tgt as -> ->.
    rewrite (guarded_compiled _ newRegExp walk rule _ _ regex C), W. reflexivity.
  - intros p n cs w1 e En Src Tgt C.
    rewrite (execute_source_folder _ newRegExp walk rule w p n cs En Src).
    rewrite ensureTargetFolder_outcome in Tgt. injection Tgt as -> ->.
    apply guarded_compile_error. assumption.
Qed.

(** C2, amended.  For an enabled rule whose source is a folder and whose
    pattern does not compile, no move is called and none is settled.  The
    target folder is dealt with first: when the target path resolves, the
    tree is unchanged and the invocation ends with the invalid-pattern
    notice; when it does not, the folder is created before the pattern is
    compiled, and the invocation ends with the invalid-pattern notice (if
    the creation succeeded) or with the creation-failure notice. *)
Theorem invalid_pattern_moves_nothing (rule : MoveRule) (w : World) p n cs e :
  enabled rule = true ->
  getAbstractFileByPath (vault w) (sourcePath rule) = Some (TFolder p n cs) ->
  newRegExp (filePattern rule) = inl e ->
  exists w',
    runRule rule w = (Normal tt, w') /\
    renameCalls (trace w') = renameCalls (trace w) /\
    moveCalls (trace w') = moveCalls (trace w) /\
    match getAbstractFileByPath (vault w) (targetPath rule) with
    | Some _ =>
        w' = mkWorld (vault w)
               (trace w ++ [Notice (msgInvalidRegExp rule); ConsoleError e])
    | None =>
        match createFolder (vault w) (targetPath rule) with
        | inr v' =>
            w' = mkWorld v'
                   (trace w ++ [CreateFolder (targetPath rule);
                                Notice (msgInvalidRegExp rule); ConsoleError e])
        | inl _ =>
            w' = mkWorld (vault w)
                   (trace w ++ [CreateFolder (targetPath rule);
                                Notice ("Failed to create target folder: "
                                        +++ targetPath rule)])
        end
    end.
Proof.
  intros En Src C. unfold executeMoveRule.
  rewrite (execute_source_folder _ newRegExp _ rule w p n cs En Src).
  rewrite (guarded_compile_error _ newRegExp _ rule _ _ e C).
  unfold targetFolderOutcome.
  destruct (getAbstractFileByPath (vault w) (targetPath rule)); cbn [fst snd vault trace].
  - eexists. split; [ reflexivity | ]. cbn [trace].
    rewrite renameCalls_app, moveCalls_app. cbn. rewrite !app_nil_r.
    repeat split; reflexivity.
  - destruct (createFolder (vault w) (targetPath rule)); cbn [fst snd vault trace].
    + eexists. split; [ reflexivity | ]. cbn [trace].
      rewrite renameCalls_app, moveCalls_app. cbn. rewrite !app_nil_r.
      repeat split; reflexivity.
    + eexists. split; [ reflexivity | ]. cbn [trace].
      rewrite <- app_assoc, renameCalls_app, moveCalls_app. cbn. rewrite !app_nil_r.
      repeat split; reflexivity.
Qed.


(** C3, amended.  In a well-formed tree and with a call stack that can
    take the folders below the folder, the walk returns, and it returns only
    after all outcomes: the renames settled are the moves called, every
    rename settled is followed by the return of a [Promise.all] that waits
    for it, and the last event of the walk is the return of a [Promise.all].
    In a folder that holds files only, every move is called before any
    rename is settled and before anything is awaited. *)
Theorem every_move_is_awaited (folder : TAbstractFile) (pattern : RegExp)
    (targetPath : string) (w : World) :
  wellFormed (vault w) ->
  foldersFrom 0 (childrenOf (vault w) folder) <= stack ->
  exists tr w',
    walk folder pattern targetPath w = (Normal tt, w') /\
    trace w' = trace w ++ tr /\
    Permutation (renameCalls tr) (moveCalls tr) /\
    everyMoveAwaited tr = true /\
    (exists pre ps, tr = pre ++ [AwaitAll ps]) /\
    (Forall (fun c => isFolder c = false) (childrenOf (vault w) folder) ->
     noCallAfterSettle tr = true /\ noMoveIssuedAfterAwait tr = true).
Proof.
  intros Wf Hb.
  pose proof (processFolder_returns _ test settings host stack folder pattern targetPath w
                Wf Hb) as Hn.
  destruct (walk_events _ test settings host stack folder pattern targetPath w)
    as (tr & Htr & _).
  destruct (walk_awaits _ test settings host stack folder pattern targetPath w tr Hn Htr)
    as (H1 & H2 & H3 & _).
  exists tr, (snd (walk folder pattern targetPath w)).
  split; [ rewrite <- Hn; apply surjective_pairing | ].
  split; [ exact Htr | ]. split; [ exact H1 | ]. split; [ exact H2 | ].
  split; [ exact H3 | ].
  intros Hflat.
  destruct (flat_walk _ test settings host pattern targetPath stack folder 0 [] [] w Hflat)
    as (q' & v' & ev & Hrun & Hm & Hp & Hj).
  cbv beta in Hrun. cbn [skipn app] in Hrun.
  assert (E : tr = (flat_map (fun c : TAbstractFile =>
                               PatternTest (path c) (name c) ::
                               (if test pattern (name c)
                                then [MoveFile (path c) (targetPath +++ "/" +++ name c)]
                                else []))
                      (childrenOf (vault w) folder) ++ ev) ++
                   [AwaitAll (map path (filter (fun c => test pattern (name c))
                                          (childrenOf (vault w) folder)))]).
  { unfold processFolder, bind, ret in Htr. rewrite Hrun in Htr. cbn [snd trace] in Htr.
    apply app_inv_head in Htr. rewrite <- Htr, <- app_assoc. reflexivity. }
  destruct (visits_events _ test pattern targetPath (childrenOf (vault w) folder))
    as (_ & _ & Hvr & Hvj).
  rewrite E. split.
  - rewrite <- app_assoc, noCallAfterSettle_app by exact Hvr.
    apply noCallAfterSettle_none. rewrite moveCalls_app, Hm. reflexivity.
  - apply noMoveIssuedAfterAwait_end. rewrite joinCount_app, Hvj, Hj. reflexivity.
Qed.

(** C1, amended.  For an enabled rule whose source is a folder of a
    well-formed tree, whose target exists or is created and whose pattern
    compiles: [moveFile] is called only for files whose base name passes the
    test, with the target path joined with that name as destination; every
    rename settled is that of a move called; each file whose rename
    succeeds is, after the invocation, a direct child of the target under
    its own name; every file of the tree from whose path no rename
    succeeded is where it was, in particular every file whose name does not
    pass the test; and when the source folder holds files only as the walk
    begins, [moveFile] is called for every file of it whose name passes the
    test, and every call is settled before the invocation ends. *)
Theorem moved_matches_land_in_target (rule : MoveRule) (w : World) p n cs w1 regex :
  enabled rule = true ->
  getAbstractFileByPath (vault w) (sourcePath rule) = Some (TFolder p n cs) ->
  wellFormed (vault w) ->
  ensureTargetFolder rule w = (Normal true, w1) ->
  newRegExp (filePattern rule) = inr regex ->
  exists tr w',
    runRule rule w = (Normal tt, w') /\
    trace w' = trace w1 ++ tr /\
    (forall from to,
        In (MoveFile from to) tr ->
        to = targetPath rule +++ "/" +++ basename from /\
        test regex (basename from) = true) /\
    (forall from to okay, In (Rename from to okay) tr -> In (MoveFile from to) tr) /\
    (forall from to,
        In (Rename from to true) tr ->
        landedIn (vault w') (targetPath rule) (TFile from (basename from))) /\
    (forall q a m,
        getAbstractFileByPath (vault w) q = Some (TFile a m) ->
        ~ In q (movedFrom tr) ->
        getAbstractFileByPath (vault w') q = Some (TFile a m)) /\
    (forall q a m,
        getAbstractFileByPath (vault w) q = Some (TFile a m) ->
        test regex m = false ->
        getAbstractFileByPath (vault w') q = Some (TFile a m)) /\
    (Forall (fun c => isFolder c = false) (childrenOf (vault w1) (TFolder p n cs)) ->
     moveCalls tr
     = map (fun f => (path f, targetPath rule +++ "/" +++ name f))
         (filter (fun f => test regex (name f)) (childrenOf (vault w1) (TFolder p n cs))) /\
     Permutation (renameCalls tr) (moveCalls tr)).
Proof.
  intros En Src Wf Tgt C.
  destruct (execute_walks _ newRegExp test settings host stack rule w p n cs w1 regex
              En Src Tgt C) as (Hw1 & _ & Hrun).
  assert (Wf1 : wellFormed (vault w1))
    by (rewrite Hw1; apply targetFolderOutcome_wellFormed; exact Wf).
  destruct (walk_events _ test settings host stack (TFolder p n cs) regex (targetPath rule) w1)
    as (tr & Htr & _).
  destruct (walk_outcome _ test settings host stack (TFolder p n cs) regex (targetPath rule)
              w1 tr (wellFormed_names _ Wf1) Htr)
    as (Hcalls & Hcalled & Hland & Hframe & _).
  (* the walk, seen from the tree before the target-folder block *)
  assert (Hframe' : forall q a m,
             getAbstractFileByPath (vault w) q = Some (TFile a m) ->
             ~ In q (movedFrom tr) ->
             getAbstractFileByPath
               (vault (snd (walk (TFolder p n cs) regex (targetPath rule) w1))) q
             = Some (TFile a m)).
  { intros q a m Hq Hnot. apply Hframe; [ | exact Hnot ].
    rewrite Hw1. apply targetFolderOutcome_frame. exact Hq. }
  assert (Hstay : forall q a m,
             getAbstractFileByPath (vault w) q = Some (TFile a m) ->
             test regex m = false ->
             ~ In q (movedFrom tr)).
  { intros q a m Hq T Hin. apply movedFrom_In in Hin as (to & Hin).
    destruct (Hcalls _ _ (Hcalled _ _ _ Hin)) as [_ T'].
    pose proof (resolve_path _ _ _ Hq) as Ep. cbn [path] in Ep. subst a.
    apply resolve_nodes in Hq as [Hq | Hq]; [ discriminate | ].
    pose proof (proj2 (Wf _ Hq) eq_refl) as Hname. cbn [name path] in Hname.
    rewrite <- Hname in T'. congruence. }
  assert (Hflat : Forall (fun c => isFolder c = false) (childrenOf (vault w1) (TFolder p n cs)) ->
                  fst (walk (TFolder p n cs) regex (targetPath rule) w1) = Normal tt /\
                  moveCalls tr
                  = map (fun f => (path f, targetPath rule +++ "/" +++ name f))
                      (filter (fun f => test regex (name f))
                         (childrenOf (vault w1) (TFolder p n cs)))).
  { intros Hfiles.
    destruct (flat_walk _ test settings host regex (targetPath rule) stack (TFolder p n cs)
                0 [] [] w1 Hfiles) as (q' & v' & ev & Hflat & Hm & _ & _).
    cbv beta in Hflat. cbn [skipn app] in Hflat.
    unfold processFolder, bind, ret in Htr |- *. rewrite Hflat in Htr |- *.
    cbn [fst snd trace] in Htr |- *. split; [ reflexivity | ].
    apply app_inv_head in Htr. rewrite <- Htr, !moveCalls_app, Hm.
    rewrite (proj1 (proj2 (visits_events _ test regex (targetPath rule) _))).
    cbn [moveCalls flat_map app]. rewrite !app_nil_r. reflexivity. }
  destruct (walk (TFolder p n cs) regex (targetPath rule) w1) as [[[] | e] w'] eqn:Ew;
    cbn [fst snd] in *.
  - exists tr, w'. split; [ exact Hrun | ]. split; [ exact Htr | ].
    split; [ exact Hcalls | ]. split; [ exact Hcalled | ]. split; [ exact Hland | ].
    split; [ exact Hframe' | ].
    split; [ intros q a m Hq T; exact (Hframe' q a m Hq (Hstay q a m Hq T)) | ].
    intros Hfiles. destruct (Hflat Hfiles) as [_ Hmoves]. split; [ exact Hmoves | ].
    assert (Hn : fst (walk (TFolder p n cs) regex (targetPath rule) w1) = Normal tt)
      by (rewrite Ew; reflexivity).
    assert (Htr' : trace (snd (walk (TFolder p n cs) regex (targetPath rule) w1))
                   = trace w1 ++ tr) by (rewrite Ew; exact Htr).
    exact (proj1 (walk_awaits _ test settings host stack _ _ _ _ tr Hn Htr')).
  - exists (tr ++ [Notice (msgInvalidRegExp rule); ConsoleError e]),
      (mkWorld (vault w') (trace w' ++ [Notice (msgInvalidRegExp rule); ConsoleError e])).
    split; [ exact Hrun | ]. cbn [vault trace].
    split; [ rewrite Htr, app_assoc; reflexivity | ].
    assert (Hin : forall ev, In ev (tr ++ [Notice (msgInvalidRegExp rule); ConsoleError e]) ->
                             In ev tr \/ ev = Notice (msgInvalidRegExp rule) \/
                             ev = ConsoleError e).
    { intros ev H. apply in_app_or in H as [H | [H | [H | []]]]; auto. }
    assert (Hm : movedFrom (tr ++ [Notice (msgInvalidRegExp rule); ConsoleError e])
                 = movedFrom tr) by (rewrite movedFrom_app; apply app_nil_r).
    split.
    { intros from to H. apply Hin in H as [H | [H | H]]; try discriminate.
      exact (Hcalls _ _ H). }
    split.
    { intros from to okay H. apply Hin in H as [H | [H | H]]; try discriminate.
      apply in_or_app. left. exact (Hcalled _ _ _ H). }
    split.
    { intros from to H. apply Hin in H as [H | [H | H]]; try discriminate.
      exact (Hland _ _ H). }
    split; [ intros q a m Hq Hnot; rewrite Hm in Hnot; exact (Hframe' q a m Hq Hnot) | ].
    split; [ intros q a m Hq T; exact (Hframe' q a m Hq (Hstay q a m Hq T)) | ].
    intros Hfiles. destruct (Hflat Hfiles) as [Hn _]. discriminate.
Qed.

(** C7, amended.  For an enabled rule whose source is a folder of a
    well-formed tree, whose target exists or is created and whose pattern
    compiles: when, in the tree in which the walk begins, the target is
    neither the source folder nor below it, and the first invocation has
    moved every file of the match set, the match set of the source folder in
    the tree it leaves is empty, and a second invocation, with a call stack
    that can take the folders below the source, calls no move and settles
    none. *)
Theorem second_invocation_finds_nothing (rule : MoveRule) (w : World) p n cs w1 regex :
  enabled rule = true ->
  getAbstractFileByPath (vault w) (sourcePath rule) = Some (TFolder p n cs) ->
  wellFormed (vault w) ->
  ensureTargetFolder rule w = (Normal true, w1) ->
  newRegExp (filePattern rule) = inr regex ->
  (forall source1,
      getAbstractFileByPath (vault w1) (sourcePath rule) = Some source1 ->
      hasFolder (targetPath rule) source1 = false /\
      foldersFrom 0 (children source1) <= stack) ->
  (forall tr1,
      trace (snd (runRule rule w)) = trace w1 ++ tr1 ->
      forall f, In f (matchSet test regex (TFolder p n cs)) -> In (path f) (movedFrom tr1)) ->
  exists source',
    getAbstractFileByPath (vault (snd (runRule rule w))) (sourcePath rule) = Some source' /\
    matchSet test regex source' = [] /\
    exists tr2 w2,
      runRule rule (snd (runRule rule w)) = (Normal tt, w2) /\
      trace w2 = trace (snd (runRule rule w)) ++ tr2 /\
      moveCalls tr2 = [] /\ renameCalls tr2 = [].
Proof.
  intros En Src Wf Tgt C Hout Hall.
  destruct (execute_walks _ newRegExp test settings host stack rule w p n cs w1 regex
              En Src Tgt C) as (Hw1 & Hgo & Hrun).
  assert (Wf1 : wellFormed (vault w1))
    by (rewrite Hw1; apply targetFolderOutcome_wellFormed; exact Wf).
  assert (Tgt1 : getAbstractFileByPath (vault w1) (targetPath rule) <> None)
    by (rewrite Hw1; apply targetFolderOutcome_resolves; exact Hgo).
  destruct (targetFolderOutcome_source rule w p n cs Src) as (cs1 & Hsrc1 & Hfiles1).
  rewrite <- Hw1 in Hsrc1.
  destruct (Hout _ Hsrc1) as [Hout1 Hstack1]. cbn [children] in Hstack1.
  destruct (walk_events _ test settings host stack (TFolder p n cs) regex (targetPath rule) w1)
    as (tr & Htr & _).
  destruct (walk_source _ test settings host stack (TFolder p n cs) regex (targetPath rule)
              w1 tr (sourcePath rule) p n cs1 Wf1 Hsrc1 Hout1 Htr)
    as (Wf' & Tgt' & cs' & Hsrc' & Hfiles' & Hcount).
  specialize (Tgt' Tgt1).
  (* the world the first invocation leaves *)
  assert (Hfirst : vault (snd (runRule rule w))
                   = vault (snd (walk (TFolder p n cs) regex (targetPath rule) w1)) /\
                   exists post,
                     trace (snd (runRule rule w)) = trace w1 ++ tr ++ post /\
                     movedFrom post = []).
  { rewrite Hrun.
    destruct (walk (TFolder p n cs) regex (targetPath rule) w1) as [[[] | e] w'];
      cbn [snd vault trace] in *.
    - split; [ reflexivity | ]. exists []. rewrite app_nil_r. split; [ exact Htr | reflexivity ].
    - split; [ reflexivity | ]. eexists. rewrite Htr, <- app_assoc.
      split; [ reflexivity | reflexivity ]. }
  destruct Hfirst as (Hv & post & Htrace & Hpost).
  set (w' := snd (runRule rule w)) in *.
  rewrite <- Hv in Wf', Tgt', Hsrc'.
  exists (TFolder p n cs'). split; [ exact Hsrc' | ].
  assert (Hempty : matchSet test regex (TFolder p n cs') = []).
  { apply filter_nil_of_false. intros f Hf.
    destruct (Hfiles' f Hf) as [Hin Hnot].
    destruct (test regex (name f)) eqn:T; [ exfalso | reflexivity ].
    apply Hnot.
    assert (Hm : In (path f) (movedFrom (tr ++ post))).
    { apply (Hall _ Htrace). apply filter_In. split; [ | exact T ].
      rewrite Hfiles1 in Hin. exact Hin. }
    rewrite movedFrom_app, Hpost, app_nil_r in Hm. exact Hm. }
  split; [ exact Hempty | ].
  (* the second invocation *)
  pose proof (resolve_path _ _ _ Hsrc') as Ep. cbn [path] in Ep.
  unfold executeMoveRule.
  rewrite (execute_source_folder _ newRegExp _ rule w' p n cs' En Hsrc').
  rewrite (targetFolderOutcome_existing rule w' Tgt'). cbn [fst snd].
  rewrite (guarded_compiled _ newRegExp _ rule _ _ regex C).
  assert (Hsrc'' : getAbstractFileByPath (vault w') p = Some (TFolder p n cs'))
    by (pose proof Hsrc' as H; rewrite <- Ep in H; exact H).
  destruct (still_walk _ test settings host stack p n cs' regex (targetPath rule) w'
              Wf' Hsrc'') as (tr2 & Hrun2 & _ & Hcalls2 & _ & Hperm2 & _).
  { specialize (Hcount 0). lia. }
  { intros f Hf T. exfalso.
    assert (Hin : In f (matchSet test regex (TFolder p n cs')))
      by (apply filter_In; split; assumption).
    rewrite Hempty in Hin. destruct Hin. }
  rewrite Hrun2. exists tr2, (mkWorld (vault w') (trace w' ++ tr2)).
  split; [ reflexivity | ]. split; [ reflexivity | ].
  rewrite Hempty in Hcalls2. cbn [map] in Hcalls2. split; [ exact Hcalls2 | ].
  rewrite Hcalls2 in Hperm2. apply Permutation_sym, Permutation_nil in Hperm2. exact Hperm2.
Qed.

End Claims.

(** ** Instances on the sample data *)

Lemma disabled_rule_changes_nothing_witness :
  enabled Sample.disabledRule = false /\
  Sample.run DEFAULT_SETTINGS Sample.disabledRule Sample.inbox
  = (Normal tt, mkWorld Sample.inbox [Notice (msgDisabled Sample.disabledRule)]).
Proof.
  split; [ reflexivity | ].
  apply (disabled_rule_changes_nothing _ Fragment.newRegExp Fragment.test DEFAULT_SETTINGS
           inOrder 16 Sample.disabledRule (mkWorld Sample.inbox [])).
  reflexivity.
Defined.

Lemma source_not_folder_aborts_witness :
  getAbstractFileByPath Sample.inbox (sourcePath Sample.fileSourceRule)
  = Some (TFile "Inbox/b.txt" "b.txt") /\
  exists msg,
    Sample.run DEFAULT_SETTINGS Sample.fileSourceRule Sample.inbox
    = (Normal tt, mkWorld Sample.inbox [Notice msg]) /\
    (enabled Sample.fileSourceRule = true -> msg = msgSourceNotFound Sample.fileSourceRule).
Proof.
  split; [ reflexivity | ].
  apply (source_not_folder_aborts _ Fragment.newRegExp Fragment.test DEFAULT_SETTINGS
           inOrder 16 Sample.fileSourceRule (mkWorld Sample.inbox [])).
  intros p n cs. cbn. discriminate.
Defined.

(** C6 fails on the code.  With a matching file, then a subfolder, then a
    matching file again, and a host that settles the moves while the walk
    waits for the subfolder: the first file has left the children of the
    folder when the loop goes on, the last file has moved up to the index
    that the loop has just left, and it is never tested, though it matches
    and is still there.  A host that settles a move only when it is awaited
    lets the same walk test all three files. *)
Lemma live_walk_skips_a_file :
  let r := Sample.run DEFAULT_SETTINGS Sample.outRule Sample.around in
  let source := TFolder "Inbox" "Inbox"
                  [TFile "Inbox/a.pdf" "a.pdf";
                   TFolder "Inbox/Sub" "Sub" [TFile "Inbox/Sub/c.pdf" "c.pdf"];
                   TFile "Inbox/b.pdf" "b.pdf"] in
  getAbstractFileByPath Sample.around "Inbox" = Some source /\
  descendantFiles source
  = [TFile "Inbox/a.pdf" "a.pdf"; TFile "Inbox/Sub/c.pdf" "c.pdf";
     TFile "Inbox/b.pdf" "b.pdf"] /\
  Fragment.test Sample.pdfRegExp "b.pdf" = true /\
  fst r = Normal tt /\
  patternTests (trace (snd r))
  = [("Inbox/a.pdf", "a.pdf"); ("Inbox/Sub/c.pdf", "c.pdf")] /\
  moveCalls (trace (snd r))
  = [("Inbox/a.pdf", "Out/a.pdf"); ("Inbox/Sub/c.pdf", "Out/c.pdf")] /\
  failedFrom (trace (snd r)) = [] /\
  getAbstractFileByPath (vault (snd r)) "Inbox/b.pdf" = Some (TFile "Inbox/b.pdf" "b.pdf") /\
  patternTests
    (trace (snd (Sample.runBy onlyAwaited 16 DEFAULT_SETTINGS Sample.outRule Sample.around)))
  = [("Inbox/a.pdf", "a.pdf"); ("Inbox/Sub/c.pdf", "c.pdf"); ("Inbox/b.pdf", "b.pdf")].
Proof. cbv zeta. repeat split; reflexivity. Qed.

(** C3, as stated, fails: with a matching file in a subfolder listed before
    a matching file of the folder itself, the second move is called only
    after the [Promise.all] on the first has returned. *)
Lemma moves_are_not_all_concurrent :
  let tr := trace (snd (Sample.run DEFAULT_SETTINGS Sample.outRule Sample.nested)) in
  (exists pre post,
      tr = pre ++ AwaitAll ["Inbox/Archive/c.pdf"] :: post /\
      In (Rename "Inbox/Archive/c.pdf" "Out/c.pdf" true) pre /\
      In (MoveFile "Inbox/a.pdf" "Out/a.pdf") post) /\
  allMovesConcurrent tr = false.
Proof.
  split; [ | vm_compute; reflexivity ].
  exists [PatternTest "Inbox/Archive/c.pdf" "c.pdf";
          MoveFile "Inbox/Archive/c.pdf" "Out/c.pdf";
          Rename "Inbox/Archive/c.pdf" "Out/c.pdf" true;
          Notice "Moved file: Out/c.pdf -> Out/c.pdf";
          ConsoleLog "Moved file: Out/c.pdf -> Out/c.pdf"],
         [PatternTest "Inbox/a.pdf" "a.pdf";
          MoveFile "Inbox/a.pdf" "Out/a.pdf";
          Rename "Inbox/a.pdf" "Out/a.pdf" true;
          Notice "Moved file: Out/a.pdf -> Out/a.pdf";
          ConsoleLog "Moved file: Out/a.pdf -> Out/a.pdf";
          AwaitAll ["Inbox/a.pdf"]].
  split; [ vm_compute; reflexivity | ].
  split; [ right; right; left; reflexivity | right; left; reflexivity ].
Qed.

Lemma every_move_is_awaited_witness :
  wellFormed Sample.nested /\
  exists tr w',
    processFolder Fragment.test DEFAULT_SETTINGS inOrder 16
      (TFolder "Inbox" "Inbox"
         [TFolder "Inbox/Archive" "Archive" [TFile "Inbox/Archive/c.pdf" "c.pdf"];
          TFile "Inbox/a.pdf" "a.pdf"])
      Sample.pdfRegExp "Out" (mkWorld Sample.nested [])
    = (Normal tt, w') /\
    trace w' = tr /\
    Permutation (renameCalls tr) (moveCalls tr) /\
    everyMoveAwaited tr = true /\
    exists pre ps, tr = pre ++ [AwaitAll ps].
Proof.
  split; [ exact nested_wellFormed | ].
  destruct (every_move_is_awaited _ Fragment.test DEFAULT_SETTINGS inOrder 16
              (TFolder "Inbox" "Inbox"
                 [TFolder "Inbox/Archive" "Archive" [TFile "Inbox/Archive/c.pdf" "c.pdf"];
                  TFile "Inbox/a.pdf" "a.pdf"])
              Sample.pdfRegExp "Out" (mkWorld Sample.nested [])
              nested_wellFormed ltac:(vm_compute; lia))
    as (tr & w' & Hrun & Htr & Hperm & Hall & Hend & _).
  exists tr, w'. repeat split; assumption.
Defined.

Lemma invocation_never_throws_witness :
  executeMoveRuleWith Fragment.newRegExp Sample.overflowingWalk Sample.pdfRule
    (mkWorld Sample.inbox [])
  = (Normal tt,
     mkWorld (vault (snd (targetFolderOutcome Sample.pdfRule (mkWorld Sample.inbox []))))
       [CreateFolder "Inbox/PDFs";
        Notice (msgInvalidRegExp Sample.pdfRule);
        ConsoleError "RangeError: Maximum call stack size exceeded"]).
Proof.
  destruct (invocation_never_throws _ Fragment.newRegExp Fragment.test DEFAULT_SETTINGS
              inOrder 16 Sample.overflowingWalk Sample.pdfRule (mkWorld Sample.inbox []))
    as (_ & _ & H & _).
  exact (H "Inbox" "Inbox" _ _ _ _ _ eq_refl eq_refl eq_refl eq_refl eq_refl).
Defined.

(** C2, as stated, fails: the pattern ["["] does not compile and the
    invocation reports it, but the absent target folder has been created. *)
Lemma invalid_pattern_after_folder_creation :
  let r := Sample.run DEFAULT_SETTINGS Sample.bracketRule Sample.inbox in
  (exists e, Fragment.newRegExp (filePattern Sample.bracketRule) = inl e) /\
  In (Notice (msgInvalidRegExp Sample.bracketRule)) (trace (snd r)) /\
  In (CreateFolder "Inbox/PDFs") (trace (snd r)) /\
  ~ leavesTreeUntouched Sample.inbox r.
Proof.
  split; [ eexists; reflexivity | ].
  split; [ vm_compute; tauto | ].
  split; [ vm_compute; tauto | ].
  intros [_ H]. vm_compute in H. discriminate.
Qed.

Lemma invalid_pattern_moves_nothing_witness :
  exists w',
    Sample.run DEFAULT_SETTINGS Sample.bracketRule Sample.inbox = (Normal tt, w') /\
    renameCalls (trace w') = [] /\
    moveCalls (trace w') = [] /\
    vault w' = graftVault "Inbox" (TFolder "Inbox/PDFs" "PDFs" []) Sample.inbox.
Proof.
  destruct (invalid_pattern_moves_nothing _ Fragment.newRegExp Fragment.test DEFAULT_SETTINGS
              inOrder 16 Sample.bracketRule (mkWorld Sample.inbox []) "Inbox" "Inbox" _ _
              eq_refl eq_refl eq_refl) as (w' & Hrun & Hren & Hmov & Hw).
  exists w'. split; [ exact Hrun | ]. split; [ exact Hren | ]. split; [ exact Hmov | ].
  cbn in Hw. rewrite Hw. reflexivity.
Defined.


(** C1, as stated, fails: of two matching files of the same name, one is
    moved and the other, whose rename is refused, stays where it was. *)
Lemma same_name_matches_collide :
  let r := Sample.run DEFAULT_SETTINGS Sample.outRule Sample.twins in
  let source := TFolder "Inbox" "Inbox"
                  [TFile "Inbox/a.pdf" "a.pdf";
                   TFolder "Inbox/Sub" "Sub" [TFile "Inbox/Sub/a.pdf" "a.pdf"]] in
  getAbstractFileByPath Sample.twins "Inbox" = Some source /\
  Fragment.newRegExp (filePattern Sample.outRule) = inr Sample.pdfRegExp /\
  In (TFile "Inbox/Sub/a.pdf" "a.pdf") (matchSet Fragment.test Sample.pdfRegExp source) /\
  In (MoveFile "Inbox/Sub/a.pdf" "Out/a.pdf") (trace (snd r)) /\
  In (Rename "Inbox/Sub/a.pdf" "Out/a.pdf" false) (trace (snd r)) /\
  getAbstractFileByPath (vault (snd r)) "Inbox/Sub/a.pdf"
  = Some (TFile "Inbox/Sub/a.pdf" "a.pdf") /\
  ~ everyMatchMoved Fragment.test Sample.pdfRegExp source "Out" (vault (snd r)).
Proof.
  cbv zeta.
  split; [ reflexivity | ]. split; [ reflexivity | ].
  split; [ vm_compute; tauto | ]. split; [ vm_compute; tauto | ].
  split; [ vm_compute; tauto | ].
  split; [ reflexivity | ].
  intros H.
  destruct (H (TFile "Inbox/Sub/a.pdf" "a.pdf")) as [_ Hgone]; [ vm_compute; tauto | ].
  specialize (Hgone ltac:(discriminate)). vm_compute in Hgone. discriminate.
Qed.

Lemma moved_matches_land_in_target_witness :
  wellFormed Sample.inbox /\
  exists tr w',
    Sample.run DEFAULT_SETTINGS Sample.pdfRule Sample.inbox = (Normal tt, w') /\
    trace w' = [CreateFolder "Inbox/PDFs"] ++ tr /\
    landedIn (vault w') "Inbox/PDFs" (TFile "Inbox/Archive/c.pdf" "c.pdf") /\
    getAbstractFileByPath (vault w') "Inbox/b.txt" = Some (TFile "Inbox/b.txt" "b.txt").
Proof.
  split; [ exact inbox_wellFormed | ].
  destruct (moved_matches_land_in_target _ Fragment.newRegExp Fragment.test DEFAULT_SETTINGS
              inOrder 16 Sample.pdfRule (mkWorld Sample.inbox []) "Inbox" "Inbox" _ _
              Sample.pdfRegExp eq_refl eq_refl inbox_wellFormed eq_refl eq_refl)
    as (tr & w' & Hrun & Htr & _ & _ & Hland & _ & Hstay & _).
  exists tr, w'. split; [ exact Hrun | ]. split; [ exact Htr | ]. split.
  - apply (Hland "Inbox/Archive/c.pdf" "Inbox/PDFs/c.pdf").
    injection Hrun as Hw. rewrite <- Hw in Htr.
    vm_compute in Htr. injection Htr as Htr. subst tr. vm_compute. tauto.
  - exact (Hstay "Inbox/b.txt" "Inbox/b.txt" "b.txt" eq_refl eq_refl).
Defined.

(** C4 fails on the code.  Of three matching files, the second of the name
    of the first and in a subfolder, the third after the subfolder: with a
    host that settles the moves while the walk waits for the subfolder,
    exactly one rename fails, that of the second file, and it is caught and
    reported; but of the two other files only the first is moved.  The
    third has moved up in the children of the folder to the index that the
    loop has just left: it is never tested, no move is called for it and
    nothing is reported about it.  A host that settles a move only when it
    is awaited lets the same walk move it. *)
Lemma skipped_match_is_not_moved :
  let r := Sample.run DEFAULT_SETTINGS Sample.outRule Sample2.twinsAround in
  let source := TFolder "Inbox" "Inbox"
                  [TFile "Inbox/a.pdf" "a.pdf";
                   TFolder "Inbox/Sub" "Sub" [TFile "Inbox/Sub/a.pdf" "a.pdf"];
                   TFile "Inbox/b.pdf" "b.pdf"] in
  getAbstractFileByPath Sample2.twinsAround "Inbox" = Some source /\
  map path (matchSet Fragment.test Sample.pdfRegExp source)
  = ["Inbox/a.pdf"; "Inbox/Sub/a.pdf"; "Inbox/b.pdf"] /\
  fst r = Normal tt /\
  failedFrom (trace (snd r)) = ["Inbox/Sub/a.pdf"] /\
  movedFrom (trace (snd r)) = ["Inbox/a.pdf"] /\
  moveCalls (trace (snd r))
  = [("Inbox/a.pdf", "Out/a.pdf"); ("Inbox/Sub/a.pdf", "Out/a.pdf")] /\
  notices (trace (snd r))
  = ["Moved file: Out/a.pdf -> Out/a.pdf"; "Failed to move file: Inbox/Sub/a.pdf"] /\
  getAbstractFileByPath (vault (snd r)) "Inbox/b.pdf" = Some (TFile "Inbox/b.pdf" "b.pdf") /\
  getAbstractFileByPath (vault (snd r)) "Out/b.pdf" = None /\
  movedFrom
    (trace (snd (Sample.runBy onlyAwaited 16 DEFAULT_SETTINGS Sample.outRule
                   Sample2.twinsAround)))
  = ["Inbox/Sub/a.pdf"; "Inbox/b.pdf"].
Proof. cbv zeta. repeat split; reflexivity. Qed.

(** C7, as stated, fails: in the spec's own example the target folder is
    below the source folder, every move of the first invocation succeeds, and
    the second invocation finds the two moved files in its match set. *)
Lemma second_invocation_matches_moved_files :
  let r1 := Sample.run DEFAULT_SETTINGS Sample.pdfRule Sample.inbox in
  let r2 := executeMoveRule Fragment.newRegExp Fragment.test DEFAULT_SETTINGS inOrder 16
              Sample.pdfRule (mkWorld (vault (snd r1)) []) in
  movedFrom (trace (snd r1)) = ["Inbox/a.pdf"; "Inbox/Archive/c.pdf"] /\
  failedFrom (trace (snd r1)) = [] /\
  (exists source',
      getAbstractFileByPath (vault (snd r1)) "Inbox" = Some source' /\
      matchSet Fragment.test Sample.pdfRegExp source'
      = [TFile "Inbox/PDFs/a.pdf" "a.pdf"; TFile "Inbox/PDFs/c.pdf" "c.pdf"]) /\
  moveCalls (trace (snd r2))
  = [("Inbox/PDFs/a.pdf", "Inbox/PDFs/a.pdf"); ("Inbox/PDFs/c.pdf", "Inbox/PDFs/c.pdf")].
Proof.
  cbv zeta. split; [ reflexivity | ]. split; [ reflexivity | ].
  split; [ | reflexivity ].
  eexists. split; reflexivity.
Qed.

Lemma second_invocation_finds_nothing_witness :
  wellFormed Sample.nested /\
  exists source',
    getAbstractFileByPath
      (vault (snd (Sample.run DEFAULT_SETTINGS Sample.outRule Sample.nested))) "Inbox"
    = Some source' /\
    matchSet Fragment.test Sample.pdfRegExp source' = [] /\
    exists tr2 w2,
      executeMoveRule Fragment.newRegExp Fragment.test DEFAULT_SETTINGS inOrder 16
        Sample.outRule (snd (Sample.run DEFAULT_SETTINGS Sample.outRule Sample.nested))
      = (Normal tt, w2) /\
      trace w2 = trace (snd (Sample.run DEFAULT_SETTINGS Sample.outRule Sample.nested)) ++ tr2 /\
      moveCalls tr2 = [] /\ renameCalls tr2 = [].
Proof.
  split; [ exact nested_wellFormed | ].
  apply (second_invocation_finds_nothing _ Fragment.newRegExp Fragment.test DEFAULT_SETTINGS
           inOrder 16 Sample.outRule (mkWorld Sample.nested []) "Inbox" "Inbox" _
           (mkWorld Sample.nested []) Sample.pdfRegExp
           eq_refl eq_refl nested_wellFormed eq_refl eq_refl).
  - intros source1 H. vm_compute in H. injection H as <-.
    split; [ reflexivity | vm_compute; lia ].
  - intros tr1 H f Hf. vm_compute in H. subst tr1.
    vm_compute in Hf. destruct Hf as [<- | [<- | []]]; vm_compute; tauto.
Defined.

(** * Further properties of the rule runner *)

Section Extras.

Variable RegExp : Type.
Variable newRegExp : string -> Error + RegExp.
Variable test : RegExp -> string -> bool.
Variable settings : FileMoverSettings.
Variable host : nat -> list Move -> list nat.
Variable stack : nat.

Local Abbreviation runRule := (executeMoveRule newRegExp test settings host stack).
Local Abbreviation walk := (processFolder test settings host stack).

(** X1.  When the target path does not resolve and the folder cannot be
    created, the invocation of an enabled rule with a folder as source stops
    there: the tree is unchanged, the events are the [createFolder] call and
    the creation-failure notice, and the pattern is not compiled, so that
    nothing is said about a pattern that is invalid. *)
Theorem target_creation_failure_aborts (rule : MoveRule) (w : World) p n cs e :
  enabled rule = true ->
  getAbstractFileByPath (vault w) (sourcePath rule) = Some (TFolder p n cs) ->
  getAbstractFileByPath (vault w) (targetPath rule) = None ->
  createFolder (vault w) (targetPath rule) = inl e ->
  runRule rule w
  = (Normal tt,
     mkWorld (vault w)
       (trace w ++ [CreateFolder (targetPath rule);
                    Notice ("Failed to create target folder: " +++ targetPath rule)])).
Proof.
  intros En Src Tgt C. unfold executeMoveRule.
  rewrite (execute_source_folder _ newRegExp _ rule w p n cs En Src).
  unfold targetFolderOutcome. rewrite Tgt, C. reflexivity.
Qed.

(** X2.  An invocation never removes or moves a folder: a path that resolves
    to a folder before the invocation resolves to that folder afterwards,
    also when the invocation has moved every file out of it. *)
Theorem folders_are_never_removed (rule : MoveRule) (w : World) q a b cs :
  getAbstractFileByPath (vault w) q = Some (TFolder a b cs) ->
  exists cs',
    getAbstractFileByPath (vault (snd (runRule rule w))) q = Some (TFolder a b cs').
Proof.
  intros Hq.
  apply (execute_preserves _ newRegExp test settings host stack
           (fun v => exists cs', getAbstractFileByPath v q = Some (TFolder a b cs'))).
  - intros v f np f' v' R H. exact (rename_keeps_folder _ _ _ _ _ _ _ _ R H).
  - intros v p v' C H. exact (createFolder_keeps_folder _ _ _ _ _ _ C H).
  - exists cs. exact Hq.
Qed.

(** X3.  The target folder is created before anything else is looked at:
    when the target path does not resolve and the creation succeeds, the
    folder is there after the invocation, whether the pattern compiles or
    not and whether any file matches or not. *)
Theorem created_target_outlives_invocation (rule : MoveRule) (w : World) p n cs v1 :
  enabled rule = true ->
  getAbstractFileByPath (vault w) (sourcePath rule) = Some (TFolder p n cs) ->
  getAbstractFileByPath (vault w) (targetPath rule) = None ->
  createFolder (vault w) (targetPath rule) = inr v1 ->
  In (CreateFolder (targetPath rule)) (trace (snd (runRule rule w))) /\
  exists cs',
    getAbstractFileByPath (vault (snd (runRule rule w))) (targetPath rule)
    = Some (TFolder (targetPath rule) (basename (targetPath rule)) cs').
Proof.
  intros En Src Tgt C. unfold executeMoveRule.
  rewrite (execute_source_folder _ newRegExp _ rule w p n cs En Src).
  unfold targetFolderOutcome. rewrite Tgt, C. cbn [fst snd].
  assert (H1 : exists cs',
             getAbstractFileByPath v1 (targetPath rule)
             = Some (TFolder (targetPath rule) (basename (targetPath rule)) cs')).
  { exists []. exact (createFolder_resolve_new _ _ _ C). }
  destruct (newRegExp (filePattern rule)) as [e | regex] eqn:Cp.
  - rewrite (guarded_compile_error _ newRegExp _ rule _ _ e Cp). cbn [snd vault trace].
    split; [ | exact H1 ].
    apply in_or_app. left. apply in_or_app. right. left. reflexivity.
  - rewrite (guarded_compiled _ newRegExp _ rule _ _ regex Cp).
    destruct (walk_events _ test settings host stack (TFolder p n cs) regex (targetPath rule)
                (mkWorld v1 (trace w ++ [CreateFolder (targetPath rule)])))
      as (tr & Htr & _).
    pose proof (processFolder_preserves _ test settings host stack
                  (fun v => exists cs',
                       getAbstractFileByPath v (targetPath rule)
                       = Some (TFolder (targetPath rule) (basename (targetPath rule)) cs'))
                  (fun v f np f' v' R H => rename_keeps_folder _ _ _ _ _ _ _ _ R H)
                  (TFolder p n cs) regex (targetPath rule)
                  (mkWorld v1 (trace w ++ [CreateFolder (targetPath rule)])) H1) as Hv.
    destruct (walk (TFolder p n cs) regex (targetPath rule)
                (mkWorld v1 (trace w ++ [CreateFolder (targetPath rule)])))
      as [[[] | e] w']; cbn [snd vault trace] in *; (split; [ | exact Hv ]); rewrite Htr.
    + apply in_or_app. left. apply in_or_app. right. left. reflexivity.
    + do 2 (apply in_or_app; left). apply in_or_app. right. left. reflexivity.
Qed.

(** X4.  A move of the walk never replaces an entry: the destination of every
    move that succeeded was a path that did not resolve when the walk began,
    and no two moves that succeeded have the same destination.  This rests on
    [rename] refusing a path that resolves, the walk itself checking nothing;
    and the walk never frees a destination, a file that is at one being
    moved, if at all, to where it is.  The names of the files of the tree are
    the base names of their paths.  The walk returns when the tree is well
    formed and the call stack can take the folders below the folder. *)
Theorem walk_never_overwrites (folder : TAbstractFile) (pattern : RegExp)
    (targetPath : string) (w : World) :
  namesFollowPaths (vault w) ->
  exists c tr w',
    walk folder pattern targetPath w = (c, w') /\
    trace w' = trace w ++ tr /\
    (wellFormed (vault w) ->
     foldersFrom 0 (childrenOf (vault w) folder) <= stack -> c = Normal tt) /\
    (forall from to,
        In (Rename from to true) tr -> getAbstractFileByPath (vault w) to = None) /\
    NoDup (movedTo tr).
Proof.
  intros Hwf.
  destruct (walk_events _ test settings host stack folder pattern targetPath w)
    as (tr & Htr & _).
  destruct (walk_outcome _ test settings host stack folder pattern targetPath w tr Hwf Htr)
    as (_ & _ & _ & _ & H1 & H2 & _).
  exists (fst (walk folder pattern targetPath w)), tr, (snd (walk folder pattern targetPath w)).
  split; [ apply surjective_pairing | ]. split; [ exact Htr | ].
  split; [ apply processFolder_returns | ]. split; assumption.
Qed.

(** X5.  The walk writes one console line for each rename that is settled,
    whatever its outcome.  With the notices of moves switched on there is
    one notice for each; with them switched off the notices are the failure
    notices, one for each move that failed: a failed move is announced
    whatever the setting says.  When the walk returns, the renames settled
    are the moves called; it returns when the tree is well formed and the
    call stack can take the folders below the folder. *)
Theorem walk_reports_every_move (folder : TAbstractFile) (pattern : RegExp)
    (targetPath : string) (w : World) :
  exists c tr w',
    walk folder pattern targetPath w = (c, w') /\
    trace w' = trace w ++ tr /\
    (wellFormed (vault w) ->
     foldersFrom 0 (childrenOf (vault w) folder) <= stack -> c = Normal tt) /\
    length (consoleLines tr) = length (renameCalls tr) /\
    (showMoveNotification settings = true ->
     length (notices tr) = length (renameCalls tr)) /\
    (showMoveNotification settings = false ->
     notices tr = map (fun f => "Failed to move file: " +++ f) (failedFrom tr)) /\
    (c = Normal tt -> Permutation (renameCalls tr) (moveCalls tr)).
Proof.
  destruct (walk_events _ test settings host stack folder pattern targetPath w)
    as (tr & Htr & _).
  destruct (walk_lines _ test settings host stack folder pattern targetPath w tr Htr)
    as (L1 & L2 & L3).
  exists (fst (walk folder pattern targetPath w)), tr, (snd (walk folder pattern targetPath w)).
  split; [ apply surjective_pairing | ]. split; [ exact Htr | ].
  split; [ apply processFolder_returns | ].
  split; [ exact L1 | ]. split; [ exact L2 | ]. split; [ exact L3 | ].
  intros Hn.
  exact (proj1 (walk_awaits _ test settings host stack folder pattern targetPath w tr Hn Htr)).
Qed.

(** X6.  The settings reach an invocation through the notices only: under
    any two settings the invocation of a rule leaves the same tree and,
    notices apart, the same events in the same order. *)
Theorem settings_change_notices_only (settings' : FileMoverSettings)
    (rule : MoveRule) (w : World) :
  vault (snd (runRule rule w))
  = vault (snd (executeMoveRule newRegExp test settings' host stack rule w)) /\
  withoutNotices (trace (snd (runRule rule w)))
  = withoutNotices (trace (snd (executeMoveRule newRegExp test settings' host stack rule w))).
Proof. exact (execute_settings _ newRegExp test settings settings' host stack rule w). Qed.

(** X7.  When the walk returns, the promises waited for by its
    [Promise.all] are the moves called, each waited for once, and every
    rename settled is followed by the return of a [Promise.all] that waits
    for it.  The walk returns when the tree is well formed and the call
    stack can take the folders below the folder. *)
Theorem walk_awaits_each_move_once (folder : TAbstractFile) (pattern : RegExp)
    (targetPath : string) (w : World) :
  exists c tr w',
    walk folder pattern targetPath w = (c, w') /\
    trace w' = trace w ++ tr /\
    (wellFormed (vault w) ->
     foldersFrom 0 (childrenOf (vault w) folder) <= stack -> c = Normal tt) /\
    (c = Normal tt ->
     Permutation (awaited tr) (map fst (moveCalls tr)) /\ everyMoveAwaited tr = true).
Proof.
  destruct (walk_events _ test settings host stack folder pattern targetPath w)
    as (tr & Htr & _).
  exists (fst (walk folder pattern targetPath w)), tr, (snd (walk folder pattern targetPath w)).
  split; [ apply surjective_pairing | ]. split; [ exact Htr | ].
  split; [ apply processFolder_returns | ].
  intros Hn.
  destruct (walk_awaits _ test settings host stack folder pattern targetPath w tr Hn Htr)
    as (_ & H2 & _ & H4).
  split; assumption.
Qed.

(** X8.  The walk of a folder with an empty match set, an empty folder among
    them, in a well-formed tree and with a call stack that can take the
    folders below it: the walk returns and leaves the tree as it is and
    nothing to read; its events are the tests, one for each file below the
    folder, depth first, and the [Promise.all], no notice and no console
    line. *)
Theorem walk_without_match_is_silent (p n : string) (cs : list TAbstractFile)
    (pattern : RegExp) (targetPath : string) (w : World) :
  wellFormed (vault w) ->
  getAbstractFileByPath (vault w) p = Some (TFolder p n cs) ->
  foldersFrom 0 cs <= stack ->
  matchSet test pattern (TFolder p n cs) = [] ->
  exists tr w',
    walk (TFolder p n cs) pattern targetPath w = (Normal tt, w') /\
    trace w' = trace w ++ tr /\
    vault w' = vault w /\
    forallb isSilent tr = true /\
    patternTests tr = map (fun f => (path f, name f)) (descendantFiles (TFolder p n cs)).
Proof.
  intros Wf Hp Hb Hn.
  destruct (still_walk _ test settings host stack p n cs pattern targetPath w Wf Hp Hb)
    as (tr & Hrun & Hpt & Hcalls & _ & Hperm & Hev & Hlines & Hnot).
  { intros f Hf T. exfalso.
    assert (Hin : In f (matchSet test pattern (TFolder p n cs)))
      by (apply filter_In; split; assumption).
    rewrite Hn in Hin. destruct Hin. }
  rewrite Hn in Hcalls. cbn [map] in Hcalls.
  rewrite Hcalls in Hperm. apply Permutation_sym, Permutation_nil in Hperm.
  exists tr, (mkWorld (vault w) (trace w ++ tr)).
  split; [ exact Hrun | ]. split; [ reflexivity | ]. split; [ reflexivity | ].
  split; [ | exact Hpt ].
  apply events_silent; try assumption.
  - rewrite Hperm in Hlines. destruct (consoleLines tr); [ reflexivity | discriminate ].
  - exact (Hnot Hperm).
  - intros q Hin. exact (Hev _ Hin).
Qed.

(** X9.  When the target path resolves to a plain file, the invocation goes
    on as if the target folder were there: in a well-formed tree and with a
    call stack that can take the folders below the source it walks the
    source, and every move fails, [rename] refusing a path below a file, so
    that every matching file is reported as failed and the tree is
    unchanged.  The failures are those of the files of the match set, in the
    order in which the host settles the moves; with the host that settles
    them in the order of the calls, in the order of the match set. *)
Theorem file_as_target_fails_every_move (rule : MoveRule) (w : World) p n cs a m regex :
  enabled rule = true ->
  getAbstractFileByPath (vault w) (sourcePath rule) = Some (TFolder p n cs) ->
  wellFormed (vault w) ->
  foldersFrom 0 cs <= stack ->
  getAbstractFileByPath (vault w) (targetPath rule) = Some (TFile a m) ->
  newRegExp (filePattern rule) = inr regex ->
  exists tr,
    runRule rule w = (Normal tt, mkWorld (vault w) (trace w ++ tr)) /\
    movedFrom tr = [] /\
    Permutation (failedFrom tr) (map path (matchSet test regex (TFolder p n cs))) /\
    (host = inOrder -> failedFrom tr = map path (matchSet test regex (TFolder p n cs))).
Proof.
  intros En Src Wf Hb Tgt C.
  pose proof (resolve_path _ _ _ Src) as Ep. cbn [path] in Ep.
  assert (Src' : getAbstractFileByPath (vault w) p = Some (TFolder p n cs))
    by (pose proof Src as H; rewrite <- Ep in H; exact H).
  destruct (still_walk _ test settings host stack p n cs regex (targetPath rule) w
              Wf Src' Hb) as (tr & Hrun & _ & Hcalls & Hmoved & Hperm & _).
  { intros f Hf _. apply (rename_into_file _ _ _ a m Tgt).
    assert (Hin : In f (allNodes (vault w))).
    { apply (descendants_in_tree _ _ _ _ Src'). exact Hf. }
    apply (proj2 (Wf f Hin)).
    exact (proj1 (Forall_forall _ _) (descendantFiles_are_files (TFolder p n cs)) f Hf). }
  exists tr. split.
  { unfold executeMoveRule.
    rewrite (execute_source_folder _ newRegExp _ rule w p n cs En Src).
    rewrite targetFolderOutcome_existing by (rewrite Tgt; discriminate). cbn [fst snd].
    rewrite (guarded_compiled _ newRegExp _ rule _ _ regex C), Hrun. reflexivity. }
  split; [ exact Hmoved | ].
  assert (Hpaths : map fst (moveCalls tr) = map path (matchSet test regex (TFolder p n cs))).
  { rewrite Hcalls, map_map. reflexivity. }
  rewrite (failedFrom_all tr Hmoved), <- Hpaths. split.
  - apply Permutation_map. exact Hperm.
  - intros Hh. f_equal.
    assert (E : forall h, h = inOrder ->
                processFolder test settings h stack (TFolder p n cs) regex (targetPath rule) w
                = (Normal tt, mkWorld (vault w) (trace w ++ tr)) ->
                renameCalls tr = moveCalls tr).
    { intros h -> Hr. unfold processFolder, bind, ret in Hr.
      destruct (walk_inOrder _ test settings regex (targetPath rule) stack (TFolder p n cs)
                  0 [] [] w) as (tr' & Htr' & Hn').
      destruct (processFolderFrom test settings inOrder stack (TFolder p n cs) regex
                  (targetPath rule) 0 [] [] w) as [[q' | e] w'] eqn:Ew; [ | discriminate ].
      injection Hr as ->. cbn [fst snd trace] in *. apply app_inv_head in Htr'. subst tr'.
      exact (proj2 (Hn' q' eq_refl)). }
    exact (E host Hh Hrun).
Qed.


End Extras.

(** ** Instances of the further properties *)

Lemma target_creation_failure_aborts_witness :
  Sample.run DEFAULT_SETTINGS Sample2.orphanTargetRule Sample.inbox
  = (Normal tt,
     mkWorld Sample.inbox
       [CreateFolder "Missing/Out"; Notice "Failed to create target folder: Missing/Out"]).
Proof.
  exact (target_creation_failure_aborts _ Fragment.newRegExp Fragment.test DEFAULT_SETTINGS
           inOrder 16 Sample2.orphanTargetRule (mkWorld Sample.inbox []) "Inbox" "Inbox" _ _
           eq_refl eq_refl eq_refl eq_refl).
Defined.

Lemma folders_are_never_removed_witness :
  exists cs',
    getAbstractFileByPath
      (vault (snd (Sample.run DEFAULT_SETTINGS Sample.pdfRule Sample.inbox))) "Inbox/Archive"
    = Some (TFolder "Inbox/Archive" "Archive" cs').
Proof.
  exact (folders_are_never_removed _ Fragment.newRegExp Fragment.test DEFAULT_SETTINGS
           inOrder 16 Sample.pdfRule (mkWorld Sample.inbox []) "Inbox/Archive" _ _ _ eq_refl).
Defined.

Lemma created_target_outlives_invocation_witness :
  In (CreateFolder "Inbox/PDFs")
     (trace (snd (Sample.run DEFAULT_SETTINGS Sample.bracketRule Sample.inbox))) /\
  exists cs',
    getAbstractFileByPath
      (vault (snd (Sample.run DEFAULT_SETTINGS Sample.bracketRule Sample.inbox))) "Inbox/PDFs"
    = Some (TFolder "Inbox/PDFs" "PDFs" cs').
Proof.
  exact (created_target_outlives_invocation _ Fragment.newRegExp Fragment.test
           DEFAULT_SETTINGS inOrder 16 Sample.bracketRule (mkWorld Sample.inbox [])
           "Inbox" "Inbox" _ _ eq_refl eq_refl eq_refl eq_refl).
Defined.

Lemma walk_never_overwrites_witness :
  namesFollowPaths Sample.twins /\
  exists tr w',
    processFolder Fragment.test DEFAULT_SETTINGS inOrder 16
      (TFolder "Inbox" "Inbox"
         [TFile "Inbox/a.pdf" "a.pdf";
          TFolder "Inbox/Sub" "Sub" [TFile "Inbox/Sub/a.pdf" "a.pdf"]])
      Sample.pdfRegExp "Out" (mkWorld Sample.twins [])
    = (Normal tt, w') /\
    trace w' = tr /\
    (forall from to,
        In (Rename from to true) tr -> getAbstractFileByPath Sample.twins to = None) /\
    NoDup (movedTo tr).
Proof.
  split; [ exact (wellFormed_names _ twins_wellFormed) | ].
  destruct (walk_never_overwrites _ Fragment.test DEFAULT_SETTINGS inOrder 16
              (TFolder "Inbox" "Inbox"
                 [TFile "Inbox/a.pdf" "a.pdf";
                  TFolder "Inbox/Sub" "Sub" [TFile "Inbox/Sub/a.pdf" "a.pdf"]])
              Sample.pdfRegExp "Out" (mkWorld Sample.twins [])
              (wellFormed_names _ twins_wellFormed))
    as (c & tr & w' & Hrun & Htr & Hc & Hfree & Hnd).
  exists tr, w'.
  rewrite <- (Hc twins_wellFormed ltac:(vm_compute; lia)).
  split; [ exact Hrun | ]. split; [ exact Htr | ]. split; [ exact Hfree | exact Hnd ].
Defined.

Lemma walk_reports_every_move_witness :
  exists tr w',
    processFolder Fragment.test (mkSettings [] false) inOrder 16
      (TFolder "Inbox" "Inbox"
         [TFile "Inbox/a.pdf" "a.pdf";
          TFolder "Inbox/Sub" "Sub" [TFile "Inbox/Sub/a.pdf" "a.pdf"]])
      Sample.pdfRegExp "Out" (mkWorld Sample.twins [])
    = (Normal tt, w') /\
    trace w' = tr /\
    length (consoleLines tr) = length (renameCalls tr) /\
    notices tr = map (fun f => "Failed to move file: " +++ f) (failedFrom tr) /\
    Permutation (renameCalls tr) (moveCalls tr).
Proof.
  destruct (walk_reports_every_move _ Fragment.test (mkSettings [] false) inOrder 16
              (TFolder "Inbox" "Inbox"
                 [TFile "Inbox/a.pdf" "a.pdf";
                  TFolder "Inbox/Sub" "Sub" [TFile "Inbox/Sub/a.pdf" "a.pdf"]])
              Sample.pdfRegExp "Out" (mkWorld Sample.twins []))
    as (c & tr & w' & Hrun & Htr & Hc & Hlines & _ & Hoff & Hperm).
  exists tr, w'.
  pose proof (Hc twins_wellFormed ltac:(vm_compute; lia)) as En.
  rewrite <- En.
  split; [ exact Hrun | ]. split; [ exact Htr | ]. split; [ exact Hlines | ].
  split; [ exact (Hoff eq_refl) | exact (Hperm En) ].
Defined.

Lemma walk_awaits_each_move_once_witness :
  exists tr w',
    processFolder Fragment.test DEFAULT_SETTINGS onlyAwaited 16
      (TFolder "Inbox" "Inbox"
         [TFile "Inbox/a.pdf" "a.pdf";
          TFolder "Inbox/Sub" "Sub" [TFile "Inbox/Sub/c.pdf" "c.pdf"];
          TFile "Inbox/b.pdf" "b.pdf"])
      Sample.pdfRegExp "Out" (mkWorld Sample.around [])
    = (Normal tt, w') /\
    trace w' = tr /\
    Permutation (awaited tr) (map fst (moveCalls tr)) /\
    everyMoveAwaited tr = true.
Proof.
  destruct (walk_awaits_each_move_once _ Fragment.test DEFAULT_SETTINGS onlyAwaited 16
              (TFolder "Inbox" "Inbox"
                 [TFile "Inbox/a.pdf" "a.pdf";
                  TFolder "Inbox/Sub" "Sub" [TFile "Inbox/Sub/c.pdf" "c.pdf"];
                  TFile "Inbox/b.pdf" "b.pdf"])
              Sample.pdfRegExp "Out" (mkWorld Sample.around []))
    as (c & tr & w' & Hrun & Htr & Hc & Hall).
  exists tr, w'.
  pose proof (Hc around_wellFormed ltac:(vm_compute; lia)) as En.
  rewrite <- En.
  split; [ exact Hrun | ]. split; [ exact Htr | ]. exact (Hall En).
Defined.

Lemma walk_without_match_is_silent_witness :
  wellFormed Sample.inbox /\
  exists tr w',
    processFolder Fragment.test DEFAULT_SETTINGS inOrder 16
      (TFolder "Inbox" "Inbox"
         [TFile "Inbox/a.pdf" "a.pdf";
          TFile "Inbox/b.txt" "b.txt";
          TFolder "Inbox/Archive" "Archive" [TFile "Inbox/Archive/c.pdf" "c.pdf"]])
      (Fragment.mkRegExp false
         [Fragment.Lit "."; Fragment.Lit "d"; Fragment.Lit "o"; Fragment.Lit "c"] true)
      "Out" (mkWorld Sample.inbox [])
    = (Normal tt, w') /\
    trace w' = tr /\
    vault w' = Sample.inbox /\
    forallb isSilent tr = true /\
    patternTests tr
    = [("Inbox/a.pdf", "a.pdf"); ("Inbox/b.txt", "b.txt"); ("Inbox/Archive/c.pdf", "c.pdf")].
Proof.
  split; [ exact inbox_wellFormed | ].
  exact (walk_without_match_is_silent _ Fragment.test DEFAULT_SETTINGS inOrder 16
           "Inbox" "Inbox" _
           (Fragment.mkRegExp false
              [Fragment.Lit "."; Fragment.Lit "d"; Fragment.Lit "o"; Fragment.Lit "c"] true)
           "Out" (mkWorld Sample.inbox [])
           inbox_wellFormed eq_refl ltac:(vm_compute; lia) eq_refl).
Defined.

Lemma file_as_target_fails_every_move_witness :
  wellFormed Sample.targetIsFile /\
  exists tr,
    Sample.run DEFAULT_SETTINGS Sample.outRule Sample.targetIsFile
    = (Normal tt, mkWorld Sample.targetIsFile tr) /\
    movedFrom tr = [] /\
    failedFrom tr = ["Inbox/a.pdf"].
Proof.
  split; [ exact targetIsFile_wellFormed | ].
  destruct (file_as_target_fails_every_move _ Fragment.newRegExp Fragment.test
              DEFAULT_SETTINGS inOrder 16 Sample.outRule (mkWorld Sample.targetIsFile [])
              "Inbox" "Inbox" _ "Out" "Out" Sample.pdfRegExp
              eq_refl eq_refl targetIsFile_wellFormed ltac:(vm_compute; lia) eq_refl eq_refl)
    as (tr & Hrun & Hmoved & _ & Hfail).
  exists tr. split; [ exact Hrun | ]. split; [ exact Hmoved | exact (Hfail eq_refl) ].
Defined.


(** * The plugin in its host, stated *)

Import Lifecycle.

(** X10.  [saveSettings] stores both keys of the settings, and the [onload]
    it starts loads them back as they were: after a save no default shows
    through, and the rules of the settings are no longer the array of
    [DEFAULT_SETTINGS]. *)
Theorem save_reloads_what_it_stored (p : Plugin) :
  settings (saveSettings p) = settings p /\
  sharesDefaultRules (saveSettings p) = false /\
  data (saveSettings p)
  = Some (mkData (Some (rules (settings p))) (Some (showMoveNotification (settings p)))) /\
  loadSettings (saveSettings p) = saveSettings p.
Proof.
  rewrite saveSettings_eq. repeat split.
  unfold loadSettings. cbn. destruct (settings p). reflexivity.
Qed.

(** X11.  Every save runs [onload] again, and [onload] registers without
    looking at what is registered: after [k] saves there are [k] more
    listeners for [modify], [k] more settings tabs, and the commands of all
    rules have been added [k] more times. *)
Theorem every_save_registers_again (k : nat) (p : Plugin) :
  modifyListeners (Nat.iter k saveSettings p) = k + modifyListeners p /\
  settingTabs (Nat.iter k saveSettings p) = k + settingTabs p /\
  commands (Nat.iter k saveSettings p)
  = commands p ++ concat (repeat (map commandOf (rules (settings p))) k).
Proof. destruct (saves_eq k p) as (_ & Hl & Ht & Hc). repeat split; assumption. Qed.

(** X12.  A [modify] event leaves the tree as it is.  While a command is
    executing and the notices are switched on it gives the notice
    [File moved: <path>] once for each listener registered; otherwise it
    gives nothing. *)
Theorem modify_event_notices_once_per_listener (file : TAbstractFile) (p : Plugin) :
  vault (app (trigger_modify file p)) = vault (app p) /\
  trace (app (trigger_modify file p))
  = trace (app p) ++
    (if isCommandExecuting p && showMoveNotification (settings p)
     then repeat (Notice ("File moved: " +++ path file)) (modifyListeners p)
     else []).
Proof.
  unfold trigger_modify.
  destruct (listeners_eq file (modifyListeners p) p) as (_ & _ & Hv & Ht).
  split; assumption.
Qed.

(** X13.  The callback of a command always comes to its last line: whatever
    the rule, the tree, the host and the call stack, it completes, the flag
    [isCommandExecuting] is false afterwards (also when it was true before),
    the settings are what they were, and a [modify] event that follows gives
    no notice. *)
Theorem command_always_lowers_the_flag (RegExp : Type)
    (newRegExp : string -> Error + RegExp) (test : RegExp -> string -> bool)
    (host : nat -> list Move -> list nat) (stack : nat)
    (rule : MoveRule) (p : Plugin) :
  exists w',
    executeMoveRule newRegExp test (settings p) host stack rule (app p) = (Normal tt, w') /\
    callback newRegExp test host stack rule p
    = (Normal tt, setExecuting false (setApp w' p)) /\
    forall file,
      trace (app (trigger_modify file (setExecuting false (setApp w' p)))) = trace w'.
Proof.
  destruct (execute_completes _ newRegExp (processFolder test (settings p) host stack)
              rule (app p)) as [w' H].
  exists w'. split; [ exact H | ]. split.
  - unfold callback. cbn [settings app setExecuting]. unfold executeMoveRule.
    rewrite H. reflexivity.
  - intros file. unfold trigger_modify.
    destruct (listeners_eq file (modifyListeners (setExecuting false (setApp w' p)))
                (setExecuting false (setApp w' p))) as (_ & _ & _ & Ht).
    rewrite Ht. cbn. apply app_nil_r.
Qed.

(** X14.  The handler of a control of the rule at [index] throws exactly
    when there is no rule at [index], and then nothing is saved.  When there
    is one it returns, having assigned the one field of that rule: the
    identifiers of the rules are what they were, in the same order, every
    other rule and the notice setting are unchanged, and what is stored is
    what the settings are. *)
Theorem edit_changes_one_field_of_one_rule (a : Assignment) (index : nat) (p : Plugin) :
  (nth_error (rules (settings p)) index = None ->
   onChange a index p = inl "TypeError: Cannot set properties of undefined" /\
   handleAll [Change a index] p = p) /\
  (forall rule,
      nth_error (rules (settings p)) index = Some rule ->
      exists p',
        onChange a index p = inr p' /\
        map id (rules (settings p')) = map id (rules (settings p)) /\
        nth_error (rules (settings p')) index = Some (assign a rule) /\
        (forall j, j <> index ->
                   nth_error (rules (settings p')) j = nth_error (rules (settings p)) j) /\
        showMoveNotification (settings p') = showMoveNotification (settings p) /\
        data p' = Some (mkData (Some (rules (settings p')))
                               (Some (showMoveNotification (settings p'))))).
Proof.
  split.
  - intros E. cbn [handleAll handle]. unfold onChange. rewrite E. split; reflexivity.
  - intros rule E. unfold onChange. rewrite E.
    eexists. split; [ reflexivity | ].
    rewrite saveSettings_eq. cbn [settings data updateRules rules showMoveNotification].
    split; [ apply updateAt_ids | ].
    split; [ rewrite updateAt_here, E; reflexivity | ].
    split; [ intros j Hj; apply updateAt_elsewhere; exact Hj | ]. split; reflexivity.
Qed.

(** X15.  No handler of the settings tab takes a registration back: after any
    sequence of actions the calls of [addCommand] made before are followed by
    those made since, none is undone, that for a rule deleted since among
    them, and there are at least as many listeners and settings tabs as
    before. *)
Theorem handlers_never_unregister (acts : list Action) (p : Plugin) :
  exists more,
    commands (handleAll acts p) = commands p ++ more /\
    (modifyListeners p <= modifyListeners (handleAll acts p))%nat /\
    (settingTabs p <= settingTabs (handleAll acts p))%nat.
Proof.
  revert p. induction acts as [ | act acts IH]; intros p.
  - exists []. cbn. rewrite app_nil_r. repeat split; lia.
  - cbn [handleAll]. destruct (handle act p) as [e | p'] eqn:H; [ apply IH | ].
    destruct (handle_registers _ _ _ H) as (Hc & Hl & Ht & _).
    destruct (IH p') as (more & Hc' & Hl' & Ht').
    exists (map commandOf (rules (settings p')) ++ more).
    rewrite Hc', Hc, <- app_assoc. repeat split; lia.
Qed.

(** X16.  No handler assigns the identifier of a rule: after any sequence of
    actions the identifier of every rule is the identifier of a rule there
    was before, or the clock reading of an [Add Rule] of the sequence. *)
Theorem rule_ids_are_never_edited (acts : list Action) (p : Plugin) (i : string) :
  In i (map id (rules (settings (handleAll acts p)))) ->
  In i (map id (rules (settings p))) \/ In (Add i) acts.
Proof.
  revert p. induction acts as [ | act acts IH]; intros p; [ intros H; left; exact H | ].
  cbn [handleAll]. destruct (handle act p) as [e | p'] eqn:H; intros Hi.
  - destruct (IH _ Hi) as [H1 | H1]; [ left; exact H1 | right; right; exact H1 ].
  - destruct (IH _ Hi) as [H1 | H1]; [ | right; right; exact H1 ].
    destruct (handle_ids _ _ _ _ H H1) as [H2 | ->]; [ left; exact H2 | right; left; reflexivity ].
Qed.

(** X17.  [Add Rule] puts the new rule last, so that deleting the rule at the
    index that was the number of rules gives back the rules there were. *)
Theorem add_then_delete_restores_rules (now : string) (p : Plugin) :
  rules (settings (onClickDelete (length (rules (settings p))) (onClickAdd now p)))
  = rules (settings p).
Proof.
  unfold onClickDelete, onClickAdd. rewrite !saveSettings_eq.
  cbn [settings updateRules rules]. apply splice_last.
Qed.

(** X18.  Nothing looks at the identifiers when a rule is added.  After two
    [Add Rule] the rules are those there were and the two new ones, and the
    [onload] of the second save adds one command for each of them.  At the
    same clock reading the two new rules have the same identifier, and so
    have two of the commands of that one [onload].  At two clock readings
    that differ, and that are the identifier of no rule there was, the
    identifiers stay distinct when they were, and so do those of the commands
    of that [onload]. *)
Theorem same_clock_reading_same_id (now1 now2 : string) (p : Plugin) :
  let p2 := onClickAdd now2 (onClickAdd now1 p) in
  let batch := map commandOf (rules (settings p2)) in
  rules (settings p2) = rules (settings p) ++ [newRule now1; newRule now2] /\
  commands p2 = commands (onClickAdd now1 p) ++ batch /\
  (now1 = now2 ->
   ~ NoDup (map id (rules (settings p2))) /\ ~ NoDup (map commandId batch)) /\
  (now1 <> now2 ->
   NoDup (map id (rules (settings p))) ->
   ~ In now1 (map id (rules (settings p))) ->
   ~ In now2 (map id (rules (settings p))) ->
   NoDup (map id (rules (settings p2))) /\ NoDup (map commandId batch)).
Proof.
  cbv zeta. unfold onClickAdd. rewrite !saveSettings_eq.
  cbn [settings updateRules rules commands].
  rewrite <- (app_assoc (rules (settings p))).
  change ([newRule now1] ++ [newRule now2]) with [newRule now1; newRule now2].
  split; [ reflexivity | ]. split; [ reflexivity | ].
  assert (Hids : map id (rules (settings p) ++ [newRule now1; newRule now2])
                 = map id (rules (settings p)) ++ [now1; now2])
    by (rewrite map_app; reflexivity).
  split.
  - intros <-.
    assert (H : ~ NoDup (map id (rules (settings p) ++ [newRule now1; newRule now1]))).
    { rewrite Hids. apply NoDup_twice_at_end. }
    split; [ exact H | ].
    intros Hc. apply H. apply commandIds_NoDup. exact Hc.
  - intros Hne Hnd H1 H2.
    assert (H : NoDup (map id (rules (settings p) ++ [newRule now1; newRule now2]))).
    { rewrite Hids. apply NoDup_app.
      - exact Hnd.
      - constructor; [ intros [E | []]; apply Hne; symmetry; exact E | ].
        constructor; [ intros [] | constructor ].
      - intros x Hx [<- | [<- | []]]; [ exact (H1 Hx) | exact (H2 Hx) ]. }
    split; [ exact H | ]. apply commandIds_NoDup. exact H.
Qed.

(** X19.  The commands [onload] adds when the plugin starts have distinct
    identifiers exactly when the rules loaded have. *)
Theorem command_ids_follow_rule_ids (stored : option Data) (w : World) :
  NoDup (map commandId (commands (onload (construct stored w)))) <->
  NoDup (map id (rules (settings (onload (construct stored w))))).
Proof. rewrite onload_eq. cbn [commands settings construct app]. apply commandIds_NoDup. Qed.

(** X20.  With nothing stored, the rules of the settings are the array of
    [DEFAULT_SETTINGS] itself, and the first [Add Rule] pushes the new rule
    onto it: the defaults hold the rule from then on, and a later start that
    again finds nothing stored begins with that rule and not with an empty
    list. *)
Theorem first_add_changes_the_defaults (now : string) (p : Plugin) :
  data p = None ->
  defaultRules (onClickAdd now (onload p)) = defaultRules p ++ [newRule now] /\
  rules (settings (onload (dataRemoved (onClickAdd now (onload p)))))
  = defaultRules p ++ [newRule now].
Proof.
  intros H.
  assert (L : forall q,
             data q = None ->
             settings (loadSettings q)
             = mkSettings (defaultRules q) (showMoveNotification DEFAULT_SETTINGS) /\
             sharesDefaultRules (loadSettings q) = true).
  { intros q Hq. unfold loadSettings. rewrite Hq. split; reflexivity. }
  destruct (L p H) as [Ls Lsh].
  assert (D : defaultRules (onClickAdd now (onload p)) = defaultRules p ++ [newRule now]).
  { unfold onClickAdd. rewrite saveSettings_eq, onload_eq.
    cbn [defaultRules updateRules sharesDefaultRules settings rules].
    rewrite Lsh, Ls. reflexivity. }
  split; [ exact D | ].
  generalize dependent (onClickAdd now (onload p)). intros q D.
  rewrite onload_eq. cbn [settings].
  destruct (L (dataRemoved q) eq_refl) as [Ls' _].
  rewrite Ls'. cbn [rules]. exact D.
Qed.

(** ** Instances *)

Lemma rule_ids_are_never_edited_witness :
  In "1700000000000"
     (map id (rules (settings
        (handleAll [Add "1700000000000"; Change (SetName "PDFs") 0; Delete 5]
           (onload (construct None (mkWorld Sample.inbox []))))))) /\
  (In "1700000000000"
      (map id (rules (settings (onload (construct None (mkWorld Sample.inbox [])))))) \/
   In (Add "1700000000000")
      [Add "1700000000000"; Change (SetName "PDFs") 0; Delete 5]).
Proof.
  split; [ left; reflexivity | ].
  apply (rule_ids_are_never_edited
           [Add "1700000000000"; Change (SetName "PDFs") 0; Delete 5]
           (onload (construct None (mkWorld Sample.inbox []))) "1700000000000").
  left. reflexivity.
Defined.

Lemma first_add_changes_the_defaults_witness :
  defaultRules (onClickAdd "1700000000000" (onload (construct None (mkWorld Sample.inbox []))))
  = [newRule "1700000000000"] /\
  rules (settings
           (onload (dataRemoved
                      (onClickAdd "1700000000000"
                         (onload (construct None (mkWorld Sample.inbox [])))))))
  = [newRule "1700000000000"].
Proof.
  exact (first_add_changes_the_defaults "1700000000000"
           (construct None (mkWorld Sample.inbox [])) eq_refl).
Defined.
